(** * PubsubValueStore: a value store over pubsub (pubsub.go)

    A shallow embedding of [pubsub.go] and the properties of its
    conflict resolver, local cache, subscription manager and watch
    groups.

    Go values are modelled as follows.
    - [[]byte] is [list Byte.byte]; [error] is the inductive [error],
      a nil error is [None].
    - [*floodsub.Subscription] is [option Subscription]: [None] is the
      nil pointer, [Some n] the subscription handle number [n].
    - [map[string]T] is stdpp's [gmap string T].
    - [sync.Mutex] is a [bool] (held or not), [sync.RWMutex] is [RWMutex].
    - Channels, watch groups and relay goroutines live in heaps of the
      [World], addressed by number, because the Go code shares them by
      reference.
    - Calls on collaborators (validator, pubsub, content routing) are
      recorded in the [log] of the [World], newest event first. *)

From Stdlib Require Import ZArith.
From Stdlib.Strings Require Import Byte.
From stdpp Require Import base gmap strings list.

Local Open Scope nat_scope.

(** ** Data *)

Definition bytes := list Byte.byte.

#[global] Instance byte_eq_dec : EqDecision Byte.byte := Byte.byte_eq_dec.

(** [bytes.Equal]: same length and the same bytes. *)
Fixpoint bytes_Equal (a b : bytes) : bool :=
  match a, b with
  | [], [] => true
  | x :: a', y :: b' => Byte.eqb x y && bytes_Equal a' b'
  | _, _ => false
  end.

(** Go [error] values.  [ds_ErrNotFound] is [ds.ErrNotFound],
    [routing_ErrNotFound] is [routing.ErrNotFound], [context_Canceled] is
    [context.Canceled]; every other error is [errors_New] of its text. *)
Inductive error :=
| ds_ErrNotFound
| routing_ErrNotFound
| context_Canceled
| errors_New (msg : string).

#[global] Instance error_eq_dec : EqDecision error.
Proof. solve_decision. Defined.

(** [record.Validator]: [Validate] returns an error or nil, [Select]
    returns the index of the preferred record and an error. *)
Record record_Validator := {
  Validate : string -> bytes -> option error;
  Select : string -> list bytes -> Z * option error
}.

(** [ds.Key] as built by [dshelp.NewKeyFromBinary], an injective encoding
    of the raw key. *)
Inductive Key := NewKeyFromBinary (rawKey : string).

#[global] Instance Key_eq_dec : EqDecision Key.
Proof. solve_decision. Defined.

#[global] Instance Key_countable : Countable Key.
Proof.
  refine (inj_countable' (fun k => match k with NewKeyFromBinary s => s end)
                         NewKeyFromBinary _).
  intros []; reflexivity.
Defined.

(** [ds.Datastore], the part the store uses. *)
Class Datastore (D : Type) := {
  ds_Get : D -> Key -> bytes + error;
  ds_Put : D -> Key -> bytes -> D * option error
}.

(** [ds.MapDatastore] (under [dssync.MutexWrap]): an in-memory map.
    [Get] of a missing key is [ds.ErrNotFound]; [Put] cannot fail. *)
Abbreviation MapDatastore := (gmap Key bytes).

Definition NewMapDatastore : MapDatastore := ∅.

#[global] Instance MapDatastore_Datastore : Datastore MapDatastore := {
  ds_Get d k := match d !! k with Some v => inl v | None => inr ds_ErrNotFound end;
  ds_Put d k v := (<[k := v]> d, None)
}.

Definition Subscription := nat.

(** A [context.Context]: one handed in by a caller, or one made by
    [context.WithCancel]. *)
Inductive Context := ctx_caller (n : nat) | ctx_derived (id : nat).

#[global] Instance Context_eq_dec : EqDecision Context.
Proof. solve_decision. Defined.

#[global] Instance Context_countable : Countable Context.
Proof.
  refine (inj_countable'
            (fun c => match c with ctx_caller n => inl n | ctx_derived n => inr n end)
            (fun x => match x with inl n => ctx_caller n | inr n => ctx_derived n end) _).
  intros []; reflexivity.
Defined.
Definition Chan := nat.
Definition WatchGroupPtr := nat.

Inductive RWMutex := RWFree | RWWriter | RWReaders (n : nat).

(** A buffered channel of byte slices. *)
Record Channel := {
  buf : list bytes;
  cap : nat;
  closed : bool
}.

(** [watchGroup]; [closing] is true once the channel is closed. *)
Record watchGroup := {
  lk : RWMutex;
  closing : bool;
  listeners : gmap Chan Context
}.

(** Calls on collaborators and goroutine launches, as they are logged. *)
Inductive Event :=
| EvValidate (key : string) (val : bytes)
| EvSelect (key : string) (vals : list bytes)
| EvBootstrap (key : string) (background : bool)
| EvPublish (key : string) (value : bytes)
| EvRegisterTopicValidator (key : string)
| EvSubscribe (key : string) (res : Subscription + error)
| EvSubCancel (sub : Subscription)
| EvGoHandleSubscription (sub : Subscription) (key : string)
| EvPut (key : string) (data : bytes)
| EvWarning (msg : string).

#[global] Instance Event_eq_dec : EqDecision Event.
Proof. solve_decision. Defined.

(** Collaborators that the store only passes on. *)
Definition Host := nat.
Definition ContentRouting := nat.
Definition PubSub := nat.

(** The goroutine started by [watchGroup.add]: not yet started, waiting
    in its loop with its own context, or returned. *)
Inductive RelayPc := RelayNew | RelayRunning (ctx : Context) | RelayDone.

Record Relay := {
  r_wg : WatchGroupPtr;
  r_ctx : Context;
  r_outCh : Chan;
  r_proxy : Chan;
  r_pc : RelayPc
}.

Section Model.

Context {D : Type} `{Datastore D}.

(** ** The store and the world around it *)

Record PubsubValueStore := {
  ctx : Context;
  ds : D;
  host : Host;
  cr : ContentRouting;
  ps : PubSub;
  mx : bool;
  subs : gmap string (option Subscription);
  watchLk : RWMutex;
  watching : gmap string WatchGroupPtr;
  Validator : record_Validator
}.

Record World := {
  store : PubsubValueStore;
  wgs : gmap WatchGroupPtr watchGroup;
  chans : gmap Chan Channel;
  ctx_parent : gmap Context Context;
  ctx_done : gset Context;
  relays : list Relay;
  next : nat;
  log : list Event
}.

Definition set_ds (d : D) (p : PubsubValueStore) : PubsubValueStore :=
  {| ctx := ctx p; ds := d; host := host p; cr := cr p; ps := ps p;
     mx := mx p; subs := subs p; watchLk := watchLk p;
     watching := watching p; Validator := Validator p |}.

Definition set_mx (b : bool) (p : PubsubValueStore) : PubsubValueStore :=
  {| ctx := ctx p; ds := ds p; host := host p; cr := cr p; ps := ps p;
     mx := b; subs := subs p; watchLk := watchLk p;
     watching := watching p; Validator := Validator p |}.

Definition set_subs (m : gmap string (option Subscription))
    (p : PubsubValueStore) : PubsubValueStore :=
  {| ctx := ctx p; ds := ds p; host := host p; cr := cr p; ps := ps p;
     mx := mx p; subs := m; watchLk := watchLk p;
     watching := watching p; Validator := Validator p |}.

Definition set_watchLk (l : RWMutex) (p : PubsubValueStore) : PubsubValueStore :=
  {| ctx := ctx p; ds := ds p; host := host p; cr := cr p; ps := ps p;
     mx := mx p; subs := subs p; watchLk := l;
     watching := watching p; Validator := Validator p |}.

Definition set_watching (m : gmap string WatchGroupPtr)
    (p : PubsubValueStore) : PubsubValueStore :=
  {| ctx := ctx p; ds := ds p; host := host p; cr := cr p; ps := ps p;
     mx := mx p; subs := subs p; watchLk := watchLk p;
     watching := m; Validator := Validator p |}.

Definition on_store (f : PubsubValueStore -> PubsubValueStore) (w : World) : World :=
  {| store := f (store w); wgs := wgs w; chans := chans w;
     ctx_parent := ctx_parent w; ctx_done := ctx_done w;
     relays := relays w; next := next w; log := log w |}.

Definition set_wgs (m : gmap WatchGroupPtr watchGroup) (w : World) : World :=
  {| store := store w; wgs := m; chans := chans w;
     ctx_parent := ctx_parent w; ctx_done := ctx_done w;
     relays := relays w; next := next w; log := log w |}.

Definition set_chans (m : gmap Chan Channel) (w : World) : World :=
  {| store := store w; wgs := wgs w; chans := m;
     ctx_parent := ctx_parent w; ctx_done := ctx_done w;
     relays := relays w; next := next w; log := log w |}.

Definition set_ctx_parent (m : gmap Context Context) (w : World) : World :=
  {| store := store w; wgs := wgs w; chans := chans w;
     ctx_parent := m; ctx_done := ctx_done w;
     relays := relays w; next := next w; log := log w |}.

Definition set_ctx_done (s : gset Context) (w : World) : World :=
  {| store := store w; wgs := wgs w; chans := chans w;
     ctx_parent := ctx_parent w; ctx_done := s;
     relays := relays w; next := next w; log := log w |}.

Definition set_relays (l : list Relay) (w : World) : World :=
  {| store := store w; wgs := wgs w; chans := chans w;
     ctx_parent := ctx_parent w; ctx_done := ctx_done w;
     relays := l; next := next w; log := log w |}.

Definition set_next (n : nat) (w : World) : World :=
  {| store := store w; wgs := wgs w; chans := chans w;
     ctx_parent := ctx_parent w; ctx_done := ctx_done w;
     relays := relays w; next := n; log := log w |}.

Definition set_log (l : list Event) (w : World) : World :=
  {| store := store w; wgs := wgs w; chans := chans w;
     ctx_parent := ctx_parent w; ctx_done := ctx_done w;
     relays := relays w; next := next w; log := l |}.

(** ** Outcomes and the monad of the model

    A call returns ([Ret]), dies with a Go runtime fatal error
    ([Fatal], no deferred call runs), panics ([Panic], deferred calls
    run), or cannot go on until another goroutine acts ([Blocked]). *)
Inductive Result (A : Type) :=
| Ret (a : A) (w : World)
| Fatal (msg : string) (w : World)
| Panic (msg : string) (w : World)
| Blocked (w : World).

Arguments Ret {A} a w.
Arguments Fatal {A} msg w.
Arguments Panic {A} msg w.
Arguments Blocked {A} w.

Definition M (A : Type) : Type := World -> Result A.

#[local] Instance M_ret : MRet M := fun A a w => Ret a w.

#[local] Instance M_bind : MBind M := fun A B f m w =>
  match m w with
  | Ret a w' => f a w'
  | Fatal msg w' => Fatal msg w'
  | Panic msg w' => Panic msg w'
  | Blocked w' => Blocked w'
  end.

(** The world a call leaves behind, and the value it returns if it does. *)
Definition world_of {A} (r : Result A) : World :=
  match r with
  | Ret _ w | Fatal _ w | Panic _ w | Blocked w => w
  end.

Definition value_of {A} (r : Result A) : option A :=
  match r with
  | Ret a _ => Some a
  | _ => None
  end.

Definition is_blocked {A} (r : Result A) : bool :=
  match r with
  | Blocked _ => true
  | _ => false
  end.

Definition get : M World := fun w => Ret w w.
Definition modify (f : World -> World) : M unit := fun w => Ret tt (f w).
Definition fatal {A} (msg : string) : M A := fun w => Fatal msg w.
Definition panic {A} (msg : string) : M A := fun w => Panic msg w.
Definition block {A} : M A := fun w => Blocked w.
Definition emit (e : Event) : M unit := modify (fun w => set_log (e :: log w) w).
Definition fresh : M nat := fun w => Ret (next w) (set_next (S (next w)) w).

(** [defer d] around [body]: [d] runs when [body] returns or panics. *)
Definition defer {A} (d : M unit) (body : M A) : M A := fun w =>
  match body w with
  | Ret a w' => (d ;; mret a) w'
  | Panic msg w' => (d ;; panic msg) w'
  | r => r
  end.

(** ** Locks *)

Definition mx_Lock : M unit := fun w =>
  if mx (store w) then Blocked w else Ret tt (on_store (set_mx true) w).

Definition mx_Unlock : M unit := fun w =>
  if mx (store w) then Ret tt (on_store (set_mx false) w)
  else Fatal "sync: unlock of unlocked mutex" w.

Definition rw_Lock (l : RWMutex) : option RWMutex :=
  match l with RWFree => Some RWWriter | _ => None end.

Definition rw_RLock (l : RWMutex) : option RWMutex :=
  match l with
  | RWFree => Some (RWReaders 1)
  | RWReaders n => Some (RWReaders (S n))
  | RWWriter => None
  end.

Definition rw_Unlock (l : RWMutex) : option RWMutex :=
  match l with RWWriter => Some RWFree | _ => None end.

Definition rw_RUnlock (l : RWMutex) : option RWMutex :=
  match l with
  | RWReaders 1 => Some RWFree
  | RWReaders (S (S n)) => Some (RWReaders (S n))
  | _ => None
  end.

Definition watchLk_Lock : M unit := fun w =>
  match rw_Lock (watchLk (store w)) with
  | Some l => Ret tt (on_store (set_watchLk l) w)
  | None => Blocked w
  end.

Definition watchLk_Unlock : M unit := fun w =>
  match rw_Unlock (watchLk (store w)) with
  | Some l => Ret tt (on_store (set_watchLk l) w)
  | None => Fatal "sync: Unlock of unlocked RWMutex" w
  end.

Definition watchLk_RLock : M unit := fun w =>
  match rw_RLock (watchLk (store w)) with
  | Some l => Ret tt (on_store (set_watchLk l) w)
  | None => Blocked w
  end.

Definition watchLk_RUnlock : M unit := fun w =>
  match rw_RUnlock (watchLk (store w)) with
  | Some l => Ret tt (on_store (set_watchLk l) w)
  | None => Fatal "sync: RUnlock of unlocked RWMutex" w
  end.

(** ** The local cache and the conflict resolver *)

Definition call_Validate (key : string) (val : bytes) : M (option error) :=
  w ← get;
  emit (EvValidate key val);;
  mret (Validate (Validator (store w)) key val).

Definition call_Select (key : string) (vals : list bytes) : M (Z * option error) :=
  w ← get;
  emit (EvSelect key vals);;
  mret (Select (Validator (store w)) key vals).

(** [getLocal], lines 155-170.  The result is Go's pair [(val, err)]:
    [inl val] when [err] is nil. *)
Definition getLocal (key : string) : M (bytes + error) :=
  w ← get;
  match ds_Get (ds (store w)) (NewKeyFromBinary key) with
  | inr err =>
      mret (inr (if decide (err = ds_ErrNotFound) then routing_ErrNotFound else err))
  | inl val =>
      e ← call_Validate key val;
      match e with
      | Some err => mret (inr err)
      | None => mret (inl val)
      end
  end.

(** [isBetter], lines 89-107. *)
Definition isBetter (key : string) (val : bytes) : M bool :=
  e ← call_Validate key val;
  match e with
  | Some _ => mret false
  | None =>
      r ← getLocal key;
      match r with
      | inr _ => mret true
      | inl old =>
          if bytes_Equal old val then mret true
          else
            r ← call_Select key [val; old];
            mret (bool_decide (r.2 = None) && (r.1 =? 0)%Z)
      end
  end.

(** ** Collaborators *)

(** [bootstrapPubsub], lines 291-344.  It announces the rendezvous of
    [key] to content routing and connects to the providers it finds; all
    of its effects are on the collaborators [cr] and [host].  The model
    records that it ran, and whether as a goroutine. *)
Definition bootstrapPubsub (key : string) (background : bool) : M unit :=
  emit (EvBootstrap key background).

(** [ps.Publish]; [res] is what the transport answers. *)
Definition ps_Publish (key : string) (value : bytes) (res : option error)
    : M (option error) :=
  emit (EvPublish key value);;
  mret res.

Definition ps_RegisterTopicValidator (key : string) : M unit :=
  emit (EvRegisterTopicValidator key).

(** [ps.Subscribe]; [res] is the transport's error, [None] when it
    succeeds and hands out a new subscription. *)
Definition ps_Subscribe (key : string) (res : option error)
    : M (Subscription + error) :=
  match res with
  | Some err => emit (EvSubscribe key (inr err));; mret (inr err)
  | None =>
      sub ← fresh;
      emit (EvSubscribe key (inl sub));;
      mret (inl sub)
  end.

(** [Cancel] of a floodsub [Subscription] writes the receiver to its
    [cancelCh] field.  On a nil receiver that field access is a nil
    pointer dereference; [nil_ok] stands for a library in which a nil
    receiver would be tolerated instead. *)
Definition sub_Cancel_with (nil_ok : bool) (sub : option Subscription) : M unit :=
  match sub with
  | Some s => emit (EvSubCancel s)
  | None =>
      if nil_ok then mret tt
      else panic "invalid memory address or nil pointer dereference"
  end.

Definition sub_Cancel : option Subscription -> M unit := sub_Cancel_with false.

(** [context.WithCancel] and the [cancel] function it returns. *)
Definition context_WithCancel (parent : Context) : M Context :=
  n ← fresh;
  let c := ctx_derived n in
  modify (fun w => set_ctx_parent (<[c := parent]> (ctx_parent w)) w);;
  mret c.

Definition context_cancel (c : Context) : M unit :=
  modify (fun w => set_ctx_done ({[c]} ∪ ctx_done w) w).

(** Whether [<-c.Done()] is ready: [c] or its parent was cancelled. *)
Definition ctx_Done (w : World) (c : Context) : bool :=
  bool_decide (c ∈ ctx_done w)
  || match ctx_parent w !! c with
     | Some p => bool_decide (p ∈ ctx_done w)
     | None => false
     end.

(** ** PutValue and Subscribe *)

(** [PutValue], lines 72-87. *)
Definition PutValue (key : string) (value : bytes) (res : option error)
    : M (option error) :=
  mx_Lock;;
  w ← get;
  let bootstraped := bool_decide (is_Some (subs (store w) !! key)) in
  (if negb bootstraped then
     modify (on_store (fun p => set_subs (<[key := None]> (subs p)) p));;
     mx_Unlock;;
     bootstrapPubsub key false
   else
     mx_Unlock);;
  ps_Publish key value res.

(** [Subscribe], lines 110-113: the first look at [p.subs[key]]; a
    missing key reads as nil. *)
Definition Subscribe_lookup (key : string) : M (option Subscription) :=
  mx_Lock;;
  w ← get;
  let sub := default None (subs (store w) !! key) in
  mx_Unlock;;
  mret sub.

(** Lines 123-127. *)
Definition Subscribe_connect (key : string) (res : option error)
    : M (Subscription + error) :=
  ps_RegisterTopicValidator key;;
  ps_Subscribe key res.

(** Lines 128-131, the error branch. *)
Definition Subscribe_failed (err : error) : M (option error) :=
  mx_Unlock;;
  mret (Some err).

(** What the second look decided. *)
Inductive Installed :=
| Lost
| Won (ctx : Context) (bootstraped : bool).

(** Lines 133-144, the second look under the lock: either another
    caller has installed a subscription, or [sub] is installed and its
    message loop started. *)
Definition Subscribe_install (key : string) (sub : Subscription) : M Installed :=
  mx_Lock;;
  w ← get;
  let existingSub := default None (subs (store w) !! key) in
  let bootstraped := bool_decide (is_Some (subs (store w) !! key)) in
  match existingSub with
  | Some _ =>
      mx_Unlock;;
      mret Lost
  | None =>
      modify (on_store (fun p => set_subs (<[key := Some sub]> (subs p)) p));;
      c ← context_WithCancel (ctx (store w));
      emit (EvGoHandleSubscription sub key);;
      mx_Unlock;;
      mret (Won c bootstraped)
  end.

(** Lines 137-138 for the caller that lost, lines 146-152 for the one
    that won. *)
Definition Subscribe_finish (key : string) (sub : Subscription) (i : Installed)
    : M (option error) :=
  match i with
  | Lost =>
      sub_Cancel (Some sub);;
      mret None
  | Won c bootstraped =>
      (if negb bootstraped then bootstrapPubsub key true else mret tt);;
      mret None
  end.

(** [Subscribe], lines 109-153. *)
Definition Subscribe (key : string) (res : option error) : M (option error) :=
  sub ← Subscribe_lookup key;
  match sub with
  | Some _ => mret None
  | None =>
      r ← Subscribe_connect key res;
      match r with
      | inr err => Subscribe_failed err
      | inl sub =>
          i ← Subscribe_install key sub;
          Subscribe_finish key sub i
      end
  end.

(** [GetValue], lines 172-178. *)
Definition GetValue (key : string) (res : option error) : M (bytes + error) :=
  e ← Subscribe key res;
  match e with
  | Some err => mret (inr err)
  | None => getLocal key
  end.

(** [GetSubscriptions], lines 213-223; Go ranges over the map in no
    particular order. *)
Definition GetSubscriptions : M (list string) :=
  mx_Lock;;
  defer mx_Unlock (
    w ← get;
    mret (elements (dom (subs (store w))))).

(** ** Channels *)

Definition make_chan (n : nat) : M Chan :=
  c ← fresh;
  modify (fun w => set_chans (<[c := {| buf := []; cap := n; closed := false |}]> (chans w)) w);;
  mret c.

(** Whether a send, or a receive, on [c] can proceed now. *)
Definition can_send (w : World) (c : Chan) : bool :=
  match chans w !! c with
  | Some ch => closed ch || bool_decide (length (buf ch) < cap ch)
  | None => false
  end.

Definition can_recv (w : World) (c : Chan) : bool :=
  match chans w !! c with
  | Some ch => closed ch || bool_decide (buf ch ≠ [])
  | None => false
  end.

(** [c <- v]: waits while the buffer is full. *)
Definition chan_send (c : Chan) (v : bytes) : M unit := fun w =>
  match chans w !! c with
  | None => Blocked w
  | Some ch =>
      if closed ch then Panic "send on closed channel" w
      else if bool_decide (length (buf ch) < cap ch) then
        Ret tt (set_chans (<[c := {| buf := buf ch ++ [v]; cap := cap ch;
                                     closed := false |}]> (chans w)) w)
      else Blocked w
  end.

(** [v, ok := <-c]: [None] is the zero value of a closed, drained channel. *)
Definition chan_recv (c : Chan) : M (option bytes) := fun w =>
  match chans w !! c with
  | None => Blocked w
  | Some ch =>
      match buf ch with
      | v :: rest =>
          Ret (Some v) (set_chans (<[c := {| buf := rest; cap := cap ch;
                                             closed := closed ch |}]> (chans w)) w)
      | [] => if closed ch then Ret None w else Blocked w
      end
  end.

Definition chan_close (c : Chan) : M unit := fun w =>
  match chans w !! c with
  | None => Panic "close of nil channel" w
  | Some ch =>
      if closed ch then Panic "close of closed channel" w
      else Ret tt (set_chans (<[c := {| buf := buf ch; cap := cap ch;
                                        closed := true |}]> (chans w)) w)
  end.

(** ** Watch groups *)

Definition wg_get (ptr : WatchGroupPtr) : M watchGroup := fun w =>
  match wgs w !! ptr with
  | Some g => Ret g w
  | None => Panic "invalid memory address or nil pointer dereference" w
  end.

Definition wg_put (ptr : WatchGroupPtr) (g : watchGroup) : M unit :=
  modify (fun w => set_wgs (<[ptr := g]> (wgs w)) w).

Definition set_lk (l : RWMutex) (g : watchGroup) : watchGroup :=
  {| lk := l; closing := closing g; listeners := listeners g |}.

Definition set_listeners (m : gmap Chan Context) (g : watchGroup) : watchGroup :=
  {| lk := lk g; closing := closing g; listeners := m |}.

(** A lock operation [op] on [wg.lk]; [msg] is the runtime's fatal
    error when it is an unlock of a lock that is not held. *)
Definition wg_lk (op : RWMutex -> option RWMutex) (msg : option string)
    (ptr : WatchGroupPtr) : M unit :=
  g ← wg_get ptr;
  match op (lk g), msg with
  | Some l, _ => wg_put ptr (set_lk l g)
  | None, None => block
  | None, Some m => fatal m
  end.

Definition wg_lk_Lock := wg_lk rw_Lock None.
Definition wg_lk_Unlock := wg_lk rw_Unlock (Some "sync: Unlock of unlocked RWMutex").
Definition wg_lk_RLock := wg_lk rw_RLock None.
Definition wg_lk_RUnlock := wg_lk rw_RUnlock (Some "sync: RUnlock of unlocked RWMutex").

(** [close(wg.closing)]. *)
Definition wg_close_closing (ptr : WatchGroupPtr) : M unit :=
  g ← wg_get ptr;
  if closing g then panic "close of closed channel"
  else wg_put ptr {| lk := lk g; closing := true; listeners := listeners g |}.

(** [watchGroup.add], lines 346-384: makes the proxy channel and starts
    the relay goroutine.  The goroutine's own steps are [relay_start],
    [relay_loop] and [relay_exit]. *)
Definition watchGroup_add (ptr : WatchGroupPtr) (c : Context) (outCh : Chan) : M unit :=
  proxy ← make_chan 1;
  modify (fun w => set_relays (relays w ++
    [{| r_wg := ptr; r_ctx := c; r_outCh := outCh; r_proxy := proxy;
        r_pc := RelayNew |}]) w).

Definition set_pc (pc : RelayPc) (r : Relay) : Relay :=
  {| r_wg := r_wg r; r_ctx := r_ctx r; r_outCh := r_outCh r;
     r_proxy := r_proxy r; r_pc := pc |}.

Definition relay_set_pc (i : nat) (pc : RelayPc) : M unit :=
  modify (fun w => set_relays (alter (set_pc pc) i (relays w)) w).

(** Lines 350-351, the first statements of the goroutine: it derives
    its context and enters [outCh] in [wg.listeners], holding no lock. *)
Definition relay_start (i : nat) : M unit :=
  w ← get;
  match relays w !! i with
  | Some r =>
      match r_pc r with
      | RelayNew =>
          c ← context_WithCancel (r_ctx r);
          g ← wg_get (r_wg r);
          wg_put (r_wg r) (set_listeners (<[r_outCh r := c]> (listeners g)) g);;
          relay_set_pc i (RelayRunning c)
      | _ => block
      end
  | None => block
  end.

(** Lines 353-362, the deferred function that runs when the goroutine
    returns. *)
Definition relay_exit (i : nat) (r : Relay) (c : Context) : M unit :=
  context_cancel c;;
  wg_lk_Lock (r_wg r);;
  g ← wg_get (r_wg r);
  wg_put (r_wg r) (set_listeners (delete (r_outCh r) (listeners g)) g);;
  wg_lk_Unlock (r_wg r);;
  chan_close (r_outCh r);;
  relay_set_pc i RelayDone.

(** The cases of the goroutine's [select], lines 365-381. *)
Inductive RelayCase := CaseProxy | CaseClosing | CaseCtxDone.

Definition relay_ready (w : World) (r : Relay) (c : Context) : list RelayCase :=
  (if can_recv w (r_proxy r) then [CaseProxy] else [])
  ++ (if default false (closing <$> wgs w !! r_wg r) then [CaseClosing] else [])
  ++ (if ctx_Done w c then [CaseCtxDone] else []).

(** Lines 372-376, the inner [select]: put [val] into [outCh], or take
    the pending value out first.  [pick] chooses when both can proceed. *)
Definition relay_forward (outCh : Chan) (val : bytes) (pick : nat) : M unit :=
  w ← get;
  match can_send w outCh, can_recv w outCh with
  | false, false => block
  | true, false => chan_send outCh val
  | false, true => chan_recv outCh;; chan_send outCh val
  | true, true =>
      if Nat.even pick then chan_send outCh val
      else chan_recv outCh;; chan_send outCh val
  end.

(** One turn of the goroutine's loop, lines 364-382.  It waits while no
    case is ready; [pick] chooses among the ready ones, as Go's [select]
    does at random. *)
Definition relay_loop (i : nat) (pick : nat) : M unit :=
  w ← get;
  match relays w !! i with
  | Some r =>
      match r_pc r with
      | RelayRunning c =>
          let cases := relay_ready w r c in
          match cases !! (pick `mod` length cases) with
          | None => block
          | Some CaseProxy =>
              v ← chan_recv (r_proxy r);
              match v with
              | None => relay_exit i r c
              | Some val => relay_forward (r_outCh r) val pick
              end
          | Some CaseClosing => relay_exit i r c
          | Some CaseCtxDone => relay_exit i r c
          end
      | _ => block
      end
  | None => block
  end.

(** ** SearchValue *)

(** Lines 185-196: find or make the key's watch group and lock it for
    writing. *)
Definition SearchValue_group (key : string) : M WatchGroupPtr :=
  watchLk_Lock;;
  w ← get;
  ptr ← match watching (store w) !! key with
        | Some ptr => mret ptr
        | None =>
            ptr ← fresh;
            wg_put ptr {| lk := RWFree; closing := false; listeners := ∅ |};;
            modify (on_store (fun p => set_watching (<[key := ptr]> (watching p)) p));;
            mret ptr
        end;
  wg_lk_Lock ptr;;
  watchLk_Unlock;;
  mret ptr.

(** Lines 198-202: the output channel, seeded with the cached value. *)
Definition SearchValue_seed (key : string) : M Chan :=
  out ← make_chan 1;
  lv ← getLocal key;
  match lv with
  | inl v => chan_send out v
  | inr _ => mret tt
  end;;
  mret out.

(** Lines 204-207. *)
Definition SearchValue_join (ptr : WatchGroupPtr) (c : Context) (out : Chan) : M unit :=
  watchLk_Lock;;
  watchGroup_add ptr c out;;
  watchLk_Unlock;;
  wg_lk_Unlock ptr.

(** [SearchValue], lines 180-210. *)
Definition SearchValue (c : Context) (key : string) (res : option error)
    : M (Chan + error) :=
  e ← Subscribe key res;
  match e with
  | Some err => mret (inr err)
  | None =>
      ptr ← SearchValue_group key;
      out ← SearchValue_seed key;
      SearchValue_join ptr c out;;
      mret (inl out)
  end.

(** ** Cancel *)

(** [Cancel], lines 227-245. *)
Definition Cancel_with (nil_ok : bool) (name : string) : M bool :=
  mx_Lock;;
  defer mx_Unlock (
    w ← get;
    let e := subs (store w) !! name in
    match e with
    | Some sub =>
        sub_Cancel_with nil_ok sub;;
        modify (on_store (fun p => set_subs (delete name (subs p)) p))
    | None => mret tt
    end;;
    watchLk_Lock;;
    w ← get;
    match watching (store w) !! name with
    | Some ptr =>
        wg_close_closing ptr;;
        modify (on_store (fun p => set_watching (delete name (watching p)) p))
    | None => mret tt
    end;;
    watchLk_Unlock;;
    mret (bool_decide (is_Some e))).

Definition Cancel : string -> M bool := Cancel_with false.

(** ** Delivery to watchers *)

(** The cases of the [select] in [notifyWatchers], lines 279-284.  The
    [break] of line 282 leaves the [select] only, so after any case the
    loop goes on to the next listener. *)
Inductive NotifyCase := CaseSend | CaseGroupClosing | CaseListenerDone.

Definition notify_ready (w : World) (ptr : WatchGroupPtr) (watcher : Chan)
    (c : Context) : list NotifyCase :=
  (if can_send w watcher then [CaseSend] else [])
  ++ (if default false (closing <$> wgs w !! ptr) then [CaseGroupClosing] else [])
  ++ (if ctx_Done w c then [CaseListenerDone] else []).

(** The body of the loop for one listener: the producer waits while no
    case is ready. *)
Definition notify_one (ptr : WatchGroupPtr) (data : bytes) (pick : Chan -> nat)
    (l : Chan * Context) : M unit :=
  w ← get;
  let cases := notify_ready w ptr l.1 l.2 in
  match cases !! (pick l.1 `mod` length cases) with
  | None => block
  | Some CaseSend => chan_send l.1 data
  | Some _ => mret tt
  end.

Fixpoint notify_each (ptr : WatchGroupPtr) (data : bytes) (pick : Chan -> nat)
    (ls : list (Chan * Context)) : M unit :=
  match ls with
  | [] => mret tt
  | l :: rest => notify_one ptr data pick l;; notify_each ptr data pick rest
  end.

(** [notifyWatchers], lines 269-287.  Go ranges over [sg.listeners] in
    no particular order; the model takes the order of [map_to_list]. *)
Definition notifyWatchers (key : string) (data : bytes) (pick : Chan -> nat) : M unit :=
  watchLk_RLock;;
  w ← get;
  let sg := watching (store w) !! key in
  watchLk_RUnlock;;
  match sg with
  | None => mret tt
  | Some ptr =>
      wg_lk_RLock ptr;;
      g ← wg_get ptr;
      notify_each ptr data pick (map_to_list (listeners g));;
      wg_lk_RUnlock ptr
  end.

(** ** The message loop *)

(** [p.ds.Put], line 260. *)
Definition ds_Put_local (key : string) (data : bytes) : M (option error) :=
  w ← get;
  let r := ds_Put (ds (store w)) (NewKeyFromBinary key) data in
  emit (EvPut key data);;
  modify (on_store (set_ds r.1));;
  mret r.2.

(** Lines 259-263: the verdict on one message and, when it is better,
    the write to the cache.  No lock is held on return. *)
Definition handleMessage_store (key : string) (data : bytes) : M bool :=
  b ← isBetter key data;
  if b : bool then
    err ← ds_Put_local key data;
    match err with
    | Some _ => emit (EvWarning "PubsubResolve: error writing update")
    | None => mret tt
    end;;
    mret true
  else mret false.

(** Lines 259-265: what the loop does with one message. *)
Definition handleMessage (key : string) (data : bytes) (pick : Chan -> nat) : M unit :=
  b ← handleMessage_store key data;
  if b : bool then notifyWatchers key data pick else mret tt.

(** [handleSubscription], lines 247-267, run on the results [msgs] of
    the successive [sub.Next] calls; it waits when they are used up.  On
    an error the two deferred calls run, [cancel] first. *)
Fixpoint handleSubscription (sub : Subscription) (key : string) (cancel : Context)
    (pick : Chan -> nat) (msgs : list (bytes + error)) : M unit :=
  match msgs with
  | [] => block
  | inr err :: _ =>
      (if decide (err = context_Canceled) then mret tt
       else emit (EvWarning "PubsubResolve: subscription error"));;
      context_cancel cancel;;
      sub_Cancel (Some sub)
  | inl data :: rest =>
      handleMessage key data pick;;
      handleSubscription sub key cancel pick rest
  end.

(** ** Sequences of calls *)

(** A call of [PutValue] or [Subscribe] with the transport's answer. *)
Inductive Op :=
| OpPutValue (key : string) (value : bytes) (res : option error)
| OpSubscribe (key : string) (res : option error).

Definition op_key (op : Op) : string :=
  match op with
  | OpPutValue key _ _ => key
  | OpSubscribe key _ => key
  end.

Definition run_op (op : Op) : M (option error) :=
  match op with
  | OpPutValue key value res => PutValue key value res
  | OpSubscribe key res => Subscribe key res
  end.

(** The calls of [ops] one after the other; a call that does not return
    ends the run. *)
Fixpoint run_ops (ops : list Op) : M unit :=
  match ops with
  | [] => mret tt
  | op :: rest => run_op op;; run_ops rest
  end.

(** How often [bootstrapPubsub] ran for [key]. *)
Definition is_bootstrap (key : string) (e : Event) : bool :=
  match e with
  | EvBootstrap k _ => bool_decide (k = key)
  | _ => false
  end.

Definition bootstraps (key : string) (l : list Event) : nat :=
  length (filter (fun e => is_bootstrap key e = true) l).

(** Whether [p.subs] has an entry for [key]. *)
Definition touched (key : string) (w : World) : bool :=
  bool_decide (is_Some (subs (store w) !! key)).

(** ** Schedules of the watch path

    The steps that goroutines take around a watch group, at the grain at
    which other goroutines can run in between: no lock is held between
    two steps of one goroutine. *)
Inductive Action :=
| ActStore (key : string) (data : bytes)
| ActNotify (key : string) (data : bytes) (pick : Chan -> nat)
| ActSubscribe (key : string) (res : option error)
| ActSearchValue (c : Context) (key : string) (res : option error)
| ActRelayStart (i : nat)
| ActRelayLoop (i : nat) (pick : nat)
| ActRecv (c : Chan).

(** One step; its result is the value a listener read, if the step is a
    read that found one. *)
Definition exec (a : Action) : M (option bytes) :=
  match a with
  | ActStore key data => handleMessage_store key data;; mret None
  | ActNotify key data pick => notifyWatchers key data pick;; mret None
  | ActSubscribe key res => Subscribe key res;; mret None
  | ActSearchValue c key res => SearchValue c key res;; mret None
  | ActRelayStart i => relay_start i;; mret None
  | ActRelayLoop i pick => relay_loop i pick;; mret None
  | ActRecv c => chan_recv c
  end.

(** Runs a schedule and collects, in order, the values that were read. *)
Fixpoint run_schedule (sched : list Action) (seen : list bytes) : M (list bytes) :=
  match sched with
  | [] => mret seen
  | a :: rest =>
      v ← exec a;
      run_schedule rest (seen ++ option_list v)
  end.

(** The values written to the cache of [key], oldest first. *)
Definition puts (key : string) (l : list Event) : list bytes :=
  omap (fun e => match e with
                 | EvPut k data => if decide (k = key) then Some data else None
                 | _ => None
                 end) (reverse l).

(** ** Concurrent callers of Subscribe

    Each caller of [Subscribe] goes through the critical sections of
    the function one at a time; sections of different callers interleave
    in any order.  A section runs as one step, since [p.mx] keeps the
    others out of [p.subs] while it runs. *)
Inductive Role :=
| Early
| Winner (sub : Subscription)
| Loser (sub : Subscription).

Inductive CallerPc :=
| AtLookup
| AtConnect
| AtInstall (sub : Subscription)
| AtFinish (sub : Subscription) (i : Installed)
| Returned (e : option error) (role : Role).

Definition role_of (sub : Subscription) (i : Installed) : Role :=
  match i with
  | Lost => Loser sub
  | Won _ _ => Winner sub
  end.

(** The next section of a caller of [Subscribe key] whose own call of
    [ps.Subscribe] succeeds. *)
Definition caller_step (key : string) (pc : CallerPc) : M CallerPc :=
  match pc with
  | AtLookup =>
      sub ← Subscribe_lookup key;
      match sub with
      | Some _ => mret (Returned None Early)
      | None => mret AtConnect
      end
  | AtConnect =>
      r ← Subscribe_connect key None;
      match r with
      | inr err => e ← Subscribe_failed err; mret (Returned e Early)
      | inl sub => mret (AtInstall sub)
      end
  | AtInstall sub =>
      i ← Subscribe_install key sub;
      mret (AtFinish sub i)
  | AtFinish sub i =>
      e ← Subscribe_finish key sub i;
      mret (Returned e (role_of sub i))
  | Returned _ _ => block
  end.

(** A caller run alone for at most [fuel] sections. *)
Fixpoint caller_run (fuel : nat) (key : string) (pc : CallerPc) : M (option error) :=
  match pc, fuel with
  | Returned e _, _ => mret e
  | _, 0 => block
  | _, S fuel' => pc' ← caller_step key pc; caller_run fuel' key pc'
  end.

Record System := {
  world : World;
  callers : list CallerPc
}.


(** The callers named in [sched] run one section each, in that order;
    [None] if one of them cannot. *)
Fixpoint run_callers (key : string) (sched : list nat) (s : System) : option System :=
  match sched with
  | [] => Some s
  | i :: rest =>
      match callers s !! i with
      | Some pc =>
          match caller_step key pc (world s) with
          | Ret pc' w' =>
              run_callers key rest {| world := w'; callers := <[i := pc']> (callers s) |}
          | _ => None
          end
      | None => None
      end
  end.

(** [n] callers about to enter [Subscribe]. *)
Definition init_system (w : World) (n : nat) : System :=
  {| world := w; callers := replicate n AtLookup |}.




(** The subscription in [p.subs[key]]; nil when the key has no entry. *)
Definition entry (key : string) (w : World) : option Subscription :=
  default None (subs (store w) !! key).

(** The message loops started for [key] and the subscriptions
    cancelled, as logged; newest first. *)
Definition tasks (key : string) (l : list Event) : list Subscription :=
  omap (fun e => match e with
                 | EvGoHandleSubscription sub k => if decide (k = key) then Some sub else None
                 | _ => None
                 end) l.

Definition cancels (l : list Event) : list Subscription :=
  omap (fun e => match e with EvSubCancel sub => Some sub | _ => None end) l.

End Model.

Arguments PubsubValueStore D : clear implicits.
Arguments World D : clear implicits.
Arguments Result D A : clear implicits.
Arguments M D A : clear implicits.
Arguments Ret {D A} a w.
Arguments Fatal {D A} msg w.
Arguments Panic {D A} msg w.
Arguments Blocked {D A} w.
Arguments is_blocked {D A} r.
Arguments System D : clear implicits.
Arguments world {D} s.
Arguments callers {D} s.

(** [NewPubsubValueStore], lines 55-69: whatever it is given, the cache
    is a new, empty map datastore. *)
Definition NewPubsubValueStore (c : Context) (h : Host) (r : ContentRouting)
    (p : PubSub) (validator : record_Validator) : PubsubValueStore MapDatastore :=
  {| ctx := c;
     ds := NewMapDatastore;
     host := h;
     cr := r;
     ps := p;
     mx := false;
     subs := ∅;
     watchLk := RWFree;
     watching := ∅;
     Validator := validator |}.

(** The world of a store on which nothing has run yet. *)
Definition new_world {D} (p : PubsubValueStore D) : World D :=
  {| store := p; wgs := ∅; chans := ∅; ctx_parent := ∅; ctx_done := ∅;
     relays := []; next := 0; log := [] |}.

(** ** Notions used in the statements *)

Section Notions.

Context {D : Type} `{Datastore D}.

Implicit Types (w : World D) (key : string).

(** What [getLocal] returns, as a function of the backend's answer and
    the validator's verdict. *)
Definition getLocal_result w key : bytes + error :=
  match ds_Get (ds (store w)) (NewKeyFromBinary key) with
  | inr err => inr (if decide (err = ds_ErrNotFound) then routing_ErrNotFound else err)
  | inl v =>
      match Validate (Validator (store w)) key v with
      | Some err => inr err
      | None => inl v
      end
  end.

(** [keeps R m]: whatever [m] does, the world it leaves is related by
    [R] to the world it started in. *)
Definition keeps (R : relation (World D)) {A} (m : M D A) : Prop :=
  forall w, R w (world_of (m w)).

(** The cache and the validator are the same. *)
Definition same_cache : relation (World D) := fun w w' =>
  ds (store w') = ds (store w) /\ Validator (store w') = Validator (store w).

(** The listener channel [out] is full and open, its group is not
    closing and its context [c] is not done. *)
Definition pending_full (ptr : WatchGroupPtr) (out : Chan) (ch : Channel)
    (c : Context) (w : World D) : Prop :=
  closing <$> wgs w !! ptr = Some false
  /\ chans w !! out = Some ch
  /\ closed ch = false
  /\ cap ch <= length (buf ch)
  /\ ctx_Done w c = false.

(** The channel [out] holds [v] as the next value to be read. *)
Definition seeded (out : Chan) (v : bytes) (w : World D) : Prop :=
  exists ch, chans w !! out = Some ch /\ head (buf ch) = Some v.

Definition keeps_seed (out : Chan) (v : bytes) : relation (World D) :=
  fun w w' => seeded out v w -> seeded out v w'.

Definition same_chans : relation (World D) := fun w w' => chans w' = chans w.

(** What the store can do before the listener reads its channel [out]:
    the message loop handles a message, of any key; a relay goroutine
    starts, or takes a turn of its loop while its proxy channel has
    nothing for it (nothing in the store sends on a proxy channel);
    [Subscribe], [PutValue] or [Cancel] is called; another channel is
    read. *)
Inductive delivery (out : Chan) : relation (World D) :=
| delivery_message key data pick w :
    delivery out w (world_of (handleMessage key data pick w))
| delivery_relay_start i w :
    delivery out w (world_of (relay_start i w))
| delivery_relay_loop i pick w :
    (forall r, relays w !! i = Some r -> can_recv w (r_proxy r) = false) ->
    delivery out w (world_of (relay_loop i pick w))
| delivery_Subscribe key res w :
    delivery out w (world_of (Subscribe key res w))
| delivery_PutValue key value res w :
    delivery out w (world_of (PutValue key value res w))
| delivery_Cancel name w :
    delivery out w (world_of (Cancel name w))
| delivery_other_read c w :
    c <> out ->
    delivery out w (world_of (chan_recv c w)).




End Notions.

(** ** Further notions *)

Section MoreNotions.

Context {D : Type} `{Datastore D}.

Implicit Types (w : World D) (key : string).

(** The subscription map and its lock are the same. *)
Definition same_subs : relation (World D) := fun w w' =>
  subs (store w') = subs (store w) /\ mx (store w') = mx (store w).

(** [ch] with [v] appended to its buffer. *)
Definition pushed (v : bytes) (ch : Channel) : Channel :=
  {| buf := buf ch ++ [v]; cap := cap ch; closed := false |}.

(** [c] is open and has room for one more value. *)
Definition has_room w (c : Chan) : Prop :=
  exists ch, chans w !! c = Some ch /\ closed ch = false /\ length (buf ch) < cap ch.

(** [c] is a channel that has not been closed. *)
Definition is_open w (c : Chan) : Prop :=
  exists ch, chans w !! c = Some ch /\ closed ch = false.

(** The ids of the listener channels of all watch groups are in use:
    [next] is above them. *)
Definition listeners_allocated w : Prop :=
  forall ptr g o, wgs w !! ptr = Some g -> is_Some (listeners g !! o) -> o < next w.

(** [ch] after [close]. *)
Definition closed_off (ch : Channel) : Channel :=
  {| buf := buf ch; cap := cap ch; closed := true |}.

(** [g] after [close(wg.closing)]. *)
Definition closed_group (g : watchGroup) : watchGroup :=
  {| lk := lk g; closing := true; listeners := listeners g |}.

(** ** States that calls can reach *)

(** A call crashed: a panic that nothing recovers, or a fatal error of
    the runtime. *)
Definition crashed {A} (r : Result D A) : bool :=
  match r with
  | Panic _ _ | Fatal _ _ => true
  | _ => false
  end.

(** A proxy channel as [watchGroup.add] makes it. *)
Definition empty_proxy : Channel := {| buf := []; cap := 1; closed := false |}.

(** How the watch path hangs together: the groups that [p.watching]
    names, the relay goroutines with their channels, and the listeners
    that the groups list. *)
Record wf_at (wt : gmap string WatchGroupPtr) (gs : gmap WatchGroupPtr watchGroup)
    (cs : gmap Chan Channel) (rs : list Relay) (n : nat) : Prop := {
  (* a key's group exists and is not closing *)
  wf_watching : forall k p, wt !! k = Some p ->
    exists g, gs !! p = Some g /\ closing g = false;
  (* no two keys share a group *)
  wf_inj : forall k1 k2 p, wt !! k1 = Some p -> wt !! k2 = Some p -> k1 = k2;
  (* ids in use are below the next fresh one *)
  wf_group_ids : forall p, is_Some (gs !! p) -> p < n;
  wf_chan_ids : forall c, is_Some (cs !! c) -> c < n;
  (* a relay's proxy channel is open and empty *)
  wf_proxy : forall i r, rs !! i = Some r -> cs !! r_proxy r = Some empty_proxy;
  (* a relay's listener channel is closed exactly when the relay has returned *)
  wf_out : forall i r, rs !! i = Some r ->
    exists ch, cs !! r_outCh r = Some ch /\ (closed ch = true <-> r_pc r = RelayDone);
  wf_group : forall i r, rs !! i = Some r -> is_Some (gs !! r_wg r);
  (* each relay has a listener channel of its own, which is no proxy *)
  wf_out_inj : forall i j r r', rs !! i = Some r -> rs !! j = Some r' ->
    r_outCh r = r_outCh r' -> i = j;
  wf_out_proxy : forall i j r r', rs !! i = Some r -> rs !! j = Some r' ->
    r_outCh r <> r_proxy r';
  (* a listener of a group is the channel of a running relay of the group *)
  wf_listeners : forall p g o c, gs !! p = Some g -> listeners g !! o = Some c ->
    exists i r, rs !! i = Some r /\ r_outCh r = o /\ r_wg r = p
                /\ r_pc r = RelayRunning c
}.

Definition wf w : Prop :=
  wf_at (watching (store w)) (wgs w) (chans w) (relays w) (next w).

(** One call by some goroutine, run until it returns, waits or
    crashes: the calls of the API, the handling of a message by the
    loop of a subscription, the steps of a relay goroutine, a read by a
    listener, and the cancelling of a context. *)
Inductive store_step : relation (World D) :=
| step_PutValue key value res w :
    store_step w (world_of (PutValue key value res w))
| step_Subscribe key res w :
    store_step w (world_of (Subscribe key res w))
| step_GetValue key res w :
    store_step w (world_of (GetValue key res w))
| step_SearchValue c key res w :
    store_step w (world_of (SearchValue c key res w))
| step_GetSubscriptions w :
    store_step w (world_of (GetSubscriptions w))
| step_Cancel name w :
    store_step w (world_of (Cancel name w))
| step_message key data pick w :
    store_step w (world_of (handleMessage key data pick w))
| step_relay_start i w :
    store_step w (world_of (relay_start i w))
| step_relay_loop i pick w :
    store_step w (world_of (relay_loop i pick w))
| step_read c w :
    store_step w (world_of (chan_recv c w))
| step_cancel c w :
    store_step w (world_of (context_cancel c w)).

(** The watch path is the same, and no id has been given back. *)
Definition same_watch : relation (World D) := fun w w' =>
  watching (store w') = watching (store w) /\ wgs w' = wgs w
  /\ chans w' = chans w /\ relays w' = relays w /\ next w <= next w'.

(** A call returned. *)
Definition returned {A} (r : Result D A) : bool :=
  match r with
  | Ret _ _ => true
  | _ => false
  end.

(** No lock of the store is held. *)
Definition unlocked w : Prop :=
  mx (store w) = false /\ watchLk (store w) = RWFree
  /\ map_Forall (fun _ g => lk g = RWFree) (wgs w).

(** A step of [store_step] that returned: no goroutine is left
    waiting, and none has crashed. *)
Inductive quiet_step : relation (World D) :=
| quiet_PutValue key value res w :
    returned (PutValue key value res w) = true ->
    quiet_step w (world_of (PutValue key value res w))
| quiet_Subscribe key res w :
    returned (Subscribe key res w) = true ->
    quiet_step w (world_of (Subscribe key res w))
| quiet_GetValue key res w :
    returned (GetValue key res w) = true ->
    quiet_step w (world_of (GetValue key res w))
| quiet_SearchValue c key res w :
    returned (SearchValue c key res w) = true ->
    quiet_step w (world_of (SearchValue c key res w))
| quiet_GetSubscriptions w :
    returned (GetSubscriptions w) = true ->
    quiet_step w (world_of (GetSubscriptions w))
| quiet_Cancel name w :
    returned (Cancel name w) = true ->
    quiet_step w (world_of (Cancel name w))
| quiet_message key data pick w :
    returned (handleMessage key data pick w) = true ->
    quiet_step w (world_of (handleMessage key data pick w))
| quiet_relay_start i w :
    returned (relay_start i w) = true ->
    quiet_step w (world_of (relay_start i w))
| quiet_relay_loop i pick w :
    returned (relay_loop i pick w) = true ->
    quiet_step w (world_of (relay_loop i pick w))
| quiet_read c w :
    returned (chan_recv c w) = true ->
    quiet_step w (world_of (chan_recv c w))
| quiet_cancel c w :
    quiet_step w (world_of (context_cancel c w)).

(** The locks are as they were. *)
Definition same_locks : relation (World D) := fun w w' =>
  mx (store w') = mx (store w) /\ watchLk (store w') = watchLk (store w)
  /\ wgs w' = wgs w.

End MoreNotions.

(** ** Worlds used in examples *)

(** A validator that accepts every record and prefers the candidate. *)
Definition newest_wins : record_Validator :=
  {| Validate _ _ := None; Select _ _ := (0%Z, None) |}.

(** A validator that rejects every record. *)
Definition rejects_all : record_Validator :=
  {| Validate _ _ := Some (errors_New "invalid record"); Select _ _ := (0%Z, None) |}.

Definition fresh_world : World MapDatastore :=
  new_world (NewPubsubValueStore (ctx_caller 0) 0 0 0 newest_wins).

(** A backend whose reads fail with an I/O error. *)
Inductive BrokenDatastore := broken_datastore.

#[global] Instance BrokenDatastore_Datastore : Datastore BrokenDatastore := {
  ds_Get _ _ := inr (errors_New "input/output error");
  ds_Put d _ _ := (d, Some (errors_New "input/output error"))
}.

Definition v1 : bytes := ["1"%byte].
Definition v2 : bytes := ["2"%byte].
Definition v3 : bytes := ["3"%byte].

(** A listener has joined the watch group of ["k"] through
    [SearchValue] on an empty cache, its relay goroutine has started,
    and the update [v1] has been accepted and delivered: [v1] sits unread
    in the listener's channel, which is channel 3 of group 2. *)
Definition join_then_v1 : list Action :=
  [ActSearchValue (ctx_caller 1) "k" None; ActRelayStart 0;
   ActStore "k" v1; ActNotify "k" v1 (fun _ => 0)].

Definition slow_listener_world : World MapDatastore :=
  world_of (run_schedule join_then_v1 [] fresh_world).

(** A listener has joined the watch group of ["k"], its relay goroutine
    runs, and the key is then cancelled. *)
Definition cancelled_world : World MapDatastore :=
  world_of (Cancel "k"
    (world_of (run_schedule
       [ActSearchValue (ctx_caller 1) "k" None; ActRelayStart 0] [] fresh_world))).

(** The store is subscribed to ["k"] and its cache holds [v1]. *)
Definition cached_v1_world : World MapDatastore :=
  world_of (run_schedule [ActSubscribe "k" None; ActStore "k" v1] [] fresh_world).

(** The update [v2] is written to the cache; before the message loop
    goes on to notify the watchers, a listener joins and is seeded with
    [v2]; then the loop notifies the watchers of [v2]. *)
Definition seed_then_notify : list Action :=
  [ActSubscribe "k" None; ActStore "k" v1; ActNotify "k" v1 (fun _ => 0);
   ActStore "k" v2;
   ActSearchValue (ctx_caller 1) "k" None; ActRelayStart 0; ActRecv 3;
   ActNotify "k" v2 (fun _ => 0); ActRecv 3].

(** A listener joins and is seeded with [v1]; the update [v2] is
    handled before the listener's relay goroutine has entered the
    listener in the group. *)
Definition notify_before_relay_start : list Action :=
  [ActSubscribe "k" None; ActStore "k" v1; ActNotify "k" v1 (fun _ => 0);
   ActSearchValue (ctx_caller 1) "k" None;
   ActStore "k" v2; ActNotify "k" v2 (fun _ => 0);
   ActRelayStart 0; ActRecv 3].

(** What a listener has read holds no update twice if it is a
    subsequence of the values written to the cache of the key. *)
Definition no_update_twice {D} (key : string) (seen : list bytes) (w : World D) : Prop :=
  seen `sublist_of` puts key (log w).

(** A store over a broken backend, and one whose validator has turned
    against the cached record. *)
Definition broken_world : World BrokenDatastore :=
  new_world {| ctx := ctx_caller 0; ds := broken_datastore; host := 0; cr := 0;
               ps := 0; mx := false; subs := ∅; watchLk := RWFree;
               watching := ∅; Validator := newest_wins |}.

Definition expired_world : World MapDatastore :=
  new_world {| ctx := ctx_caller 0; ds := {[NewKeyFromBinary "k" := v1]};
               host := 0; cr := 0; ps := 0; mx := false; subs := ∅;
               watchLk := RWFree; watching := ∅; Validator := rejects_all |}.

(** Two callers of [Subscribe "k"] on a new store: both pass the first
    look before either subscribes, caller 1 installs first, caller 0
    finds the subscription of caller 1 and cancels its own. *)
Definition race_of_two : System MapDatastore :=
  default (init_system fresh_world 2)
    (run_callers "k" [0; 1; 0; 1; 1; 0; 0; 1] (init_system fresh_world 2)).

(** A listener has joined the watch group of ["k"] on a new store and
    its relay goroutine has started: group 2 lists channel 3, whose
    proxy is channel 4. *)
Definition joined_world : World MapDatastore :=
  world_of (run_schedule
    [ActSearchValue (ctx_caller 1) "k" None; ActRelayStart 0] [] fresh_world).

Definition joined_group : watchGroup :=
  {| lk := RWFree; closing := false; listeners := {[3 := ctx_derived 5]} |}.

Definition joined_relay : Relay :=
  {| r_wg := 2; r_ctx := ctx_caller 1; r_outCh := 3; r_proxy := 4;
     r_pc := RelayRunning (ctx_derived 5) |}.

(** A validator that accepts every record and prefers the longer one,
    the candidate on a tie. *)
Definition longer_wins : record_Validator :=
  {| Validate _ _ := None;
     Select _ vals :=
       match vals with
       | [x; y] => (if length x <? length y then 1%Z else 0%Z, None)
       | _ => (0%Z, None)
       end |}.

Definition longer_world : World MapDatastore :=
  new_world (NewPubsubValueStore (ctx_caller 0) 0 0 0 longer_wins).

Definition v12 : bytes := ["1"%byte; "2"%byte].

(** A validator whose error for a record it rejects is
    [routing.ErrNotFound], and a store with such a validator whose cache
    holds [v1] for ["k"]. *)
Definition rejects_as_NotFound : record_Validator :=
  {| Validate _ _ := Some routing_ErrNotFound; Select _ _ := (0%Z, None) |}.

Definition rejected_as_NotFound_world : World MapDatastore :=
  new_world {| ctx := ctx_caller 0; ds := {[NewKeyFromBinary "k" := v1]};
               host := 0; cr := 0; ps := 0; mx := false; subs := ∅;
               watchLk := RWFree; watching := ∅; Validator := rejects_as_NotFound |}.

(** * Properties *)

Lemma bytes_Equal_spec (a b : bytes) : bytes_Equal a b = true <-> a = b.
Proof.
  revert b; induction a as [|x a IH]; intros [|y b]; simpl; try (split; congruence).
  rewrite andb_true_iff, IH. split.
  - intros [Hxy ->]. f_equal. by apply Byte.byte_dec_bl.
  - intros [= -> ->]. split; [|done]. by apply Byte.byte_dec_lb.
Qed.

Lemma bytes_Equal_refl (a : bytes) : bytes_Equal a a = true.
Proof. by apply bytes_Equal_spec. Qed.

(** [run] unfolds the monad of the model in the goal. *)
Ltac run :=
  repeat (progress (cbv beta iota delta
    [mbind mret M_bind M_ret get modify emit fresh fatal panic block defer]; simpl)).

(** [unfold_store] opens the calls on the subscription map. *)
Ltac unfold_store :=
  unfold Subscribe, Subscribe_lookup, Subscribe_connect, Subscribe_failed,
    Subscribe_install, Subscribe_finish, PutValue, Cancel, Cancel_with,
    ps_Publish, ps_RegisterTopicValidator, ps_Subscribe,
    sub_Cancel, sub_Cancel_with, context_WithCancel, context_cancel,
    bootstrapPubsub, mx_Lock, mx_Unlock, watchLk_Lock, watchLk_Unlock,
    watchLk_RLock, watchLk_RUnlock.

Section Facts.

Context {D : Type} `{Datastore D}.

Implicit Types (w : World D) (key : string) (val : bytes).

(** ** The local cache *)

Lemma getLocal_run w key :
  exists evs, getLocal key w = Ret (getLocal_result w key) (set_log (evs ++ log w) w)
    /\ forall e, e ∈ evs -> exists v, e = EvValidate key v.
Proof.
  unfold getLocal, getLocal_result, call_Validate. run.
  destruct (ds_Get _ _) as [v|err]; run.
  - destruct (Validate _ _ _); run;
      (exists [EvValidate key v]; split; [done|]);
      intros ev ->%list_elem_of_singleton; eauto.
  - exists []. split; [by destruct w|]. intros ev []%elem_of_nil.
Qed.

(** [Subscribe] does not touch the cache or the validator. *)
Lemma Subscribe_cache w key res :
  ds (store (world_of (Subscribe key res w))) = ds (store w)
  /\ Validator (store (world_of (Subscribe key res w))) = Validator (store w).
Proof.
  unfold Subscribe, Subscribe_lookup, Subscribe_connect, Subscribe_failed,
    Subscribe_install, Subscribe_finish, ps_RegisterTopicValidator, ps_Subscribe,
    sub_Cancel, sub_Cancel_with, context_WithCancel, bootstrapPubsub,
    mx_Lock, mx_Unlock.
  run. repeat (case_match; run; simplify_eq/=); done.
Qed.

(** C7, as the code has it.  [getLocal] returns [routing.ErrNotFound]
    when the backend reports the key missing, the backend's own error
    for any other backend failure, the validator's error when the
    stored bytes fail validation, and the stored bytes otherwise.  It
    passes the errors of the backend and of the validator on as they
    are, so [routing.ErrNotFound] is returned for a missing key and
    otherwise exactly when the backend fails with that very error or
    the validator rejects the stored bytes with it.  [GetValue] returns
    what [getLocal] returns in the world [Subscribe] leaves, whose cache
    and validator are unchanged. *)
Theorem C7_getLocal_outcomes w key :
  let g := ds_Get (ds (store w)) (NewKeyFromBinary key) in
  let V := Validator (store w) in
  exists r w',
    getLocal key w = Ret r w' /\ store w' = store w
    /\ (g = inr ds_ErrNotFound -> r = inr routing_ErrNotFound)
    /\ (forall e, g = inr e -> e <> ds_ErrNotFound -> r = inr e)
    /\ (forall v e, g = inl v -> Validate V key v = Some e -> r = inr e)
    /\ (forall v, g = inl v -> Validate V key v = None -> r = inl v)
    /\ (r = inr routing_ErrNotFound <->
        g = inr ds_ErrNotFound
        \/ g = inr routing_ErrNotFound
        \/ exists v, g = inl v /\ Validate V key v = Some routing_ErrNotFound)
    /\ (forall res w1, Subscribe key res w = Ret None w1 ->
          GetValue key res w = getLocal key w1
          /\ ds (store w1) = ds (store w)
          /\ Validator (store w1) = Validator (store w)).
Proof.
  intros g V. destruct (getLocal_run w key) as (evs & Hrun & _).
  eexists _, _. split; [exact Hrun|]. split; [by destruct w|].
  unfold getLocal_result. fold g V.
  split; [by intros ->|].
  split; [intros e -> Hne; by rewrite decide_False|].
  split; [by intros v e -> ->|].
  split; [by intros v -> ->|].
  split.
  - destruct g as [v|e] eqn:Eg.
    + destruct (Validate V key v) as [e|] eqn:Ev.
      * split.
        -- intros [= ->]. right. right. by exists v.
        -- intros [?|[?|(v' & [= <-] & Hv)]]; [done..|]. congruence.
      * split; [done|]. intros [?|[?|(v' & [= <-] & Hv)]]; [done..|]. congruence.
    + case_decide as Hd.
      * subst e. split; [by left|done].
      * split.
        -- intros [= ->]. by right; left.
        -- intros [[= ->]|[[= ->]|(v' & ? & _)]]; done.
  - intros res w1 Hsub.
    pose proof (Subscribe_cache w key res) as Hc. rewrite Hsub in Hc.
    split; [|exact Hc]. unfold GetValue. run. by rewrite Hsub.
Qed.

(** ** The conflict resolver *)

Lemma Select_accepts (r : Z * option error) :
  bool_decide (r.2 = None) && (r.1 =? 0)%Z = true <-> r = (0%Z, None).
Proof.
  destruct r as [i e]; simpl.
  rewrite andb_true_iff, bool_decide_eq_true, Z.eqb_eq.
  split; [by intros [-> ->]|by intros [= -> ->]].
Qed.

(** C1. [isBetter] always returns and leaves the store as it is.  It
    returns false when the validator rejects the candidate.  For a
    valid candidate it returns true when the cache read fails (no entry,
    or any other backend error) or the cached bytes fail validation,
    and true when the cached bytes equal the candidate.  Otherwise it
    calls [Select] on the list of candidate and cached value, in this
    order, and returns true exactly when [Select] answers index 0 and
    no error. *)
Theorem C1_isBetter_cases w key val :
  let g := ds_Get (ds (store w)) (NewKeyFromBinary key) in
  let V := Validator (store w) in
  exists b w',
    isBetter key val w = Ret b w' /\ store w' = store w
    /\ (Validate V key val <> None -> b = false)
    /\ (Validate V key val = None ->
        ((exists e, g = inr e) \/ (exists old, g = inl old /\ Validate V key old <> None)) ->
        b = true)
    /\ (forall old, Validate V key val = None -> g = inl old ->
        Validate V key old = None ->
        (old = val -> b = true)
        /\ (old <> val ->
            head (log w') = Some (EvSelect key [val; old])
            /\ (b = true <-> Select V key [val; old] = (0%Z, None)))).
Proof.
  intros g V. unfold isBetter, call_Validate, call_Select. run. fold V.
  destruct (Validate V key val) as [e|] eqn:Ev; run.
  { eexists _, _. split; [done|]. split; [by destruct w|].
    split; [done|]. split; [done|]. intros old [=]. }
  destruct (getLocal_run (set_log (EvValidate key val :: log w) w) key)
    as (evs & -> & _).
  unfold getLocal_result. simpl. fold g V.
  destruct g as [old|e] eqn:Eg; run.
  2: { eexists _, _. split; [done|]. split; [by destruct w|].
       split; [done|]. split; [done|]. intros old _ [=]. }
  destruct (Validate V key old) as [e|] eqn:Eo; run.
  { eexists _, _. split; [done|]. split; [by destruct w|].
    split; [done|]. split; [done|]. intros old' _ [= <-]. congruence. }
  destruct (bytes_Equal old val) eqn:Eb; run.
  - apply bytes_Equal_spec in Eb as ->.
    eexists _, _. split; [done|]. split; [by destruct w|].
    split; [done|]. split; [done|]. intros old' _ [= <-] _. split; [done|].
    by intros [].
  - eexists _, _. split; [done|]. split; [by destruct w|].
    split; [done|].
    split.
    { intros _ [[e [=]]|[old' [[= <-] Hne]]]. congruence. }
    intros old' _ [= <-] _. split.
    + intros ->. by rewrite bytes_Equal_refl in Eb.
    + intros _. split; [done|]. apply Select_accepts.
Qed.

(** ** Subscribe when the transport fails *)

(** C3. When no subscription is active for the key and [ps.Subscribe]
    fails, [Subscribe] does not return the error: line 129 unlocks
    [p.mx], which is not held, and the Go runtime stops the process. *)
Theorem C3_Subscribe_error_is_fatal w key err :
  mx (store w) = false ->
  default None (subs (store w) !! key) = None ->
  exists w', Subscribe key (Some err) w = Fatal "sync: unlock of unlocked mutex" w'
    /\ subs (store w') = subs (store w).
Proof.
  intros Hmx Hsub. unfold_store. run. rewrite Hmx. run. rewrite Hsub. run.
  eexists. split; reflexivity.
Qed.

(** ** Cancel *)

Lemma Cancel_absent w name :
  mx (store w) = false -> watchLk (store w) = RWFree ->
  subs (store w) !! name = None -> watching (store w) !! name = None ->
  Cancel name w = Ret false w.
Proof.
  intros Hmx Hlk Hs Hw. unfold_store. run. rewrite Hmx. run. rewrite Hs. run.
  rewrite Hlk. run. rewrite Hw. run.
  f_equal. destruct w as [[] ]; simpl in *; by subst.
Qed.

(** With an active subscription, [Cancel] cancels it, drops the entry
    and, if the key is watched, closes and drops its watch group. *)
Lemma Cancel_active w name sub :
  mx (store w) = false -> watchLk (store w) = RWFree ->
  subs (store w) !! name = Some (Some sub) ->
  (forall ptr, watching (store w) !! name = Some ptr ->
     exists g, wgs w !! ptr = Some g /\ closing g = false) ->
  exists w', Cancel name w = Ret true w'
    /\ subs (store w') = delete name (subs (store w))
    /\ watching (store w') = delete name (watching (store w))
    /\ sub ∈ cancels (log w')
    /\ (forall ptr, watching (store w) !! name = Some ptr ->
          closing <$> wgs w' !! ptr = Some true)
    /\ mx (store w') = false.
Proof.
  intros Hmx Hlk Hs Hw. unfold_store. run. rewrite Hmx. run. rewrite Hs. run.
  rewrite Hlk. run.
  destruct (watching (store w) !! name) as [ptr|] eqn:Ew.
  - destruct (Hw ptr eq_refl) as (g & Hg & Hc).
    unfold wg_close_closing, wg_get, wg_put. run. rewrite Hg. run. rewrite Hc. run.
    eexists. split; [done|]. simpl. repeat split; try done.
    + apply list_elem_of_here.
    + intros ? [= <-]. by rewrite lookup_insert_eq.
  - run. eexists. split; [done|]. simpl. repeat split; try done.
    + by rewrite delete_id.
    + apply list_elem_of_here.
Qed.

(** C4. With the entry of the key in the bootstrapping state (present,
    nil), [Cancel] calls [Cancel] on the nil subscription and panics;
    the entry stays.  Even if that call on a nil subscription did
    nothing, [Cancel] could not return false there: it returns whether
    the entry was present. *)
Theorem C4_Cancel_bootstrapping_panics w name :
  mx (store w) = false ->
  subs (store w) !! name = Some None ->
  (exists w', Cancel name w
              = Panic "invalid memory address or nil pointer dereference" w'
     /\ subs (store w') !! name = Some None)
  /\ (forall nil_ok b w', Cancel_with nil_ok name w = Ret b w' -> b = true).
Proof.
  intros Hmx Hs. split.
  - unfold_store. run. rewrite Hmx. run. rewrite Hs. run.
    eexists. split; [done|]. done.
  - intros nil_ok b w'. unfold_store. run. rewrite Hmx. run. rewrite Hs. run.
    unfold wg_close_closing, wg_get, wg_put. run.
    repeat (case_match; run; simplify_eq/=); congruence.
Qed.

(** ** Bootstrap *)

Lemma bootstraps_cons k e l :
  bootstraps k (e :: l) = (if is_bootstrap k e then 1 else 0) + bootstraps k l.
Proof.
  unfold bootstraps. rewrite filter_cons.
  destruct (is_bootstrap k e); by case_decide.
Qed.

(** Closes a goal whose hypotheses disagree on whether a lookup in
    [p.subs] finds an entry. *)
Ltac some_absurd :=
  repeat match goal with
  | Ek : subs _ !! ?k = _, Hx : is_Some (subs _ !! ?k) |- _ => rewrite Ek in Hx
  | Ek : subs _ !! ?k = _, Hx : ~ is_Some (subs _ !! ?k) |- _ => rewrite Ek in Hx
  end;
  by eauto using is_Some_None.

(** One call: [bootstrapPubsub] runs for [k] exactly when the call
    gives [k] its entry in [p.subs]. *)
Lemma run_op_bootstraps w op k :
  mx (store w) = false ->
  let w' := world_of (run_op op w) in
  bootstraps k (log w')
    = bootstraps k (log w) + (if touched k w' && negb (touched k w) then 1 else 0)
  /\ (touched k w = true -> touched k w' = true)
  /\ (forall x w1, run_op op w = Ret x w1 ->
        mx (store w1) = false /\ (op_key op = k -> touched k w1 = true)).
Proof.
  intros Hmx. unfold touched.
  assert (Hsome : forall (o : option Subscription), is_Some (Some o)) by eauto.
  destruct op as [key value res|key res]; simpl; unfold_store; run;
    rewrite Hmx; run.
  - destruct (subs (store w) !! key) as [e|] eqn:Ek; run;
      rewrite ?bootstraps_cons; simpl;
      destruct (decide (key = k)); simplify_map_eq;
      repeat case_bool_decide; simplify_map_eq;
      try (exfalso; some_absurd);
      (split; [lia|]; split; [done|]; intros x w1 Heq;
       first [discriminate Heq
             |simplify_eq/=; split; [done|]; intros ?;
              apply bool_decide_eq_true_2; by simplify_map_eq]).
  - destruct (subs (store w) !! key) as [[sub|]|] eqn:Ek; run;
      try destruct res as [err|]; run; rewrite ?Ek; run;
      rewrite ?bootstraps_cons; simpl;
      destruct (decide (key = k)); simplify_map_eq;
      repeat case_bool_decide; simplify_map_eq;
      try (exfalso; some_absurd);
      (split; [lia|]; split; [done|]; intros x w1 Heq;
       first [discriminate Heq
             |simplify_eq/=; split; [done|]; intros ?;
              apply bool_decide_eq_true_2; by simplify_map_eq]).
Qed.

Lemma run_ops_bootstraps ops : forall w k,
  mx (store w) = false ->
  let w' := world_of (run_ops ops w) in
  bootstraps k (log w')
    = bootstraps k (log w) + (if touched k w' && negb (touched k w) then 1 else 0)
  /\ (touched k w = true -> touched k w' = true).
Proof.
  induction ops as [|op rest IH]; intros w k Hmx; simpl.
  { destruct (touched k w); simpl; split; (lia || done). }
  destruct (run_op_bootstraps w op k Hmx) as (Hn & Ht & Hret).
  run. destruct (run_op op w) as [x w1| | |] eqn:Eop; simpl in *; try done.
  destruct (Hret x w1 eq_refl) as [Hmx1 _].
  destruct (IH w1 k Hmx1) as [Hn' Ht']. simpl in *.
  rewrite Hn', Hn.
  destruct (touched k w), (touched k w1),
    (touched k (world_of (run_ops rest w1))); simpl in *;
    split; first [lia | done | by auto | (exfalso; by auto)].
Qed.

Lemma Subscribe_returns_nil w key x w1 :
  Subscribe key None w = Ret x w1 -> x = None.
Proof.
  unfold_store. run. destruct (mx (store w)); run; [done|].
  destruct (subs (store w) !! key) as [[sub|]|] eqn:Ek; run; rewrite ?Ek; run;
    by intros [= <- _].
Qed.

Lemma PutValue_returns_answer w key value res x w1 :
  PutValue key value res w = Ret x w1 -> x = res.
Proof.
  unfold_store. run. destruct (mx (store w)); run; [done|].
  destruct (subs (store w) !! key); run; by intros [= <- _].
Qed.

(** A call returns unless it is a [Subscribe] that the transport
    refuses. *)
Lemma run_op_returns w op :
  mx (store w) = false ->
  (forall key err, op <> OpSubscribe key (Some err)) ->
  exists x w1, run_op op w = Ret x w1.
Proof.
  intros Hmx Hok. destruct op as [key value res|key [err|]]; simpl.
  - unfold_store. run. rewrite Hmx. run.
    destruct (subs (store w) !! key); run; by eexists _, _.
  - by destruct (Hok key err).
  - unfold_store. run. rewrite Hmx. run.
    destruct (subs (store w) !! key) as [[sub|]|] eqn:Ek; run; rewrite ?Ek; run;
      by eexists _, _.
Qed.

Lemma run_ops_returns ops : forall w,
  mx (store w) = false ->
  (forall key err, OpSubscribe key (Some err) ∉ ops) ->
  exists wr, run_ops ops w = Ret tt wr
    /\ forall k, k ∈ map op_key ops -> touched k wr = true.
Proof.
  induction ops as [|op rest IH]; intros w Hmx Hok; simpl.
  { exists w. split; [done|]. by intros k ?%elem_of_nil. }
  destruct (run_op_returns w op Hmx) as (x & w1 & Hop).
  { intros key err ->. apply (Hok key err). by left. }
  destruct (IH w1) as (wr & Hrun & Ht).
  { by destruct (run_op_bootstraps w op (op_key op) Hmx) as (_ & _ & Hret);
      destruct (Hret x w1 Hop). }
  { intros key err Hin. apply (Hok key err). by right. }
  exists wr. split; [run; by rewrite Hop|].
  intros k [->|Hin]%elem_of_cons; [|by apply Ht].
  destruct (run_op_bootstraps w op (op_key op) Hmx) as (_ & _ & Hret).
  destruct (Hret x w1 Hop) as [Hmx1 Ht1].
  destruct (run_ops_bootstraps rest w1 (op_key op) Hmx1) as [_ Hkeep].
  rewrite Hrun in Hkeep. simpl in Hkeep. by apply Hkeep, Ht1.
Qed.

(** C6. Over any sequence of [PutValue] and [Subscribe] calls, started
    with [p.mx] free, [bootstrapPubsub] has run for a key once more
    than before if the key got its entry in [p.subs] during the
    sequence, and as often as before otherwise; an entry, once there,
    stays, and once the key has its entry no call triggers the
    bootstrap again.  The first call on a key triggers it: a
    [PutValue], whatever [ps.Publish] answers, and a [Subscribe] that
    the transport accepts, each return with the entry made and the
    bootstrap run once.  A sequence in which the transport accepts
    every subscription runs to its end, and the bootstrap has then run
    exactly once for every key the sequence touches that had no entry
    before. *)
Theorem C6_bootstrap_at_most_once w k ops :
  mx (store w) = false ->
  let w' := world_of (run_ops ops w) in
  (bootstraps k (log w')
     = bootstraps k (log w) + (if touched k w' && negb (touched k w) then 1 else 0))
  /\ bootstraps k (log w') <= S (bootstraps k (log w))
  /\ (touched k w = true -> bootstraps k (log w') = bootstraps k (log w))
  /\ (forall op x w1,
        op_key op = k -> touched k w = false -> run_op op w = Ret x w1 ->
        touched k w1 = true /\ bootstraps k (log w1) = S (bootstraps k (log w)))
  /\ (forall value res,
        touched k w = false ->
        exists w1, PutValue k value res w = Ret res w1
          /\ touched k w1 = true
          /\ bootstraps k (log w1) = S (bootstraps k (log w)))
  /\ (touched k w = false ->
      exists w1, Subscribe k None w = Ret None w1
        /\ touched k w1 = true
        /\ bootstraps k (log w1) = S (bootstraps k (log w)))
  /\ ((forall key err, OpSubscribe key (Some err) ∉ ops) ->
      exists wr, run_ops ops w = Ret tt wr
        /\ (k ∈ map op_key ops ->
            touched k wr = true
            /\ bootstraps k (log wr)
               = if touched k w then bootstraps k (log w)
                 else S (bootstraps k (log w)))).
Proof.
  intros Hmx w'. destruct (run_ops_bootstraps ops w k Hmx) as [Hn Ht].
  fold w' in Hn, Ht.
  assert (Hfirst : forall op x w1,
    op_key op = k -> touched k w = false -> run_op op w = Ret x w1 ->
    touched k w1 = true /\ bootstraps k (log w1) = S (bootstraps k (log w))).
  { intros op x w1 Hk Htw Hop.
    destruct (run_op_bootstraps w op k Hmx) as (Hn1 & _ & Hret).
    destruct (Hret x w1 Hop) as [_ Ht1]. specialize (Ht1 Hk).
    rewrite Hop in Hn1. simpl in Hn1. rewrite Ht1, Htw in Hn1. simpl in Hn1.
    split; [done|lia]. }
  split; [exact Hn|]. split; [|split; [|split; [exact Hfirst|split; [|split]]]].
  - rewrite Hn. destruct (touched k w' && negb (touched k w)); lia.
  - intros Htw. rewrite Hn, Htw, andb_false_r. lia.
  - intros value res Htw.
    destruct (run_op_returns w (OpPutValue k value res) Hmx) as (x & w1 & Hrun);
      [done|].
    assert (x = res) as -> by (by apply (PutValue_returns_answer w k value res x w1)).
    exists w1. split; [exact Hrun|].
    by apply (Hfirst (OpPutValue k value res) res w1).
  - intros Htw.
    destruct (run_op_returns w (OpSubscribe k None) Hmx) as (x & w1 & Hrun); [done|].
    assert (x = None) as -> by (by apply (Subscribe_returns_nil w k x w1)).
    exists w1. split; [exact Hrun|].
    by apply (Hfirst (OpSubscribe k None) None w1).
  - intros Hok. destruct (run_ops_returns ops w Hmx Hok) as (wr & Hrun & Hkeys).
    exists wr. split; [exact Hrun|]. intros Hin.
    unfold w' in Hn. rewrite Hrun in Hn. simpl in Hn.
    rewrite (Hkeys k Hin) in Hn. split; [by apply Hkeys|].
    rewrite Hn. destruct (touched k w); simpl; lia.
Qed.

(** ** What a call leaves alone *)

Lemma keeps_ret (R : relation (World D)) {A} (a : A) :
  Reflexive R -> keeps R (@mret (M D) M_ret A a).
Proof. intros HR w. simpl. apply HR. Qed.

Lemma keeps_bind (R : relation (World D)) {A B} (m : M D A) (k : A -> M D B) :
  Transitive R ->
  keeps R m -> (forall a, keeps R (k a)) -> keeps R (@mbind (M D) M_bind A B k m).
Proof.
  intros HR Hm Hk w. specialize (Hm w). cbv [mbind M_bind].
  destruct (m w) as [a w1| | |]; simpl in *; try done.
  eapply HR; [exact Hm|apply Hk].
Qed.

Lemma same_cache_refl : Reflexive (@same_cache D).
Proof. by intros w. Qed.

Lemma same_cache_trans : Transitive (@same_cache D).
Proof. intros w1 w2 w3 [? ?] [? ?]. split; congruence. Qed.

Lemma chan_send_cache c v : keeps (D:=D) same_cache (chan_send c v).
Proof. intros w. unfold chan_send. by repeat case_match. Qed.

Lemma wg_get_cache ptr : keeps (D:=D) same_cache (wg_get ptr).
Proof. intros w. unfold wg_get. by repeat case_match. Qed.

Lemma wg_lk_cache op msg ptr : keeps (D:=D) same_cache (wg_lk op msg ptr).
Proof.
  unfold wg_lk. apply keeps_bind; [apply same_cache_trans|apply wg_get_cache|].
  intros g w. unfold wg_put. run. by repeat case_match.
Qed.

Lemma notify_each_cache ptr data pick ls : keeps (D:=D) same_cache (notify_each ptr data pick ls).
Proof.
  induction ls as [|l ls IH]; simpl; [apply keeps_ret, same_cache_refl|].
  apply keeps_bind; [apply same_cache_trans| |done].
  intros w. unfold notify_one. run.
  repeat case_match; try done; apply chan_send_cache.
Qed.

Lemma notifyWatchers_cache key data pick : keeps (D:=D) same_cache (notifyWatchers key data pick).
Proof.
  unfold notifyWatchers.
  apply keeps_bind; [apply same_cache_trans|intros w; unfold watchLk_RLock; by repeat case_match|].
  intros _. apply keeps_bind; [apply same_cache_trans|by intros w|]. intros w.
  apply keeps_bind; [apply same_cache_trans|intros w'; unfold watchLk_RUnlock; by repeat case_match|].
  intros _. destruct (watching (store w) !! key) as [ptr|]; [|apply keeps_ret, same_cache_refl].
  apply keeps_bind; [apply same_cache_trans|apply wg_lk_cache|]. intros _.
  apply keeps_bind; [apply same_cache_trans|apply wg_get_cache|]. intros g.
  apply keeps_bind; [apply same_cache_trans|apply notify_each_cache|]. intros _.
  apply wg_lk_cache.
Qed.

(** ** Delivery to a listener whose buffer is full *)

Lemma pending_full_cases ptr out ch c w :
  pending_full ptr out ch c w -> notify_ready w ptr out c = [].
Proof.
  intros (Hcl & Hch & Hop & Hfull & Hctx). unfold notify_ready, can_send.
  rewrite Hch, Hop, Hctx. simpl.
  rewrite bool_decide_eq_false_2 by lia.
  destruct (wgs w !! ptr) as [g|]; simpl in *; [|done].
  by injection Hcl as ->.
Qed.

Lemma notify_one_pending ptr out ch c data pick l w :
  pending_full ptr out ch c w ->
  pending_full ptr out ch c (world_of (notify_one ptr data pick l w)).
Proof.
  intros Hp. unfold notify_one. run.
  destruct (notify_ready w ptr l.1 l.2 !! _) as [[]|] eqn:Ecase; run; try done.
  unfold chan_send.
  destruct (chans w !! l.1) as [ch'|] eqn:Ech; [|done].
  destruct (closed ch') eqn:Ecl; [done|].
  case_bool_decide as Hroom; [|done]. simpl.
  destruct Hp as (Hcl & Hch & Hop & Hfull & Hctx).
  assert (l.1 <> out) as Hne.
  { intros Heq. rewrite Heq, Hch in Ech. injection Ech as <-. lia. }
  split; [done|]. split; [simpl; by rewrite lookup_insert_ne|]. done.
Qed.

Lemma notify_each_pending ptr out ch c data pick ls : forall w,
  pending_full ptr out ch c w ->
  pending_full ptr out ch c (world_of (notify_each ptr data pick ls w))
  /\ ((out, c) ∈ ls -> value_of (notify_each ptr data pick ls w) = None).
Proof.
  induction ls as [|l ls IH]; intros w Hp; simpl.
  { split; [done|]. by intros ?%elem_of_nil. }
  pose proof (notify_one_pending ptr out ch c data pick l w Hp) as H1.
  cbv [mbind M_bind].
  destruct (notify_one ptr data pick l w) as [[] w1| | |] eqn:E1; simpl in *; try done.
  destruct (IH w1 H1) as [IH1 IH2]. split; [done|].
  intros [<-|Hin]%elem_of_cons; [|by apply IH2].
  exfalso. unfold notify_one in E1. revert E1. run.
  by rewrite (pending_full_cases _ _ _ _ _ Hp).
Qed.

(** C2. A listener of the key's watch group whose buffer is full holds
    the producer up: as long as the group is not closing and the
    listener's context is live, [notifyWatchers] does not return, and
    the pending value stays in the buffer as it is. *)
Theorem C2_notify_waits_for_slow_listener w key ptr g out ch c data pick :
  rw_RLock (watchLk (store w)) <> None ->
  watching (store w) !! key = Some ptr ->
  wgs w !! ptr = Some g ->
  rw_RLock (lk g) <> None ->
  listeners g !! out = Some c ->
  pending_full ptr out ch c w ->
  value_of (notifyWatchers key data pick w) = None
  /\ chans (world_of (notifyWatchers key data pick w)) !! out = Some ch.
Proof.
  intros Hwl Hw Hg Hlk Hl Hp.
  unfold notifyWatchers, watchLk_RLock, watchLk_RUnlock. run.
  destruct (rw_RLock (watchLk (store w))) as [l1|] eqn:E1; [|done]. run.
  assert (exists l2, rw_RUnlock l1 = Some l2) as [l2 ->].
  { destruct (watchLk (store w)) as [| |n]; simpl in E1; simplify_eq; simpl; eauto.
    destruct n; eauto. }
  run. rewrite Hw. run.
  unfold wg_lk_RLock, wg_lk_RUnlock, wg_lk, wg_get, wg_put. run. rewrite Hg. run.
  destruct (rw_RLock (lk g)) as [l3|] eqn:E3; [|done]. run.
  rewrite lookup_insert_eq. run.
  match goal with |- context [notify_each ptr data pick ?ls ?w0] =>
    destruct (notify_each_pending ptr out ch c data pick ls w0) as [Hp' Hv] end.
  { destruct Hp as (Hcl & Hch & Hop & Hfull & Hctx).
    rewrite Hg in Hcl. injection Hcl as Hcl.
    split; [simpl; rewrite lookup_insert_eq; simpl; by rewrite Hcl|]. done. }
  specialize (Hv ltac:(by apply elem_of_map_to_list)).
  destruct (notify_each _ _ _ _ _) as [[] w1| | |]; simpl in *; try done;
    split; try done; apply Hp'.
Qed.

(** ** The seed of a listener *)

Lemma keeps_seed_refl out v : Reflexive (@keeps_seed D out v).
Proof. intros w Hs. exact Hs. Qed.

Lemma keeps_seed_trans out v : Transitive (@keeps_seed D out v).
Proof. intros w1 w2 w3 H12 H23 Hs. apply H23, H12, Hs. Qed.

Lemma same_chans_refl : Reflexive (@same_chans D).
Proof. by intros w. Qed.

Lemma same_chans_trans : Transitive (@same_chans D).
Proof. intros w1 w2 w3 H12 H23. unfold same_chans in *. congruence. Qed.

Lemma keeps_weaken (R R' : relation (World D)) {A} (m : M D A) :
  (forall w w', R w w' -> R' w w') -> keeps R m -> keeps R' m.
Proof. intros HR Hm w. apply HR, Hm. Qed.

Lemma same_chans_seed out v w w' : same_chans w w' -> keeps_seed out v w w'.
Proof. intros Hc (ch & Hch & Hh). exists ch. by rewrite Hc. Qed.

(** Closes a goal [keeps R m] where [R] says that a part of the world
    is unchanged, for an [m] that is unfolded far enough to run. *)
Ltac chans_ok :=
  let w := fresh "w" in
  intros w; hnf; run;
  repeat (case_match; run; simplify_eq/=); done.

Lemma getLocal_chans key : keeps (D:=D) same_chans (getLocal key).
Proof. intros w. destruct (getLocal_run w key) as (evs & -> & _). done. Qed.

Lemma isBetter_chans key val : keeps (D:=D) same_chans (isBetter key val).
Proof.
  unfold isBetter, call_Validate, call_Select.
  apply keeps_bind; [apply same_chans_trans|chans_ok|]. intros [e|]; [chans_ok|].
  apply keeps_bind; [apply same_chans_trans|apply getLocal_chans|]. intros [old|e]; [|chans_ok].
  destruct (bytes_Equal old val); chans_ok.
Qed.

Lemma handleMessage_store_chans key data : keeps (D:=D) same_chans (handleMessage_store key data).
Proof.
  unfold handleMessage_store.
  apply keeps_bind; [apply same_chans_trans|apply isBetter_chans|]. intros [|]; [|chans_ok].
  unfold ds_Put_local. chans_ok.
Qed.

Lemma chan_send_seed out v c x : keeps (D:=D) (keeps_seed out v) (chan_send c x).
Proof.
  intros w (ch & Hch & Hh). unfold chan_send.
  destruct (chans w !! c) as [ch'|] eqn:Ec; [|by exists ch].
  destruct (closed ch'); [by exists ch|].
  case_bool_decide; [|by exists ch]. simpl.
  destruct (decide (c = out)) as [->|Hne].
  - rewrite Hch in Ec. injection Ec as <-. eexists. simpl. rewrite lookup_insert_eq.
    split; [done|]. simpl. destruct (buf ch); [done|by simpl in *].
  - exists ch. simpl. by rewrite lookup_insert_ne.
Qed.

Lemma wg_lk_chans op msg ptr : keeps (D:=D) same_chans (wg_lk op msg ptr).
Proof.
  unfold wg_lk. apply keeps_bind; [apply same_chans_trans|unfold wg_get; chans_ok|].
  intros g. unfold wg_put. chans_ok.
Qed.

Lemma notify_each_seed out v ptr data pick ls :
  keeps (D:=D) (keeps_seed out v) (notify_each ptr data pick ls).
Proof.
  induction ls as [|l ls IH]; simpl; [apply keeps_ret, keeps_seed_refl|].
  apply keeps_bind; [apply keeps_seed_trans| |done].
  intros w. unfold notify_one. run.
  repeat case_match; try (by intros ?); apply chan_send_seed.
Qed.

Lemma notifyWatchers_seed out v key data pick :
  keeps (D:=D) (keeps_seed out v) (notifyWatchers key data pick).
Proof.
  unfold notifyWatchers.
  apply keeps_bind; [apply keeps_seed_trans| |].
  { apply (keeps_weaken same_chans); [apply same_chans_seed|].
    unfold watchLk_RLock; chans_ok. }
  intros _. apply keeps_bind; [apply keeps_seed_trans|by intros w ?|]. intros w.
  apply keeps_bind; [apply keeps_seed_trans| |].
  { apply (keeps_weaken same_chans); [apply same_chans_seed|].
    unfold watchLk_RUnlock; chans_ok. }
  intros _. destruct (watching (store w) !! key) as [ptr|]; [|apply keeps_ret, keeps_seed_refl].
  apply keeps_bind; [apply keeps_seed_trans| |].
  { apply (keeps_weaken same_chans); [apply same_chans_seed|apply wg_lk_chans]. }
  intros _. apply keeps_bind; [apply keeps_seed_trans| |].
  { intros w' ?. unfold wg_get. by case_match. }
  intros g. apply keeps_bind; [apply keeps_seed_trans|apply notify_each_seed|]. intros _.
  apply (keeps_weaken same_chans); [apply same_chans_seed|apply wg_lk_chans].
Qed.

Lemma handleMessage_seed out v key data pick :
  keeps (D:=D) (keeps_seed out v) (handleMessage key data pick).
Proof.
  unfold handleMessage. apply keeps_bind; [apply keeps_seed_trans| |].
  { apply (keeps_weaken same_chans); [apply same_chans_seed|].
    apply handleMessage_store_chans. }
  intros [|]; [apply notifyWatchers_seed|apply keeps_ret, keeps_seed_refl].
Qed.

Lemma relay_start_chans i : keeps (D:=D) same_chans (relay_start i).
Proof.
  unfold relay_start, context_WithCancel, wg_get, wg_put, relay_set_pc. chans_ok.
Qed.

Lemma Subscribe_chans key res : keeps (D:=D) same_chans (Subscribe key res).
Proof. unfold_store. chans_ok. Qed.

Lemma PutValue_chans key value res : keeps (D:=D) same_chans (PutValue key value res).
Proof. unfold_store. chans_ok. Qed.

Lemma Cancel_chans name : keeps (D:=D) same_chans (Cancel name).
Proof. unfold_store. unfold wg_close_closing, wg_get, wg_put. chans_ok. Qed.

Lemma chan_close_seed out v c : keeps (D:=D) (keeps_seed out v) (chan_close c).
Proof.
  intros w (ch & Hch & Hh). unfold chan_close.
  destruct (chans w !! c) as [ch'|] eqn:Ec; [|by exists ch].
  destruct (closed ch'); [by exists ch|]. simpl.
  destruct (decide (c = out)) as [->|Hne].
  - rewrite Hch in Ec. injection Ec as <-. eexists. simpl.
    rewrite lookup_insert_eq. by split.
  - exists ch. simpl. by rewrite lookup_insert_ne.
Qed.

Lemma chan_recv_other out v c : c <> out -> keeps (D:=D) (keeps_seed out v) (chan_recv c).
Proof.
  intros Hne w (ch & Hch & Hh). unfold chan_recv.
  destruct (chans w !! c) as [ch'|]; [|by exists ch].
  destruct (buf ch'); [by destruct (closed ch'); exists ch|].
  exists ch. simpl. by rewrite lookup_insert_ne.
Qed.

Lemma relay_exit_seed out v i r c : keeps (D:=D) (keeps_seed out v) (relay_exit i r c).
Proof.
  unfold relay_exit.
  apply keeps_bind; [apply keeps_seed_trans| |].
  { apply (keeps_weaken same_chans); [apply same_chans_seed|].
    unfold context_cancel. chans_ok. }
  intros _. apply keeps_bind; [apply keeps_seed_trans| |].
  { apply (keeps_weaken same_chans); [apply same_chans_seed|apply wg_lk_chans]. }
  intros _. apply keeps_bind; [apply keeps_seed_trans| |].
  { apply (keeps_weaken same_chans); [apply same_chans_seed|].
    unfold wg_get. chans_ok. }
  intros g. apply keeps_bind; [apply keeps_seed_trans| |].
  { apply (keeps_weaken same_chans); [apply same_chans_seed|].
    unfold wg_put. chans_ok. }
  intros _. apply keeps_bind; [apply keeps_seed_trans| |].
  { apply (keeps_weaken same_chans); [apply same_chans_seed|apply wg_lk_chans]. }
  intros _. apply keeps_bind; [apply keeps_seed_trans|apply chan_close_seed|].
  intros _. apply (keeps_weaken same_chans); [apply same_chans_seed|].
  unfold relay_set_pc. chans_ok.
Qed.

(** A relay goroutine whose proxy has nothing for it can only leave. *)
Lemma relay_loop_seed out v i pick w :
  (forall r, relays w !! i = Some r -> can_recv w (r_proxy r) = false) ->
  keeps_seed out v w (world_of (relay_loop i pick w)).
Proof.
  intros Hproxy. unfold relay_loop. run.
  destruct (relays w !! i) as [r|] eqn:Er; [|by intros ?].
  destruct (r_pc r) as [|c|]; try (by intros ?).
  unfold relay_ready. rewrite (Hproxy r eq_refl). simpl.
  match goal with |- context [@lookup _ RelayCase _ _ ?n ?l] =>
    destruct (l !! n) as [[]|] eqn:Ecase end;
    try (by intros ?); try apply relay_exit_seed.
  exfalso. apply list_elem_of_lookup_2 in Ecase.
  rewrite elem_of_app in Ecase. destruct Ecase as [Hin|Hin];
    case_match; by (apply elem_of_nil in Hin || apply list_elem_of_singleton in Hin).
Qed.

Lemma deliveries_seed out v w w' :
  rtc (delivery out) w w' -> seeded out v w -> seeded out v w'.
Proof.
  induction 1 as [|w1 w2 w3 Hstep _ IH]; [done|]. intros Hs. apply IH.
  destruct Hstep as [key data pick w|i w|i pick w Hproxy|key res w
                    |key value res w|name w|c w Hne].
  - by apply handleMessage_seed.
  - by apply (same_chans_seed out v w _ (relay_start_chans i w)).
  - by apply relay_loop_seed.
  - by apply (same_chans_seed out v w _ (Subscribe_chans key res w)).
  - by apply (same_chans_seed out v w _ (PutValue_chans key value res w)).
  - by apply (same_chans_seed out v w _ (Cancel_chans name w)).
  - by apply chan_recv_other.
Qed.

Lemma seeded_recv out v w :
  seeded out v w -> exists w', chan_recv out w = Ret (Some v) w'.
Proof.
  intros (ch & Hch & Hh). unfold chan_recv. rewrite Hch.
  destruct (buf ch) as [|x rest]; [done|]. injection Hh as ->. eauto.
Qed.

(** ** Joining a watch group *)

Lemma Subscribe_frame w key :
  mx (store w) = false ->
  exists w1, Subscribe key None w = Ret None w1
    /\ mx (store w1) = false
    /\ watchLk (store w1) = watchLk (store w)
    /\ watching (store w1) = watching (store w)
    /\ wgs w1 = wgs w /\ chans w1 = chans w
    /\ same_cache w w1.
Proof.
  intros Hmx. unfold_store. run. rewrite Hmx. run.
  destruct (subs (store w) !! key) as [[sub|]|] eqn:Ek; run; rewrite ?Ek; run;
    (eexists; split; [done|]; by repeat split).
Qed.

Lemma SearchValue_group_spec w key :
  watchLk (store w) = RWFree ->
  (forall ptr, watching (store w) !! key = Some ptr ->
     exists g, wgs w !! ptr = Some g /\ lk g = RWFree) ->
  exists ptr wa g, SearchValue_group key w = Ret ptr wa
    /\ watching (store wa) !! key = Some ptr
    /\ wgs wa !! ptr = Some g /\ lk g = RWWriter
    /\ watchLk (store wa) = RWFree
    /\ mx (store wa) = mx (store w)
    /\ same_cache w wa.
Proof.
  intros Hlk Hw. unfold SearchValue_group, watchLk_Lock, watchLk_Unlock,
    wg_lk_Lock, wg_lk, wg_get, wg_put.
  run. rewrite Hlk. run.
  destruct (watching (store w) !! key) as [ptr|] eqn:Ew; run.
  - destruct (Hw ptr eq_refl) as (g & Hg & Hf). rewrite Hg. run. rewrite Hf. run.
    eexists ptr, _, _. split; [done|]. simpl. rewrite lookup_insert_eq.
    by repeat split.
  - rewrite lookup_insert_eq. run.
    eexists _, _, _. split; [done|]. simpl. rewrite !lookup_insert_eq.
    by repeat split.
Qed.

Lemma SearchValue_seed_spec w key v :
  getLocal_result w key = inl v ->
  exists wb, SearchValue_seed key w = Ret (next w) wb
    /\ chans wb !! next w = Some {| buf := [v]; cap := 1; closed := false |}
    /\ store wb = store w /\ wgs wb = wgs w /\ next wb = S (next w).
Proof.
  intros Hv. unfold SearchValue_seed, make_chan. run.
  match goal with |- context [getLocal key ?w0] =>
    destruct (getLocal_run w0 key) as (evs & -> & _);
    replace (getLocal_result w0 key) with (getLocal_result w key) by done end.
  rewrite Hv. unfold chan_send. run. rewrite lookup_insert_eq. run.
  eexists. split; [done|]. simpl. rewrite lookup_insert_eq. by repeat split.
Qed.

Lemma SearchValue_join_spec w ptr c out g :
  watchLk (store w) = RWFree ->
  wgs w !! ptr = Some g -> lk g = RWWriter -> out < next w ->
  exists wc, SearchValue_join ptr c out w = Ret tt wc
    /\ chans wc !! out = chans w !! out
    /\ watching (store wc) = watching (store w).
Proof.
  intros Hlk Hg Hw Hlt. unfold SearchValue_join, watchGroup_add, make_chan,
    watchLk_Lock, watchLk_Unlock, wg_lk_Unlock, wg_lk, wg_get, wg_put.
  run. rewrite Hlk. run. rewrite Hg. run. rewrite Hw. run.
  eexists. split; [done|]. simpl. split; [|done].
  rewrite lookup_insert_ne by lia. done.
Qed.

(** While a goroutine holds [wg.lk] for writing, [notifyWatchers] for
    the key of the group waits at its [RLock] and delivers nothing. *)
Lemma notifyWatchers_waits_for_writer w key ptr g data pick :
  watchLk (store w) = RWFree ->
  watching (store w) !! key = Some ptr ->
  wgs w !! ptr = Some g -> lk g = RWWriter ->
  exists wx, notifyWatchers key data pick w = Blocked wx /\ chans wx = chans w.
Proof.
  intros Hlk Hw Hg Hwr. unfold notifyWatchers, watchLk_RLock, watchLk_RUnlock,
    wg_lk_RLock, wg_lk, wg_get.
  run. rewrite Hlk. run. rewrite Hw. run. rewrite Hg. run. rewrite Hwr. run.
  eauto.
Qed.

(** The seed comes first.  A listener that joins through
    [SearchValue] while the cache holds a valid value [v] gets a channel
    whose only content is [v]; whatever the store does afterwards
    (messages handled and delivered, relay goroutines running, calls of
    [Subscribe], [PutValue] and [Cancel]), the first value read from the
    channel is [v].  The seed is read and put into the channel between
    [SearchValue_group] and [SearchValue_join], while [wg.lk] is held
    for writing, and in that interval [notifyWatchers] for the key
    cannot deliver. *)
Theorem seed_is_first_value w c key v :
  mx (store w) = false ->
  watchLk (store w) = RWFree ->
  (forall ptr, watching (store w) !! key = Some ptr ->
     exists g, wgs w !! ptr = Some g /\ lk g = RWFree) ->
  getLocal_result w key = inl v ->
  exists out ptr w',
    SearchValue c key None w = Ret (inl out) w'
    /\ chans w' !! out = Some {| buf := [v]; cap := 1; closed := false |}
    /\ watching (store w') !! key = Some ptr
    /\ (forall w'', rtc (delivery out) w' w'' ->
          exists w3, chan_recv out w'' = Ret (Some v) w3)
    /\ (exists w1 wa wb,
          Subscribe key None w = Ret None w1
          /\ SearchValue_group key w1 = Ret ptr wa
          /\ SearchValue_seed key wa = Ret out wb
          /\ SearchValue_join ptr c out wb = Ret tt w'
          /\ lk <$> wgs wa !! ptr = Some RWWriter
          /\ lk <$> wgs wb !! ptr = Some RWWriter
          /\ (forall data pick, exists wx,
                notifyWatchers key data pick wa = Blocked wx /\ chans wx = chans wa)
          /\ (forall data pick, exists wx,
                notifyWatchers key data pick wb = Blocked wx /\ chans wx = chans wb)).
Proof.
  intros Hmx Hlk Hw Hv.
  destruct (Subscribe_frame w key Hmx)
    as (w1 & Hsub & Hmx1 & Hlk1 & Hw1 & Hg1 & Hc1 & Hd1 & HV1).
  destruct (SearchValue_group_spec w1 key) as
    (ptr & wa & g & Hgrp & Hwa & Hga & Hwr & Hlka & Hmxa & Hda & HVa).
  { by rewrite Hlk1. }
  { intros ptr. rewrite Hw1, Hg1. apply Hw. }
  destruct (SearchValue_seed_spec wa key v) as (wb & Hseed & Hch & Hsb & Hgb & Hnb).
  { unfold getLocal_result in *. by rewrite Hda, Hd1, HVa, HV1. }
  destruct (SearchValue_join_spec wb ptr c (next wa) g) as (wc & Hjoin & Hcc & Hwc).
  { by rewrite Hsb. } { by rewrite Hgb. } { done. } { lia. }
  exists (next wa), ptr, wc.
  assert (Hout : chans wc !! next wa = Some {| buf := [v]; cap := 1; closed := false |})
    by (by rewrite Hcc).
  split.
  { unfold SearchValue. run. rewrite Hsub. run. rewrite Hgrp. run.
    rewrite Hseed. run. by rewrite Hjoin. }
  split; [done|]. split; [by rewrite Hwc, Hsb|]. split.
  { intros w'' Hreach. apply seeded_recv. eapply deliveries_seed; [done|].
    eexists. split; [done|]. done. }
  exists w1, wa, wb. repeat split; try done.
  - by rewrite Hga; simpl; rewrite Hwr.
  - by rewrite Hgb, Hga; simpl; rewrite Hwr.
  - intros data pick. by eapply notifyWatchers_waits_for_writer.
  - intros data pick. eapply notifyWatchers_waits_for_writer; rewrite ?Hsb, ?Hgb; done.
Qed.

(** ** Concurrent callers of Subscribe *)

(** Run alone, a caller's sections are [Subscribe]. *)
Lemma caller_run_Subscribe w key :
  caller_run 4 key AtLookup w = Subscribe key None w.
Proof.
  unfold Subscribe. simpl. run.
  destruct (Subscribe_lookup key w) as [[sub|] w1| | |]; run; try done.
  unfold Subscribe_connect, ps_RegisterTopicValidator, ps_Subscribe. run.
  match goal with |- context [Subscribe_install ?k ?s ?w0] =>
    destruct (Subscribe_install k s w0) as [i w3| | |] end; run; try done.
  match goal with |- context [Subscribe_finish ?k ?s ?i ?w0] =>
    destruct (Subscribe_finish k s i w0) as [e w4| | |] end; run; done.
Qed.


















(** ** PutValue, Subscribe and GetSubscriptions on their own *)

(** Taking and releasing [p.mx] leaves the world as it was. *)
Lemma mx_round_trip w :
  mx (store w) = false ->
  on_store (set_mx false) (on_store (set_mx true) w) = w.
Proof. destruct w as [[] ]; simpl. by intros ->. Qed.

Lemma PutValue_entry w key value res :
  mx (store w) = false ->
  exists w', PutValue key value res w = Ret res w'
    /\ subs (store w') = match subs (store w) !! key with
                         | Some _ => subs (store w)
                         | None => <[key := None]> (subs (store w))
                         end
    /\ mx (store w') = false.
Proof.
  intros Hmx. unfold_store. run. rewrite Hmx. run.
  destruct (subs (store w) !! key) as [e|]; run; by eexists.
Qed.

(** X1. [PutValue] publishes without validating and returns what the
    transport's [Publish] returns, error or nil.  A key that had no
    entry in [p.subs] gets a nil entry; an entry that is there, in
    particular an active subscription, is left as it is.  The cache,
    the watch groups and the channels are not touched. *)
Theorem X1_PutValue_publishes w key value res :
  mx (store w) = false ->
  exists w', PutValue key value res w = Ret res w'
    /\ head (log w') = Some (EvPublish key value)
    /\ (forall k v, EvValidate k v ∈ log w' -> EvValidate k v ∈ log w)
    /\ subs (store w') = match subs (store w) !! key with
                         | Some _ => subs (store w)
                         | None => <[key := None]> (subs (store w))
                         end
    /\ ds (store w') = ds (store w)
    /\ watching (store w') = watching (store w)
    /\ wgs w' = wgs w /\ chans w' = chans w
    /\ mx (store w') = false.
Proof.
  intros Hmx. unfold_store. run. rewrite Hmx. run.
  destruct (subs (store w) !! key) as [e|]; run;
    (eexists; split; [done|]); simpl; (split; [done|]);
    (split; [|done]); intros k v Hin;
    repeat (apply elem_of_cons in Hin as [[=]|Hin]); done.
Qed.

(** X2. A [Subscribe] that returned nil has left an active subscription
    for the key, and every later [Subscribe] for the key returns nil at
    once: it changes nothing and does not go to the transport, whatever
    the transport would answer. *)
Theorem X2_Subscribe_is_idempotent w key res res' w1 :
  mx (store w) = false ->
  Subscribe key res w = Ret None w1 ->
  (exists sub, subs (store w1) !! key = Some (Some sub))
  /\ Subscribe key res' w1 = Ret None w1.
Proof.
  intros Hmx Hsub.
  assert (Hact : exists sub, subs (store w1) !! key = Some (Some sub)
                   /\ mx (store w1) = false).
  { revert Hsub. unfold_store. run. rewrite Hmx. run.
    destruct (subs (store w) !! key) as [[sub|]|] eqn:Ek; run.
    - intros [= <-]. simpl. eauto.
    - destruct res; run; [done|]. rewrite Ek. run. intros [= <-]. simpl.
      rewrite lookup_insert_eq. eauto.
    - destruct res; run; [done|]. rewrite Ek. run. intros [= <-]. simpl.
      rewrite lookup_insert_eq. eauto. }
  destruct Hact as (sub & Hs & Hmx1). split; [eauto|].
  unfold_store. run. rewrite Hmx1. run. rewrite Hs. run.
  by rewrite mx_round_trip.
Qed.

(** X3. [Subscribe] for a key without an active subscription, on a
    transport that accepts: it registers the topic validator, then
    subscribes, installs the new subscription, starts its message loop
    and, only if the key had no entry at all, starts the bootstrap; it
    returns nil.  The entries of other keys are as before. *)
Theorem X3_Subscribe_installs w key :
  mx (store w) = false ->
  entry key w = None ->
  exists w', Subscribe key None w = Ret None w'
    /\ subs (store w') = <[key := Some (next w)]> (subs (store w))
    /\ log w' = (if touched key w then [] else [EvBootstrap key true])
                ++ [EvGoHandleSubscription (next w) key;
                    EvSubscribe key (inl (next w));
                    EvRegisterTopicValidator key] ++ log w
    /\ next w < next w'
    /\ mx (store w') = false.
Proof.
  intros Hmx He. unfold entry in He. unfold touched. unfold_store. run.
  rewrite Hmx. run. rewrite He. run. rewrite He. run.
  destruct (subs (store w) !! key) as [e|] eqn:Ek; run.
  - eexists. split; [done|]. simpl. repeat split; try done. lia.
  - eexists. split; [done|]. simpl. repeat split; try done. lia.
Qed.

(** X4. [GetSubscriptions] changes nothing and returns, without
    repetition, exactly the keys that have an entry in [p.subs]: those
    with an active subscription and those that were only published to.
    So a key is listed right after a [PutValue] on it. *)
Theorem X4_GetSubscriptions_lists_entries w :
  mx (store w) = false ->
  exists l, GetSubscriptions w = Ret l w
    /\ NoDup l
    /\ (forall k, k ∈ l <-> is_Some (subs (store w) !! k))
    /\ (forall key value res l',
          value_of (GetSubscriptions (world_of (PutValue key value res w))) = Some l' ->
          key ∈ l').
Proof.
  intros Hmx.
  assert (Hget : forall w0 : World D, mx (store w0) = false ->
    GetSubscriptions w0 = Ret (elements (dom (subs (store w0)))) w0).
  { intros w0 H0. unfold GetSubscriptions. unfold_store. run. rewrite H0. run.
    by rewrite mx_round_trip. }
  eexists. split; [by apply Hget|]. split; [apply NoDup_elements|]. split.
  - intros k. by rewrite elem_of_elements, elem_of_dom.
  - intros key value res l'.
    destruct (PutValue_entry w key value res Hmx) as (w' & -> & Hs & Hm).
    simpl. rewrite (Hget w' Hm). simpl. intros [= <-].
    rewrite elem_of_elements, elem_of_dom, Hs.
    destruct (subs (store w) !! key) eqn:Ek; [by rewrite Ek|].
    rewrite lookup_insert_eq. eauto.
Qed.

(** ** The message loop *)

Lemma same_subs_refl : Reflexive (@same_subs D).
Proof. by intros w. Qed.

Lemma same_subs_trans : Transitive (@same_subs D).
Proof. intros w1 w2 w3 [? ?] [? ?]. split; congruence. Qed.

(** [notifyWatchers] keeps whatever taking locks and sending on
    channels keep. *)
Lemma notifyWatchers_keeps (R : relation (World D)) key data pick :
  Reflexive R -> Transitive R ->
  (forall l, keeps R (modify (on_store (set_watchLk l)))) ->
  (forall op msg ptr, keeps R (wg_lk op msg ptr)) ->
  (forall c v, keeps R (chan_send c v)) ->
  keeps R (notifyWatchers key data pick).
Proof.
  intros Hrefl Htrans Hstore Hlk Hsend.
  assert (Hwl : forall op msg, keeps R (fun w : World D =>
    match op (watchLk (store w)) with
    | Some l => Ret tt (on_store (set_watchLk l) w)
    | None => match msg with Some m => Fatal m w | None => Blocked w end
    end)).
  { intros op msg w. destruct (op _) as [l|]; [apply (Hstore l w)|].
    destruct msg; apply Hrefl. }
  assert (Heach : forall ptr ls, keeps R (notify_each ptr data pick ls)).
  { intros ptr ls. induction ls as [|l ls IH]; simpl; [by apply keeps_ret|].
    apply keeps_bind; [done| |done]. intros w. unfold notify_one. run.
    destruct (_ !! _) as [[]|]; try apply Hrefl. apply Hsend. }
  unfold notifyWatchers.
  apply keeps_bind; [done|apply (Hwl rw_RLock None)|]. intros _.
  apply keeps_bind; [done|intros w; apply Hrefl|]. intros w.
  apply keeps_bind; [done|apply (Hwl rw_RUnlock (Some _))|]. intros _.
  destruct (watching (store w) !! key) as [ptr|]; [|by apply keeps_ret].
  apply keeps_bind; [done|apply Hlk|]. intros _.
  apply keeps_bind; [done|intros w'; unfold wg_get; case_match; apply Hrefl|].
  intros g. apply keeps_bind; [done|apply Heach|]. intros _. apply Hlk.
Qed.

Lemma handleMessage_store_subs key data : keeps (D:=D) same_subs (handleMessage_store key data).
Proof.
  unfold handleMessage_store.
  apply keeps_bind; [apply same_subs_trans| |].
  { intros w. destruct (getLocal_run w key) as (evs & Hg & _).
    unfold isBetter, call_Validate, call_Select. run.
    destruct (Validate _ _ _); run; [done|].
    match goal with |- context [getLocal key ?w0] =>
      destruct (getLocal_run w0 key) as (evs' & -> & _) end.
    destruct (getLocal_result _ _) as [old|]; run; [|done].
    by destruct (bytes_Equal old data). }
  intros [|]; [|chans_ok]. unfold ds_Put_local. chans_ok.
Qed.

Lemma handleMessage_subs key data pick : keeps (D:=D) same_subs (handleMessage key data pick).
Proof.
  unfold handleMessage.
  apply keeps_bind; [apply same_subs_trans|apply handleMessage_store_subs|].
  intros [|]; [|apply keeps_ret, same_subs_refl].
  apply notifyWatchers_keeps;
    [apply same_subs_refl|apply same_subs_trans|chans_ok| |].
  - intros op msg ptr. unfold wg_lk, wg_get, wg_put. chans_ok.
  - intros c v. unfold chan_send. chans_ok.
Qed.

(** What the loop leaves when it ends: the deferred calls have run and
    [p.subs] is as it was. *)
Lemma handleSubscription_exit sub key c pick datas err rest : forall w w',
  handleSubscription sub key c pick (map inl datas ++ inr err :: rest) w = Ret tt w' ->
  ctx_Done w' c = true
  /\ head (log w') = Some (EvSubCancel sub)
  /\ (err <> context_Canceled ->
      EvWarning "PubsubResolve: subscription error" ∈ log w')
  /\ same_subs w w'.
Proof.
  induction datas as [|d datas IH]; intros w w'; simpl.
  - unfold_store. run. destruct (decide (err = context_Canceled)) as [->|Hne]; run;
      intros [= <-]; unfold ctx_Done; simpl;
      (rewrite bool_decide_eq_true_2 by set_solver); repeat split; try done.
    intros _. apply list_elem_of_further, list_elem_of_here.
  - run. pose proof (handleMessage_subs key d pick w) as Hs.
    destruct (handleMessage key d pick w) as [[] w1| | |]; try done.
    intros Hrest. destruct (IH w1 w' Hrest) as (? & ? & ? & Hs').
    repeat split; try done; by eapply same_subs_trans.
Qed.



(** X6. A loop that has ended is not started again by [Subscribe]: the
    cancelled subscription is still the key's entry, so [Subscribe]
    returns nil at once, without subscribing and without a new loop. *)
Theorem X6_ended_loop_is_not_restarted w sub key c pick datas err rest w' res :
  mx (store w) = false ->
  subs (store w) !! key = Some (Some sub) ->
  handleSubscription sub key c pick (map inl datas ++ inr err :: rest) w = Ret tt w' ->
  sub ∈ cancels (log w')
  /\ subs (store w') !! key = Some (Some sub)
  /\ Subscribe key res w' = Ret None w'.
Proof.
  intros Hmx Hs Hrun.
  destruct (handleSubscription_exit _ _ _ _ _ _ _ _ _ Hrun) as (_ & Hh & _ & [Hs' Hmx']).
  rewrite Hmx in Hmx'. rewrite <- Hs' in Hs. split; [|split; [done|]].
  - destruct (log w') as [|e l]; [done|]. injection Hh as ->. apply list_elem_of_here.
  - unfold_store. run. rewrite Hmx'. run. rewrite Hs. run. by rewrite mx_round_trip.
Qed.

(** ** Messages and the cache *)

Lemma puts_cons key e l :
  puts key (e :: l)
  = puts key l ++ match e with
                  | EvPut k data => if decide (k = key) then [data] else []
                  | _ => []
                  end.
Proof.
  unfold puts. rewrite reverse_cons, omap_app. f_equal.
  destruct e; simpl; try done. by case_decide.
Qed.

(** [isBetter] writes only calls of the validator to the log, and a
    candidate it accepts has passed [Validate]. *)
Lemma isBetter_run w key val :
  exists b evs, isBetter key val w = Ret b (set_log (evs ++ log w) w)
    /\ puts key (evs ++ log w) = puts key (log w)
    /\ (b = true -> Validate (Validator (store w)) key val = None).
Proof.
  unfold isBetter, call_Validate, call_Select. run.
  destruct (Validate (Validator (store w)) key val) as [e|] eqn:Ev; run.
  { eexists false, [_]. split; [done|]. split; [|done]. simpl.
    by rewrite puts_cons, app_nil_r. }
  match goal with |- context [getLocal key ?w0] =>
    unfold getLocal, call_Validate; run;
    destruct (ds_Get (ds (store w)) (NewKeyFromBinary key)) as [old|e]; run end.
  2: { eexists true, [_]. split; [done|]. split; [|done]. simpl.
       by rewrite puts_cons, app_nil_r. }
  destruct (Validate (Validator (store w)) key old); run.
  { eexists true, [_; _]. split; [done|]. split; [|done]. simpl.
    by rewrite !puts_cons, !app_nil_r. }
  destruct (bytes_Equal old val); run.
  - eexists true, [_; _]. split; [done|]. split; [|done]. simpl.
    by rewrite !puts_cons, !app_nil_r.
  - eexists _, [_; _; _]. split; [done|]. split; [|done]. simpl.
    by rewrite !puts_cons, !app_nil_r.
Qed.

(** ** Delivery to listeners that have room *)

Lemma set_chans_id w : set_chans (chans w) w = w.
Proof. by destruct w. Qed.

Lemma watchLk_round_trip w : on_store (set_watchLk (watchLk (store w))) w = w.
Proof. by destruct w as [[] ]. Qed.

(** A [select] with a ready case takes one of the ready cases. *)
Lemma pick_ready {A} (cases : list A) (n : nat) :
  cases <> [] -> exists x, cases !! (n `mod` length cases) = Some x /\ x ∈ cases.
Proof.
  intros Hne. destruct (lookup_lt_is_Some_2 cases (n `mod` length cases)) as [x Hx].
  { apply Nat.mod_upper_bound. by destruct cases. }
  exists x. split; [done|]. by eapply list_elem_of_lookup_2.
Qed.

(** Over listeners that all have room the loop of [notifyWatchers]
    does not wait; it changes channels only, and of those only the
    listeners', each by at most one value. *)
Lemma notify_each_room ptr data pick ls : forall w,
  NoDup ls.*1 ->
  (forall l, l ∈ ls -> has_room w l.1) ->
  exists cs, notify_each ptr data pick ls w = Ret tt (set_chans cs w)
    /\ (forall out, out ∉ ls.*1 -> cs !! out = chans w !! out)
    /\ (forall l ch, l ∈ ls -> chans w !! l.1 = Some ch ->
          (cs !! l.1 = Some ch \/ cs !! l.1 = Some (pushed data ch))
          /\ (default false (closing <$> wgs w !! ptr) = false ->
              ctx_Done w l.2 = false -> cs !! l.1 = Some (pushed data ch))).
Proof.
  induction ls as [|l ls IH]; intros w Hnd Hroom; simpl.
  { exists (chans w). run. rewrite set_chans_id. split; [done|]. split; [done|].
    by intros ?? ?%elem_of_nil. }
  apply NoDup_cons in Hnd as [Hl Hnd].
  destruct (Hroom l ltac:(left)) as (ch & Hch & Hop & Hlen).
  assert (Hone : exists cs1, notify_one ptr data pick l w = Ret tt (set_chans cs1 w)
    /\ (cs1 = chans w \/ cs1 = <[l.1 := pushed data ch]> (chans w))
    /\ (default false (closing <$> wgs w !! ptr) = false ->
        ctx_Done w l.2 = false -> cs1 = <[l.1 := pushed data ch]> (chans w))).
  { assert (Hsend : can_send w l.1 = true).
    { unfold can_send. rewrite Hch, Hop. simpl. by apply bool_decide_eq_true_2. }
    destruct (pick_ready (notify_ready w ptr l.1 l.2) (pick l.1)) as (x & Hx & Hin).
    { unfold notify_ready. by rewrite Hsend. }
    unfold notify_one. run. rewrite Hx.
    assert (Hpush : chan_send l.1 data w
                    = Ret tt (set_chans (<[l.1 := pushed data ch]> (chans w)) w)).
    { unfold chan_send. rewrite Hch, Hop. by rewrite bool_decide_eq_true_2. }
    unfold notify_ready in Hin. rewrite Hsend in Hin.
    destruct x.
    - rewrite Hpush. eexists. split; [done|]. split; [by right|done].
    - exists (chans w). rewrite set_chans_id. split; [done|]. split; [by left|].
      intros Hc Hd. rewrite Hc, Hd in Hin. simpl in Hin.
      by apply list_elem_of_singleton in Hin.
    - exists (chans w). rewrite set_chans_id. split; [done|]. split; [by left|].
      intros Hc Hd. rewrite Hc, Hd in Hin. simpl in Hin.
      by apply list_elem_of_singleton in Hin. }
  destruct Hone as (cs1 & Hrun1 & Hcs1 & Hlive1).
  assert (Hother : forall out, out <> l.1 -> cs1 !! out = chans w !! out).
  { intros out Hne. destruct Hcs1 as [->| ->]; [done|]. by rewrite lookup_insert_ne. }
  destruct (IH (set_chans cs1 w) Hnd) as (cs & Hrun & Hrest & Hls).
  { intros l' Hin. destruct (Hroom l' ltac:(by right)) as (ch' & Hch' & ?).
    exists ch'. split; [|done]. simpl. rewrite Hother; [done|].
    intros Heq. apply Hl. rewrite <- Heq. by apply list_elem_of_fmap_2. }
  exists cs. split.
  { cbv [mbind M_bind]. rewrite Hrun1. exact Hrun. }
  split.
  { intros out Hout. apply not_elem_of_cons in Hout as [Hne Hout].
    rewrite (Hrest out Hout). by apply Hother. }
  intros l' ch' [->|Hin]%elem_of_cons Hch'.
  - rewrite Hch in Hch'. injection Hch' as <-. rewrite (Hrest _ Hl). simpl. split.
    + destruct Hcs1 as [->| ->]; [by left|right; by rewrite lookup_insert_eq].
    + intros Hc Hd. by rewrite (Hlive1 Hc Hd), lookup_insert_eq.
  - apply (Hls l' ch' Hin). simpl. rewrite Hother; [done|].
    intros Heq. apply Hl. rewrite <- Heq. by apply list_elem_of_fmap_2.
Qed.

(** X10. When every listener of the key's watch group has room in its
    channel, [notifyWatchers] returns, with the locks as they were: it
    has given each listener at most one copy of the record, and exactly
    one to each listener whose context is live while the group is not
    closing; no other channel and nothing else of the state has
    changed. *)
Theorem X10_notify_reaches_listeners_with_room w key ptr g data pick :
  watchLk (store w) = RWFree ->
  watching (store w) !! key = Some ptr ->
  wgs w !! ptr = Some g ->
  lk g = RWFree ->
  (forall out c, listeners g !! out = Some c -> has_room w out) ->
  exists cs, notifyWatchers key data pick w = Ret tt (set_chans cs w)
    /\ (forall out, listeners g !! out = None -> cs !! out = chans w !! out)
    /\ (forall out c ch, listeners g !! out = Some c -> chans w !! out = Some ch ->
          (cs !! out = Some ch \/ cs !! out = Some (pushed data ch))
          /\ (closing g = false -> ctx_Done w c = false ->
              cs !! out = Some (pushed data ch))).
Proof.
  intros Hlk Hw Hg Hfree Hroom.
  unfold notifyWatchers, watchLk_RLock, watchLk_RUnlock,
    wg_lk_RLock, wg_lk_RUnlock, wg_lk, wg_get, wg_put.
  run. rewrite Hlk. run. rewrite Hw. run. rewrite Hg. run. rewrite Hfree. run.
  rewrite lookup_insert_eq. run.
  match goal with |- context [notify_each ptr data pick ?ls ?w0] =>
    destruct (notify_each_room ptr data pick ls w0) as (cs & Hrun & Hrest & Hls) end.
  { apply NoDup_fst_map_to_list. }
  { intros [out c] Hin%elem_of_map_to_list. simpl in Hin.
    destruct (Hroom out c Hin) as (ch & ?). by exists ch. }
  rewrite Hrun. run. rewrite lookup_insert_eq. run.
  exists cs. split.
  { f_equal. unfold set_chans, set_wgs, on_store. simpl. f_equal.
    - rewrite <- Hlk. by destruct (store w).
    - rewrite insert_insert_eq. apply insert_id. rewrite Hg. f_equal.
      rewrite <- Hfree. by destruct g. }
  split.
  { intros out Hout. rewrite (Hrest out); [done|].
    intros ((o & c) & -> & Hin%elem_of_map_to_list)%list_elem_of_fmap.
    simpl in *. congruence. }
  intros out c ch Hl Hch.
  destruct (Hls (out, c) ch) as [H1 H2]; [by apply elem_of_map_to_list|done|].
  split; [done|]. intros Hc Hd. apply H2; simpl; [|done].
  rewrite lookup_insert_eq. simpl. done.
Qed.

(** ** What a stalled delivery holds up *)

(** Over open listener channels the loop of [notifyWatchers] returns or
    waits; it changes channels only. *)
Lemma notify_each_open ptr data pick ls : forall w,
  (forall l, l ∈ ls -> is_open w l.1) ->
  exists cs, notify_each ptr data pick ls w = Ret tt (set_chans cs w)
             \/ notify_each ptr data pick ls w = Blocked (set_chans cs w).
Proof.
  induction ls as [|l ls IH]; intros w Hopen; simpl.
  { exists (chans w). left. run. by rewrite set_chans_id. }
  destruct (Hopen l ltac:(left)) as (ch & Hch & Hop).
  assert (Hone : exists cs1,
    (notify_one ptr data pick l w = Ret tt (set_chans cs1 w)
     \/ notify_one ptr data pick l w = Blocked (set_chans cs1 w))
    /\ (cs1 = chans w \/ cs1 = <[l.1 := pushed data ch]> (chans w))).
  { unfold notify_one. run.
    destruct (notify_ready w ptr l.1 l.2 !! _) as [[]|]; run.
    - unfold chan_send. rewrite Hch, Hop. case_bool_decide.
      + eexists. split; [by left|by right].
      + exists (chans w). rewrite set_chans_id. split; [by right|by left].
    - exists (chans w). rewrite set_chans_id. split; [by left|by left].
    - exists (chans w). rewrite set_chans_id. split; [by left|by left].
    - exists (chans w). rewrite set_chans_id. split; [by right|by left]. }
  destruct Hone as (cs1 & [Hrun1|Hrun1] & Hcs1); cbv [mbind M_bind]; rewrite Hrun1.
  - destruct (IH (set_chans cs1 w)) as (cs & Hrun).
    { intros l' Hin. destruct (Hopen l' ltac:(by right)) as (ch' & Hch' & Hop').
      destruct Hcs1 as [->| ->]; [by exists ch'|].
      destruct (decide (l'.1 = l.1)) as [Heq|Hne].
      - exists (pushed data ch). simpl. by rewrite Heq, lookup_insert_eq.
      - exists ch'. simpl. by rewrite lookup_insert_ne. }
    exists cs. exact Hrun.
  - exists cs1. by right.
Qed.

Lemma Subscribe_active w key sub res :
  mx (store w) = false -> subs (store w) !! key = Some (Some sub) ->
  Subscribe key res w = Ret None w.
Proof.
  intros Hmx Hs. unfold_store. run. rewrite Hmx. run. rewrite Hs. run.
  f_equal. by apply mx_round_trip.
Qed.

(** X11. One listener that does not read stalls the whole store.  With
    its channel full, [notifyWatchers] for its key waits inside the loop
    and keeps the group's lock for reading.  A [SearchValue] for the key
    then waits for that lock while it holds [p.watchLk] for writing.
    From then on [notifyWatchers] waits for every key, and [Cancel] of
    a name whose entry is absent or active waits for [p.watchLk] while
    it holds [p.mx], after which [PutValue], [Subscribe] and
    [GetSubscriptions] wait as well.  [Cancel] of a name whose entry is
    nil does not get that far: it panics on line 233 and its deferred
    call releases [p.mx], so it is not such a [Cancel] that stalls the
    other calls. *)
Theorem X11_slow_listener_stalls_the_store w key sub ptr g out ch c data pick :
  mx (store w) = false ->
  watchLk (store w) = RWFree ->
  subs (store w) !! key = Some (Some sub) ->
  watching (store w) !! key = Some ptr ->
  wgs w !! ptr = Some g ->
  lk g = RWFree ->
  (forall o c', listeners g !! o = Some c' -> is_open w o) ->
  listeners g !! out = Some c ->
  pending_full ptr out ch c w ->
  exists wx,
    notifyWatchers key data pick w = Blocked wx
    /\ lk <$> wgs wx !! ptr = Some (RWReaders 1)
    /\ forall c' res, exists wy,
         SearchValue c' key res wx = Blocked wy
         /\ watchLk (store wy) = RWWriter
         /\ (forall key' data' pick',
               is_blocked (notifyWatchers key' data' pick' wy) = true)
         /\ (forall name, subs (store w) !! name <> Some None -> exists wz,
              Cancel name wy = Blocked wz
              /\ mx (store wz) = true
              /\ (forall k v r, is_blocked (PutValue k v r wz) = true)
              /\ (forall k r, is_blocked (Subscribe k r wz) = true)
              /\ is_blocked (GetSubscriptions wz) = true)
         /\ (forall name, subs (store w) !! name = Some None -> exists wp,
              Cancel name wy
              = Panic "invalid memory address or nil pointer dereference" wp
              /\ mx (store wp) = false
              /\ watchLk (store wp) = RWWriter
              /\ subs (store wp) !! name = Some None).
Proof.
  intros Hmx Hlk Hs Hw Hg Hfree Hopen Hl Hp.
  assert (Hrun : exists cs, notifyWatchers key data pick w
    = Blocked (set_chans cs (set_wgs (<[ptr := set_lk (RWReaders 1) g]> (wgs w)) w))).
  { unfold notifyWatchers, watchLk_RLock, watchLk_RUnlock,
      wg_lk_RLock, wg_lk_RUnlock, wg_lk, wg_get, wg_put.
    run. rewrite Hlk. run. rewrite Hw. run. rewrite Hg. run. rewrite Hfree. run.
    rewrite lookup_insert_eq. run.
    match goal with |- context [notify_each ptr data pick ?ls ?w0] =>
      destruct (notify_each_pending ptr out ch c data pick ls w0) as [_ Hv];
      [|specialize (Hv ltac:(by apply elem_of_map_to_list));
        destruct (notify_each_open ptr data pick ls w0) as (cs & [Hr|Hr])] end.
    - destruct Hp as (Hcl & Hch & Hop & Hfull & Hctx).
      rewrite Hg in Hcl. injection Hcl as Hcl.
      split; [simpl; rewrite lookup_insert_eq; simpl; by rewrite Hcl|]. done.
    - intros [o c'] Hin%elem_of_map_to_list. apply (Hopen o c' Hin).
    - by rewrite Hr in Hv.
    - rewrite Hr. exists cs. f_equal. unfold set_chans, set_wgs, on_store. simpl.
      f_equal. rewrite <- Hlk. by destruct (store w). }
  destruct Hrun as (cs & Hrun). eexists. split; [exact Hrun|].
  split; [simpl; by rewrite lookup_insert_eq|].
  intros c' res.
  match goal with |- context [SearchValue c' key res ?w0] => set (wx := w0) end.
  exists (on_store (set_watchLk RWWriter) wx). split.
  { unfold SearchValue. run. rewrite (Subscribe_active wx key sub res Hmx Hs).
    unfold SearchValue_group, watchLk_Lock, wg_lk_Lock, wg_lk, wg_get.
    run. rewrite Hlk. run. rewrite Hw. run. rewrite lookup_insert_eq. run. done. }
  split; [done|]. split.
  { intros key' data' pick'. by unfold notifyWatchers, watchLk_RLock. }
  split.
  - intros name Hname.
    destruct (subs (store w) !! name) as [[s|]|] eqn:Es; [| done |].
    + eexists. split.
      { unfold_store. run. rewrite Hmx. run. rewrite Es. run. done. }
      split; [done|]. split; [|split]; intros; by unfold_store; unfold GetSubscriptions, mx_Lock.
    + eexists. split.
      { unfold_store. run. rewrite Hmx. run. rewrite Es. run. done. }
      split; [done|]. split; [|split]; intros; by unfold_store; unfold GetSubscriptions, mx_Lock.
  - intros name Es. eexists. split.
    { unfold_store. run. rewrite Hmx. run. rewrite Es. run. done. }
    simpl. split; [done|]. split; [done|]. exact Es.
Qed.

(** ** A new listener before its goroutine has run *)

Lemma Subscribe_next w key res : next w <= next (world_of (Subscribe key res w)).
Proof.
  unfold_store. run. destruct (mx (store w)); run; [lia|].
  destruct (subs (store w) !! key) as [[sub|]|] eqn:Ek; destruct res; run;
    rewrite ?Ek; run; lia.
Qed.

Lemma Subscribe_relays w key res : relays (world_of (Subscribe key res w)) = relays w.
Proof.
  unfold_store. run. destruct (mx (store w)); run; [done|].
  destruct (subs (store w) !! key) as [[sub|]|] eqn:Ek; destruct res; run;
    rewrite ?Ek; run; done.
Qed.

Lemma SearchValue_group_run w key :
  watchLk (store w) = RWFree ->
  (forall ptr, watching (store w) !! key = Some ptr ->
     exists g, wgs w !! ptr = Some g /\ lk g = RWFree) ->
  exists ptr wa g, SearchValue_group key w = Ret ptr wa
    /\ watching (store wa) = <[key := ptr]> (watching (store w))
    /\ (forall p, watching (store w) !! key = Some p -> p = ptr)
    /\ wgs wa !! ptr = Some g /\ lk g = RWWriter
    /\ (listeners g = ∅ \/ exists g0, wgs w !! ptr = Some g0 /\ listeners g = listeners g0)
    /\ watchLk (store wa) = RWFree
    /\ mx (store wa) = mx (store w)
    /\ same_cache w wa
    /\ next w <= next wa /\ chans wa = chans w /\ relays wa = relays w
    /\ wgs wa = <[ptr := g]> (wgs w).
Proof.
  intros Hlk Hw. unfold SearchValue_group, watchLk_Lock, watchLk_Unlock,
    wg_lk_Lock, wg_lk, wg_get, wg_put.
  run. rewrite Hlk. run.
  destruct (watching (store w) !! key) as [ptr|] eqn:Ew; run.
  - destruct (Hw ptr eq_refl) as (g & Hg & Hf). rewrite Hg. run. rewrite Hf. run.
    eexists ptr, _, _. split; [done|]. simpl. rewrite lookup_insert_eq.
    split; [by rewrite insert_id|]. split; [by intros ? [= ->]|].
    split; [done|]. split; [done|]. split; [right; by exists g|].
    by repeat split.
  - rewrite lookup_insert_eq. run.
    eexists _, _, _. split; [done|]. simpl. rewrite !lookup_insert_eq.
    split; [done|]. split; [done|]. split; [done|]. split; [done|].
    split; [by left|]. rewrite insert_insert_eq. repeat split; try done. lia.
Qed.

Lemma SearchValue_seed_run w key :
  exists wb, SearchValue_seed key w = Ret (next w) wb
    /\ chans wb !! next w
       = Some {| buf := match getLocal_result w key with
                        | inl v => [v]
                        | inr _ => []
                        end;
                 cap := 1; closed := false |}
    /\ store wb = store w /\ wgs wb = wgs w /\ next wb = S (next w)
    /\ relays wb = relays w /\ ctx_done wb = ctx_done w.
Proof.
  unfold SearchValue_seed, make_chan. run.
  match goal with |- context [getLocal key ?w0] =>
    destruct (getLocal_run w0 key) as (evs & -> & _);
    replace (getLocal_result w0 key) with (getLocal_result w key) by done end.
  destruct (getLocal_result w key) as [v|e]; run.
  - unfold chan_send. run. rewrite lookup_insert_eq. run.
    eexists. split; [done|]. simpl. rewrite lookup_insert_eq. by repeat split.
  - eexists. split; [done|]. simpl. rewrite lookup_insert_eq. by repeat split.
Qed.

Lemma SearchValue_join_run w ptr c out g :
  watchLk (store w) = RWFree ->
  wgs w !! ptr = Some g -> lk g = RWWriter -> out < next w ->
  exists wc, SearchValue_join ptr c out w = Ret tt wc
    /\ chans wc !! out = chans w !! out
    /\ store wc = store w
    /\ wgs wc = <[ptr := set_lk RWFree g]> (wgs w)
    /\ relays wc = relays w ++ [{| r_wg := ptr; r_ctx := c; r_outCh := out;
                                   r_proxy := next w; r_pc := RelayNew |}]
    /\ ctx_done wc = ctx_done w /\ next wc = S (next w).
Proof.
  intros Hlk Hg Hw Hlt. unfold SearchValue_join, watchGroup_add, make_chan,
    watchLk_Lock, watchLk_Unlock, wg_lk_Unlock, wg_lk, wg_get, wg_put.
  run. rewrite Hlk. run. rewrite Hg. run. rewrite Hw. run.
  eexists. split; [done|]. simpl. split; [by rewrite lookup_insert_ne by lia|].
  split; [|done]. rewrite <- Hlk. by destruct (store w).
Qed.

(** The group that [SearchValue] makes for a key that has none. *)
Lemma SearchValue_group_new w key :
  watchLk (store w) = RWFree ->
  watching (store w) !! key = None ->
  exists wa, SearchValue_group key w = Ret (next w) wa
    /\ wgs wa = <[next w := {| lk := RWWriter; closing := false; listeners := ∅ |}]> (wgs w)
    /\ watching (store wa) = <[key := next w]> (watching (store w))
    /\ watchLk (store wa) = RWFree
    /\ next wa = S (next w)
    /\ chans wa = chans w /\ relays wa = relays w /\ ctx_done wa = ctx_done w
    /\ same_cache w wa.
Proof.
  intros Hlk Hw. unfold SearchValue_group, watchLk_Lock, watchLk_Unlock,
    wg_lk_Lock, wg_lk, wg_get, wg_put.
  run. rewrite Hlk. run. rewrite Hw. run. rewrite lookup_insert_eq. run.
  eexists. split; [done|]. simpl. rewrite insert_insert_eq. by repeat split.
Qed.

(** The loop of [notifyWatchers] leaves the channels alone that are
    not among the listeners. *)
Lemma notify_each_other ptr data pick out ls : forall w,
  out ∉ ls.*1 ->
  chans (world_of (notify_each ptr data pick ls w)) !! out = chans w !! out.
Proof.
  induction ls as [|l ls IH]; intros w Hout; simpl; [done|].
  apply not_elem_of_cons in Hout as [Hne Hout].
  assert (Hone : chans (world_of (notify_one ptr data pick l w)) !! out = chans w !! out).
  { unfold notify_one. run.
    destruct (notify_ready w ptr l.1 l.2 !! _) as [[]|]; run; try done.
    unfold chan_send. repeat case_match; simpl; try done.
    by rewrite lookup_insert_ne. }
  cbv [mbind M_bind].
  destruct (notify_one ptr data pick l w) as [[] w1| | |]; simpl in *; try done.
  by rewrite IH.
Qed.

(** [notifyWatchers] leaves a channel alone that is not among the
    listeners of the key's group. *)
Lemma notifyWatchers_other w key data pick (out : Chan) :
  (forall ptr g, watching (store w) !! key = Some ptr -> wgs w !! ptr = Some g ->
     listeners g !! out = None) ->
  chans (world_of (notifyWatchers key data pick w)) !! out = chans w !! out.
Proof.
  intros Hout.
  unfold notifyWatchers, watchLk_RLock, watchLk_RUnlock,
    wg_lk_RLock, wg_lk_RUnlock, wg_lk, wg_get, wg_put. run.
  destruct (rw_RLock (watchLk (store w))) as [l1|]; run; [|done].
  destruct (rw_RUnlock l1) as [l2|]; run; [|done].
  destruct (watching (store w) !! key) as [ptr|] eqn:Ew; run; [|done].
  destruct (wgs w !! ptr) as [g|] eqn:Eg; run; [|done].
  destruct (rw_RLock (lk g)) as [l3|]; run; [|done].
  rewrite lookup_insert_eq. run.
  assert (Hnot : out ∉ (map_to_list (listeners g)).*1).
  { intros ((o & c') & Ho & Hin%elem_of_map_to_list)%list_elem_of_fmap.
    simpl in *. subst o. by rewrite (Hout ptr g eq_refl Eg) in Hin. }
  match goal with |- context [notify_each ptr data pick ?ls ?w0] =>
    pose proof (notify_each_other ptr data pick out ls w0 Hnot) as Hother;
    destruct (notify_each ptr data pick ls w0) as [[] wn| | |] end;
    simpl in *; run; try done.
  destruct (wgs wn !! ptr) as [g'|]; simpl; [|done].
  destruct (rw_RUnlock (lk g')); done.
Qed.

(** The verdict on a message and the write to the cache return, and
    leave the watch path alone. *)
Lemma handleMessage_store_frame w key data :
  exists b ws, handleMessage_store key data w = Ret b ws
    /\ watching (store ws) = watching (store w)
    /\ wgs ws = wgs w /\ chans ws = chans w.
Proof.
  destruct (isBetter_run w key data) as (b & evs & Hb & _).
  unfold handleMessage_store, ds_Put_local. run. rewrite Hb.
  destruct b; run; [|by eexists _, _].
  destruct (ds_Put _ _ _).2; by eexists _, _.
Qed.

Lemma handleMessage_other w key data pick (out : Chan) :
  (forall ptr g, watching (store w) !! key = Some ptr -> wgs w !! ptr = Some g ->
     listeners g !! out = None) ->
  chans (world_of (handleMessage key data pick w)) !! out = chans w !! out.
Proof.
  intros Hout.
  destruct (handleMessage_store_frame w key data) as (b & ws & Hrun & Hws & Hgs & Hc).
  unfold handleMessage. run. rewrite Hrun. destruct b; simpl; [|by rewrite Hc].
  rewrite notifyWatchers_other; [by rewrite Hc|].
  intros ptr g. rewrite Hws, Hgs. apply Hout.
Qed.

Lemma relay_start_cache i : keeps (D:=D) same_cache (relay_start i).
Proof.
  unfold relay_start, context_WithCancel, wg_get, wg_put, relay_set_pc. chans_ok.
Qed.

(** What [SearchValue] has done when it returns. *)
Lemma SearchValue_joins w c key :
  mx (store w) = false ->
  watchLk (store w) = RWFree ->
  (forall ptr, watching (store w) !! key = Some ptr ->
     exists g, wgs w !! ptr = Some g /\ lk g = RWFree) ->
  listeners_allocated w ->
  exists out ptr g w',
    SearchValue c key None w = Ret (inl out) w'
    /\ chans w' !! out
       = Some {| buf := match getLocal_result w key with
                        | inl v => [v]
                        | inr _ => []
                        end;
                 cap := 1; closed := false |}
    /\ watching (store w') !! key = Some ptr
    /\ (forall p, watching (store w) !! key = Some p -> p = ptr)
    /\ wgs w' !! ptr = Some g /\ lk g = RWFree
    /\ listeners g !! out = None
    /\ (exists proxy, last (relays w')
          = Some {| r_wg := ptr; r_ctx := c; r_outCh := out; r_proxy := proxy;
                    r_pc := RelayNew |})
    /\ (forall data pick,
          chans (world_of (notifyWatchers key data pick w')) !! out = chans w' !! out).
Proof.
  intros Hmx Hlk Hw Hids.
  destruct (Subscribe_frame w key Hmx)
    as (w1 & Hsub & Hmx1 & Hlk1 & Hw1 & Hg1 & Hc1 & Hd1 & HV1).
  pose proof (Subscribe_next w key None) as Hn1. rewrite Hsub in Hn1. simpl in Hn1.
  destruct (SearchValue_group_run w1 key) as
    (ptr & wa & g & Hgrp & Hwa & Hsame & Hga & Hwr & Hls & Hlka & Hmxa & [Hda HVa]
       & Hna & Hca & Hra).
  { by rewrite Hlk1. }
  { intros ptr. rewrite Hw1, Hg1. apply Hw. }
  destruct (SearchValue_seed_run wa key) as (wb & Hseed & Hch & Hsb & Hgb & Hnb & Hrb).
  destruct (SearchValue_join_run wb ptr c (next wa) g)
    as (wc & Hjoin & Hcc & Hsc & Hgc & Hrc & _).
  { by rewrite Hsb. } { by rewrite Hgb. } { done. } { lia. }
  assert (Hres : getLocal_result wa key = getLocal_result w key).
  { unfold getLocal_result. by rewrite Hda, Hd1, HVa, HV1. }
  assert (Hnew : listeners g !! next wa = None).
  { destruct Hls as [->|(g0 & Hg0 & ->)]; [done|].
    destruct (listeners g0 !! next wa) eqn:El; [|done].
    rewrite Hg1 in Hg0. pose proof (Hids ptr g0 (next wa) Hg0 ltac:(by eexists)). lia. }
  exists (next wa), ptr, (set_lk RWFree g), wc.
  split.
  { unfold SearchValue. run. rewrite Hsub. run. rewrite Hgrp. run.
    rewrite Hseed. run. by rewrite Hjoin. }
  split; [etrans; [exact Hcc|]; etrans; [exact Hch|]; by rewrite Hres|].
  split; [by rewrite Hsc, Hsb, Hwa, lookup_insert_eq|].
  split; [intros p Hp; apply Hsame; by rewrite Hw1|].
  split; [by rewrite Hgc, lookup_insert_eq|]. split; [done|]. split; [done|].
  split; [eexists; by rewrite Hrc, last_snoc|].
  intros data pick.
  unfold notifyWatchers, watchLk_RLock, watchLk_RUnlock,
    wg_lk_RLock, wg_lk_RUnlock, wg_lk, wg_get, wg_put.
  run. rewrite Hsc, Hsb, Hlka. run. rewrite Hsc, Hsb, Hwa, lookup_insert_eq. run.
  rewrite Hgc, lookup_insert_eq. run. rewrite lookup_insert_eq. run.
  assert (Hnot : next wa ∉ (map_to_list (listeners g)).*1).
  { intros ((o & c') & Ho & Hin%elem_of_map_to_list)%list_elem_of_fmap.
    simpl in *. congruence. }
  match goal with |- context [notify_each ptr data pick ?ls ?w0] =>
    pose proof (notify_each_other ptr data pick (next wa) ls w0 Hnot) as Hother;
    destruct (notify_each ptr data pick ls w0) as [[] wn| | |] end;
    simpl in *; run; try done.
  destruct (wgs wn !! ptr) as [g'|]; simpl; [|done].
  destruct (rw_RUnlock (lk g')); done.
Qed.

(** X12. [SearchValue] returns a channel of capacity one that holds the
    cached record if there is a valid one and is empty otherwise.  It
    uses the watch group the key has, or makes one, and leaves its lock
    free; but the channel is not yet among the listeners of the group
    when [SearchValue] returns: that entry is made by the goroutine of
    [watchGroup.add], which has not run.  A record that
    [notifyWatchers] delivers before that goroutine has run does not
    reach the channel. *)
Theorem X12_new_listener_is_not_registered w c key :
  mx (store w) = false ->
  watchLk (store w) = RWFree ->
  (forall ptr, watching (store w) !! key = Some ptr ->
     exists g, wgs w !! ptr = Some g /\ lk g = RWFree) ->
  listeners_allocated w ->
  exists out ptr g w',
    SearchValue c key None w = Ret (inl out) w'
    /\ chans w' !! out
       = Some {| buf := match getLocal_result w key with
                        | inl v => [v]
                        | inr _ => []
                        end;
                 cap := 1; closed := false |}
    /\ watching (store w') !! key = Some ptr
    /\ (forall p, watching (store w) !! key = Some p -> p = ptr)
    /\ wgs w' !! ptr = Some g /\ lk g = RWFree
    /\ listeners g !! out = None
    /\ (exists proxy, last (relays w')
          = Some {| r_wg := ptr; r_ctx := c; r_outCh := out; r_proxy := proxy;
                    r_pc := RelayNew |})
    /\ (forall data pick,
          chans (world_of (notifyWatchers key data pick w')) !! out = chans w' !! out).
Proof. apply SearchValue_joins. Qed.

(** ** The end of a listener *)

Lemma ctx_Done_cancelled w c s :
  ctx_Done (set_ctx_done ({[c]} ∪ s) w) c = true.
Proof.
  unfold ctx_Done. simpl. rewrite bool_decide_eq_true_2; [done|]. set_solver.
Qed.

(** The deferred function of the relay goroutine, when [wg.lk] is
    free. *)
Lemma relay_exit_run w i r c g ch :
  wgs w !! r_wg r = Some g -> lk g = RWFree ->
  chans w !! r_outCh r = Some ch -> closed ch = false ->
  exists w', relay_exit i r c w = Ret tt w'
    /\ chans w' = <[r_outCh r := closed_off ch]> (chans w)
    /\ wgs w' = <[r_wg r := set_listeners (delete (r_outCh r) (listeners g)) g]> (wgs w)
    /\ relays w' = alter (set_pc RelayDone) i (relays w)
    /\ ctx_Done w' c = true
    /\ store w' = store w.
Proof.
  intros Hg Hfree Hch Hop.
  unfold relay_exit, context_cancel, wg_lk_Lock, wg_lk_Unlock, wg_lk, wg_get, wg_put,
    chan_close, relay_set_pc.
  run. rewrite Hg. run. rewrite Hfree. run. rewrite !lookup_insert_eq. run.
  rewrite Hch, Hop. eexists. split; [done|]. simpl.
  split; [done|]. split.
  { rewrite !insert_insert_eq. f_equal. destruct g; simpl in *; by subst. }
  split; [done|]. split; [|done].
  apply (ctx_Done_cancelled w).
Qed.

(** With nothing in its proxy channel, a relay whose group is closing
    or whose context is done runs its deferred function, whichever
    case the [select] picks. *)
Lemma relay_loop_exit w i r c g pick :
  relays w !! i = Some r ->
  r_pc r = RelayRunning c ->
  can_recv w (r_proxy r) = false ->
  wgs w !! r_wg r = Some g ->
  closing g = true \/ ctx_Done w c = true ->
  relay_loop i pick w = relay_exit i r c w.
Proof.
  intros Hr Hpc Hproxy Hg Hleave.
  destruct (pick_ready (relay_ready w r c) pick) as (x & Hx & Hin).
  { unfold relay_ready. rewrite Hproxy, Hg. simpl.
    destruct Hleave as [-> | ->]; [done|]. by destruct (closing g). }
  unfold relay_loop. run. rewrite Hr, Hpc. rewrite Hx.
  unfold relay_ready in Hin. rewrite Hproxy in Hin.
  destruct x; [|done..]. simpl in Hin.
  apply elem_of_app in Hin as [Hin|Hin]; case_match;
    by repeat (apply elem_of_cons in Hin as [?|Hin]; [done|]);
       apply elem_of_nil in Hin.
Qed.


Lemma insert_closed_group (m : gmap WatchGroupPtr watchGroup) ptr g :
  m !! ptr = Some g -> <[ptr := closed_group g]> m = alter closed_group ptr m.
Proof.
  intros Hg. apply map_eq. intros p. destruct (decide (p = ptr)) as [->|Hne].
  - by rewrite lookup_insert_eq, lookup_alter_eq, Hg.
  - by rewrite lookup_insert_ne, lookup_alter_ne.
Qed.

(** [Cancel], when the entry of the name is not in the bootstrapping
    state and the locks are free. *)
Lemma Cancel_run w name :
  mx (store w) = false -> watchLk (store w) = RWFree ->
  subs (store w) !! name <> Some None ->
  (forall ptr, watching (store w) !! name = Some ptr ->
     exists g, wgs w !! ptr = Some g /\ closing g = false) ->
  exists w', Cancel name w = Ret (bool_decide (is_Some (subs (store w) !! name))) w'
    /\ subs (store w') = delete name (subs (store w))
    /\ watching (store w') = delete name (watching (store w))
    /\ mx (store w') = false /\ watchLk (store w') = RWFree
    /\ same_cache w w'
    /\ wgs w' = match watching (store w) !! name with
                | Some ptr => alter closed_group ptr (wgs w)
                | None => wgs w
                end
    /\ chans w' = chans w /\ relays w' = relays w
    /\ ctx_done w' = ctx_done w /\ ctx_parent w' = ctx_parent w
    /\ next w' = next w
    /\ log w' = match subs (store w) !! name with
                | Some (Some sub) => [EvSubCancel sub]
                | _ => []
                end ++ log w.
Proof.
  intros Hmx Hlk Hs Hw. unfold_store. unfold wg_close_closing, wg_get, wg_put.
  run. rewrite Hmx. run.
  destruct (subs (store w) !! name) as [[sub|]|] eqn:Es; [|done|]; run;
    rewrite Hlk; run;
    (destruct (watching (store w) !! name) as [ptr|] eqn:Ew; run;
     [destruct (Hw ptr eq_refl) as (g & Hg & Hc); rewrite Hg; run; rewrite Hc; run|]);
    (eexists; split; [done|]); simpl; rewrite ?(delete_id _ _ Es), ?(delete_id _ _ Ew);
    repeat split; try done; by apply insert_closed_group.
Qed.

(** X14. [Cancel] returns whether the name had an entry.  Afterwards
    the name has neither an entry nor a watch group, the entries and
    groups of other names are as before, and the cached record of the
    name is still there; a second [Cancel] returns false and changes
    nothing. *)
Theorem X14_Cancel_twice w name :
  mx (store w) = false ->
  watchLk (store w) = RWFree ->
  subs (store w) !! name <> Some None ->
  (forall ptr, watching (store w) !! name = Some ptr ->
     exists g, wgs w !! ptr = Some g /\ closing g = false) ->
  exists w',
    Cancel name w = Ret (bool_decide (is_Some (subs (store w) !! name))) w'
    /\ subs (store w') !! name = None
    /\ watching (store w') !! name = None
    /\ (forall k, k <> name ->
          subs (store w') !! k = subs (store w) !! k
          /\ watching (store w') !! k = watching (store w) !! k)
    /\ getLocal_result w' name = getLocal_result w name
    /\ Cancel name w' = Ret false w'.
Proof.
  intros Hmx Hlk Hs Hw.
  destruct (Cancel_run w name Hmx Hlk Hs Hw)
    as (w' & Hrun & Hs' & Hw' & Hmx' & Hlk' & [Hd HV] & _).
  exists w'. split; [done|].
  split; [by rewrite Hs', lookup_delete_eq|].
  split; [by rewrite Hw', lookup_delete_eq|].
  split; [intros k Hne; by rewrite Hs', Hw', !lookup_delete_ne|].
  split; [unfold getLocal_result; by rewrite Hd, HV|].
  apply Cancel_absent; try done.
  - by rewrite Hs', lookup_delete_eq.
  - by rewrite Hw', lookup_delete_eq.
Qed.

(** X15. [Cancel] ends the listeners of the name: it closes the group,
    and each relay goroutine of the group, at its next turn, leaves
    and closes the channel that [SearchValue] had returned. *)
Theorem X15_Cancel_ends_listeners w name ptr g i r c ch pick :
  mx (store w) = false ->
  watchLk (store w) = RWFree ->
  subs (store w) !! name <> Some None ->
  watching (store w) !! name = Some ptr ->
  wgs w !! ptr = Some g ->
  lk g = RWFree ->
  closing g = false ->
  relays w !! i = Some r ->
  r_wg r = ptr ->
  r_pc r = RelayRunning c ->
  can_recv w (r_proxy r) = false ->
  chans w !! r_outCh r = Some ch ->
  closed ch = false ->
  exists b w1 w2,
    Cancel name w = Ret b w1
    /\ closing <$> wgs w1 !! ptr = Some true
    /\ relay_loop i pick w1 = Ret tt w2
    /\ chans w2 !! r_outCh r = Some (closed_off ch)
    /\ listeners <$> wgs w2 !! ptr = Some (delete (r_outCh r) (listeners g))
    /\ r_pc <$> relays w2 !! i = Some RelayDone.
Proof.
  intros Hmx Hlk Hs Hw Hg Hfree Hopen Hr Hptr Hpc Hproxy Hch Hop. subst ptr.
  destruct (Cancel_run w name Hmx Hlk Hs) as (w1 & Hrun & _ & _ & _ & _ & _
    & Hg1 & Hc1 & Hr1 & _).
  { intros p. rewrite Hw. intros [= <-]. by exists g. }
  rewrite Hw in Hg1.
  assert (Hg1' : wgs w1 !! r_wg r = Some (closed_group g))
    by (by rewrite Hg1, lookup_alter_eq, Hg).
  destruct (relay_exit_run w1 i r c (closed_group g) ch)
    as (w2 & Hexit & Hc2 & Hg2 & Hr2 & _); try done.
  { by rewrite Hc1. }
  eexists _, w1, w2. split; [done|].
  split; [by rewrite Hg1'|]. split.
  { rewrite (relay_loop_exit w1 i r c (closed_group g) pick); try done.
    - by rewrite Hr1.
    - unfold can_recv. rewrite Hc1. exact Hproxy.
    - by left. }
  split; [by rewrite Hc2, lookup_insert_eq|].
  split; [by rewrite Hg2, lookup_insert_eq|].
  by rewrite Hr2, list_lookup_alter_eq, Hr1, Hr.
Qed.

(** X16. After [Cancel] of an active subscription, [Subscribe] for the
    name subscribes anew with a fresh subscription and starts
    [bootstrapPubsub] once more: [Cancel] has deleted the entry that
    records that the bootstrap was done. *)
Theorem X16_resubscribe_bootstraps_again w name sub :
  mx (store w) = false ->
  watchLk (store w) = RWFree ->
  subs (store w) !! name = Some (Some sub) ->
  (forall ptr, watching (store w) !! name = Some ptr ->
     exists g, wgs w !! ptr = Some g /\ closing g = false) ->
  exists w1 w2,
    Cancel name w = Ret true w1
    /\ Subscribe name None w1 = Ret None w2
    /\ subs (store w2) !! name = Some (Some (next w))
    /\ bootstraps name (log w2) = S (bootstraps name (log w))
    /\ tasks name (log w2) = next w :: tasks name (log w)
    /\ cancels (log w2) = sub :: cancels (log w).
Proof.
  intros Hmx Hlk Hs Hw.
  destruct (Cancel_run w name Hmx Hlk ltac:(by rewrite Hs) Hw)
    as (w1 & Hrun & Hs1 & _ & Hmx1 & _ & _ & _ & _ & _ & _ & _ & Hn1 & Hl1).
  rewrite Hs in Hrun, Hl1. rewrite bool_decide_eq_true_2 in Hrun by done.
  assert (He : subs (store w1) !! name = None) by (by rewrite Hs1, lookup_delete_eq).
  exists w1. unfold_store. run. rewrite Hmx1. run. rewrite He. run. rewrite He. run.
  eexists. split; [exact Hrun|]. split; [done|]. simpl.
  split; [by rewrite lookup_insert_eq, Hn1|].
  rewrite Hl1, Hn1. simpl. rewrite !bootstraps_cons. simpl.
  rewrite bool_decide_eq_true_2 by done. split; [done|].
  by rewrite decide_True.
Qed.

(** ** What holds in every state that calls can reach *)

Lemma wf_at_mono wt gs cs rs n n' :
  n <= n' -> wf_at wt gs cs rs n -> wf_at wt gs cs rs n'.
Proof.
  intros Hle []. constructor; try done.
  - intros p Hp. specialize (wf_group_ids0 p Hp). lia.
  - intros c Hc. specialize (wf_chan_ids0 c Hc). lia.
Qed.

(** A change of a group that keeps its listeners and whether it is
    closing, such as a lock operation. *)
Lemma wf_at_group wt gs cs rs n p g g' :
  gs !! p = Some g -> listeners g' = listeners g -> closing g' = closing g ->
  wf_at wt gs cs rs n -> wf_at wt (<[p := g']> gs) cs rs n.
Proof.
  intros Hg Hl Hc []. constructor; try done.
  - intros k q Hk. destruct (wf_watching0 k q Hk) as (g0 & Hg0 & Hc0).
    destruct (decide (q = p)) as [->|Hne].
    + exists g'. rewrite lookup_insert_eq. split; [done|]. congruence.
    + exists g0. by rewrite lookup_insert_ne.
  - intros q Hq. apply wf_group_ids0.
    destruct (decide (q = p)) as [->|Hne]; [by eexists|].
    by rewrite lookup_insert_ne in Hq.
  - intros i r Hr. destruct (decide (r_wg r = p)) as [->|Hne].
    + rewrite lookup_insert_eq. by eexists.
    + rewrite lookup_insert_ne by done. by eapply wf_group0.
  - intros q g0 o c Hq Ho. destruct (decide (q = p)) as [->|Hne].
    + rewrite lookup_insert_eq in Hq. injection Hq as <-. rewrite Hl in Ho.
      by eapply wf_listeners0.
    + rewrite lookup_insert_ne in Hq by done. by eapply wf_listeners0.
Qed.

(** A change of the content of a channel that is no proxy. *)
Lemma wf_at_chan wt gs cs rs n o ch ch' :
  cs !! o = Some ch -> closed ch' = closed ch ->
  (forall i r, rs !! i = Some r -> r_proxy r <> o) ->
  wf_at wt gs cs rs n -> wf_at wt gs (<[o := ch']> cs) rs n.
Proof.
  intros Ho Hc Hp []. constructor; try done.
  - intros c Hin. apply wf_chan_ids0.
    destruct (decide (c = o)) as [->|Hne]; [by eexists|].
    by rewrite lookup_insert_ne in Hin.
  - intros i r Hr. rewrite lookup_insert_ne by (by eapply not_eq_sym, Hp).
    by eapply wf_proxy0.
  - intros i r Hr. destruct (wf_out0 i r Hr) as (ch0 & Hch0 & Hcl).
    destruct (decide (r_outCh r = o)) as [Heq|Hne].
    + exists ch'. rewrite Heq, lookup_insert_eq. split; [done|].
      rewrite Heq, Ho in Hch0. injection Hch0 as <-. by rewrite Hc.
    + exists ch0. by rewrite lookup_insert_ne.
Qed.

(** A new group for a key that has none. *)
Lemma wf_at_new_group wt gs cs rs n key :
  wt !! key = None ->
  wf_at wt gs cs rs n ->
  wf_at (<[key := n]> wt) (<[n := {| lk := RWFree; closing := false; listeners := ∅ |}]> gs)
        cs rs (S n).
Proof.
  intros Hkey Hwf. pose proof Hwf as []. unfold WatchGroupPtr, Chan in *.
  assert (Hfresh : gs !! n = None).
  { destruct (gs !! n) eqn:E; [|done]. specialize (wf_group_ids0 n ltac:(by eexists)). lia. }
  constructor; try done.
  - intros k p Hk. destruct (decide (k = key)) as [->|Hne].
    + rewrite lookup_insert_eq in Hk. injection Hk as <-.
      eexists. by rewrite lookup_insert_eq.
    + rewrite lookup_insert_ne in Hk by done.
      destruct (wf_watching0 k p Hk) as (g & Hg & Hc). exists g. split; [|done].
      rewrite lookup_insert_ne; [done|]. intros <-. congruence.
  - intros k1 k2 p H1 H2.
    assert (Hold : forall k, wt !! k = Some p -> p <> n).
    { intros k Hk Heq. subst p. destruct (wf_watching0 k n Hk) as (g & Hg & _).
      congruence. }
    destruct (decide (k1 = key)) as [->|Hne1], (decide (k2 = key)) as [->|Hne2];
      [done|..].
    + rewrite lookup_insert_eq in H1. rewrite lookup_insert_ne in H2 by done.
      injection H1 as <-. by destruct (Hold k2 H2).
    + rewrite lookup_insert_eq in H2. rewrite lookup_insert_ne in H1 by done.
      injection H2 as <-. by destruct (Hold k1 H1).
    + rewrite lookup_insert_ne in H1, H2 by done. by eapply wf_inj0.
  - intros p Hp. destruct (decide (p = n)) as [->|Hne]; [lia|].
    rewrite lookup_insert_ne in Hp by done. specialize (wf_group_ids0 p Hp). lia.
  - intros c Hc. specialize (wf_chan_ids0 c Hc). lia.
  - intros i r Hr. destruct (decide (r_wg r = n)) as [->|Hne].
    + rewrite lookup_insert_eq. by eexists.
    + rewrite lookup_insert_ne by done. by eapply wf_group0.
  - intros p g o c Hp Ho. destruct (decide (p = n)) as [->|Hne].
    + rewrite lookup_insert_eq in Hp. injection Hp as <-. simpl in Ho.
      by rewrite lookup_empty in Ho.
    + rewrite lookup_insert_ne in Hp by done. by eapply wf_listeners0.
Qed.

(** A new channel. *)
Lemma wf_at_new_chan wt gs cs rs n ch :
  wf_at wt gs cs rs n -> wf_at wt gs (<[n := ch]> cs) rs (S n).
Proof.
  intros Hwf. pose proof Hwf as []. unfold WatchGroupPtr, Chan in *.
  assert (Hfresh : cs !! n = None).
  { destruct (cs !! n) eqn:E; [|done]. specialize (wf_chan_ids0 n ltac:(by eexists)). lia. }
  constructor; try done.
  - intros p Hp. specialize (wf_group_ids0 p Hp). lia.
  - intros c Hc. destruct (decide (c = n)) as [->|Hne]; [lia|].
    rewrite lookup_insert_ne in Hc by done. specialize (wf_chan_ids0 c Hc). lia.
  - intros i r Hr. rewrite lookup_insert_ne; [by eapply wf_proxy0|].
    intros Heq. specialize (wf_proxy0 i r Hr). rewrite <- Heq in wf_proxy0.
    congruence.
  - intros i r Hr. destruct (wf_out0 i r Hr) as (ch0 & Hch0 & Hcl).
    exists ch0. split; [|done]. rewrite lookup_insert_ne; [done|].
    intros Heq. rewrite <- Heq in Hch0. congruence.
Qed.

(** [watchGroup.add]: a proxy channel and a relay for a channel that
    no relay has yet. *)
Lemma wf_at_add_relay wt gs cs rs n ptr c out ch :
  cs !! out = Some ch -> closed ch = false ->
  (forall i r, rs !! i = Some r -> r_outCh r <> out /\ r_proxy r <> out) ->
  is_Some (gs !! ptr) ->
  wf_at wt gs cs rs n ->
  wf_at wt gs (<[n := empty_proxy]> cs)
        (rs ++ [{| r_wg := ptr; r_ctx := c; r_outCh := out; r_proxy := n;
                   r_pc := RelayNew |}]) (S n).
Proof.
  intros Hout Hop Hnew Hptr Hwf.
  pose proof (wf_at_new_chan _ _ _ _ _ empty_proxy Hwf) as [].
  pose proof Hwf as [_ _ _ Hids _ _ _ _ _ _]. unfold WatchGroupPtr, Chan in *.
  assert (Hlt : out < n) by (apply Hids; by eexists).
  assert (Hcases : forall i r,
    (rs ++ [{| r_wg := ptr; r_ctx := c; r_outCh := out; r_proxy := n;
               r_pc := RelayNew |}]) !! i = Some r ->
    rs !! i = Some r
    \/ (i = length rs
        /\ r = {| r_wg := ptr; r_ctx := c; r_outCh := out; r_proxy := n;
                  r_pc := RelayNew |})).
  { intros i r Hr. apply lookup_app_Some in Hr as [Hr|[Hge Hr]]; [by left|].
    apply list_lookup_singleton_Some in Hr as [Hi <-]. right. split; [lia|done]. }
  assert (Hold : forall i r, rs !! i = Some r -> r_outCh r < n /\ r_proxy r < n).
  { intros i r Hr. destruct Hwf. split.
    - destruct (wf_out1 i r Hr) as (ch0 & Hch0 & _). apply wf_chan_ids1. by eexists.
    - apply wf_chan_ids1. eexists. by eapply wf_proxy1. }
  assert (Hbound : forall i r, rs !! i = Some r -> i < length rs).
  { intros i r Hr. by eapply lookup_lt_Some. }
  constructor; try done.
  - intros i r [Hr| [-> ->]]%Hcases; [by eapply wf_proxy0|].
    simpl. by rewrite lookup_insert_eq.
  - intros i r [Hr| [-> ->]]%Hcases; [by eapply wf_out0|].
    simpl. exists ch. rewrite lookup_insert_ne by lia. split; [done|].
    rewrite Hop. split; intros; done.
  - intros i r [Hr| [-> ->]]%Hcases; [by eapply wf_group0|done].
  - intros i j r r' [Hr| [-> ->]]%Hcases [Hr'| [-> ->]]%Hcases Heq; simpl in *.
    + by eapply wf_out_inj0.
    + by destruct (Hnew i r Hr).
    + by destruct (Hnew j r' Hr').
    + done.
  - intros i j r r' [Hr| [-> ->]]%Hcases [Hr'| [-> ->]]%Hcases; simpl.
    + by eapply wf_out_proxy0.
    + destruct (Hold i r Hr). lia.
    + by destruct (Hnew j r' Hr') as [_ ?].
    + lia.
  - intros p g o c' Hp Ho. destruct Hwf.
    destruct (wf_listeners1 p g o c' Hp Ho) as (i & r & Hr & ?).
    exists i, r. split; [|done]. by apply lookup_app_l_Some.
Qed.

Lemma relays_alter_cases (rs : list Relay) i pc j r' :
  alter (set_pc pc) i rs !! j = Some r' ->
  exists r0, rs !! j = Some r0
    /\ r_wg r' = r_wg r0 /\ r_outCh r' = r_outCh r0 /\ r_proxy r' = r_proxy r0
    /\ ((j = i /\ r_pc r' = pc) \/ (j <> i /\ r' = r0)).
Proof.
  intros Hj. destruct (decide (j = i)) as [->|Hne].
  - rewrite list_lookup_alter_eq in Hj.
    destruct (rs !! i) as [r0|] eqn:E; [|done]. injection Hj as <-.
    exists r0. repeat split; try done. by left.
  - rewrite list_lookup_alter_ne in Hj by done. exists r'. repeat split; try done.
    by right.
Qed.

(** The first statements of a relay goroutine: the listener is entered
    in the group. *)
Lemma wf_at_relay_start wt gs cs rs n i r g c :
  rs !! i = Some r -> r_pc r = RelayNew -> gs !! r_wg r = Some g ->
  wf_at wt gs cs rs n ->
  wf_at wt (<[r_wg r := set_listeners (<[r_outCh r := c]> (listeners g)) g]> gs) cs
        (alter (set_pc (RelayRunning c)) i rs) n.
Proof.
  intros Hr Hpc Hg Hwf. pose proof Hwf as []. unfold WatchGroupPtr, Chan in *.
  constructor; try done.
  - intros k p Hk. destruct (wf_watching0 k p Hk) as (g0 & Hg0 & Hc0).
    destruct (decide (p = r_wg r)) as [->|Hne].
    + eexists. rewrite lookup_insert_eq. split; [done|]. simpl. congruence.
    + exists g0. by rewrite lookup_insert_ne.
  - intros p Hp. apply wf_group_ids0.
    destruct (decide (p = r_wg r)) as [->|Hne]; [by eexists|].
    by rewrite lookup_insert_ne in Hp.
  - intros j r' (r0 & Hr0 & _ & _ & -> & _)%relays_alter_cases. by eapply wf_proxy0.
  - intros j r' (r0 & Hr0 & _ & -> & _ & Hcase)%relays_alter_cases.
    destruct (wf_out0 j r0 Hr0) as (ch & Hch & Hcl). exists ch. split; [done|].
    destruct Hcase as [[-> ->]|[_ ->]]; [|done].
    rewrite Hr in Hr0. injection Hr0 as <-. rewrite Hcl, Hpc. split; intros; done.
  - intros j r' (r0 & Hr0 & -> & _)%relays_alter_cases.
    destruct (decide (r_wg r0 = r_wg r)) as [->|Hne].
    + rewrite lookup_insert_eq. by eexists.
    + rewrite lookup_insert_ne by done. by eapply wf_group0.
  - intros j1 j2 r1 r2 (r01 & H1 & _ & -> & _)%relays_alter_cases
      (r02 & H2 & _ & -> & _)%relays_alter_cases. by eapply wf_out_inj0.
  - intros j1 j2 r1 r2 (r01 & H1 & _ & -> & _)%relays_alter_cases
      (r02 & H2 & _ & _ & -> & _)%relays_alter_cases. by eapply wf_out_proxy0.
  - intros p g0 o c0 Hp Ho.
    assert (Hkeep : forall j r0, rs !! j = Some r0 -> j <> i ->
      alter (set_pc (RelayRunning c)) i rs !! j = Some r0).
    { intros j r0 Hj Hne. by rewrite list_lookup_alter_ne. }
    assert (Hold : forall g1, gs !! p = Some g1 -> listeners g1 !! o = Some c0 ->
      exists j r0, alter (set_pc (RelayRunning c)) i rs !! j = Some r0
        /\ r_outCh r0 = o /\ r_wg r0 = p /\ r_pc r0 = RelayRunning c0).
    { intros g1 Hg1 Ho1.
      destruct (wf_listeners0 p g1 o c0 Hg1 Ho1) as (j & r0 & Hj & Ho0 & Hp0 & Hpc0).
      exists j, r0. split; [|done]. apply Hkeep; [done|].
      intros ->. rewrite Hr in Hj. injection Hj as <-. congruence. }
    destruct (decide (p = r_wg r)) as [->|Hne].
    + rewrite lookup_insert_eq in Hp. injection Hp as <-. simpl in Ho.
      destruct (decide (o = r_outCh r)) as [->|Hno].
      * rewrite lookup_insert_eq in Ho. injection Ho as <-.
        exists i, (set_pc (RelayRunning c) r).
        by rewrite list_lookup_alter_eq, Hr.
      * rewrite lookup_insert_ne in Ho by done. by apply (Hold g).
    + rewrite lookup_insert_ne in Hp by done. by apply (Hold g0).
Qed.

(** The deferred function of a relay goroutine: the listener leaves
    the group and its channel is closed. *)
Lemma wf_at_relay_exit wt gs cs rs n i r g c ch l :
  rs !! i = Some r -> r_pc r = RelayRunning c -> gs !! r_wg r = Some g ->
  cs !! r_outCh r = Some ch ->
  wf_at wt gs cs rs n ->
  wf_at wt (<[r_wg r := set_lk l (set_listeners (delete (r_outCh r) (listeners g)) g)]> gs)
        (<[r_outCh r := closed_off ch]> cs)
        (alter (set_pc RelayDone) i rs) n.
Proof.
  intros Hr Hpc Hg Hch Hwf. pose proof Hwf as []. unfold WatchGroupPtr, Chan in *.
  constructor; try done.
  - intros k p Hk. destruct (wf_watching0 k p Hk) as (g0 & Hg0 & Hc0).
    destruct (decide (p = r_wg r)) as [->|Hne].
    + eexists. rewrite lookup_insert_eq. split; [done|]. simpl. congruence.
    + exists g0. by rewrite lookup_insert_ne.
  - intros p Hp. apply wf_group_ids0.
    destruct (decide (p = r_wg r)) as [->|Hne]; [by eexists|].
    by rewrite lookup_insert_ne in Hp.
  - intros o Ho. apply wf_chan_ids0.
    destruct (decide (o = r_outCh r)) as [->|Hne]; [by eexists|].
    by rewrite lookup_insert_ne in Ho.
  - intros j r' (r0 & Hr0 & _ & _ & -> & _)%relays_alter_cases.
    rewrite lookup_insert_ne; [by eapply wf_proxy0|].
    by eapply wf_out_proxy0.
  - intros j r' (r0 & Hr0 & _ & -> & _ & Hcase)%relays_alter_cases.
    destruct Hcase as [[-> ->]|[Hne ->]].
    + rewrite Hr in Hr0. injection Hr0 as <-.
      exists (closed_off ch). rewrite lookup_insert_eq. by split.
    + destruct (wf_out0 j r0 Hr0) as (ch0 & Hch0 & Hcl). exists ch0. split; [|done].
      rewrite lookup_insert_ne; [done|]. intros Heq. apply Hne.
      by eapply wf_out_inj0.
  - intros j r' (r0 & Hr0 & -> & _)%relays_alter_cases.
    destruct (decide (r_wg r0 = r_wg r)) as [->|Hne].
    + rewrite lookup_insert_eq. by eexists.
    + rewrite lookup_insert_ne by done. by eapply wf_group0.
  - intros j1 j2 r1 r2 (r01 & H1 & _ & -> & _)%relays_alter_cases
      (r02 & H2 & _ & -> & _)%relays_alter_cases. by eapply wf_out_inj0.
  - intros j1 j2 r1 r2 (r01 & H1 & _ & -> & _)%relays_alter_cases
      (r02 & H2 & _ & _ & -> & _)%relays_alter_cases. by eapply wf_out_proxy0.
  - intros p g0 o c0 Hp Ho.
    assert (Hold : forall g1, gs !! p = Some g1 -> listeners g1 !! o = Some c0 ->
      o <> r_outCh r ->
      exists j r0, alter (set_pc RelayDone) i rs !! j = Some r0
        /\ r_outCh r0 = o /\ r_wg r0 = p /\ r_pc r0 = RelayRunning c0).
    { intros g1 Hg1 Ho1 Hno.
      destruct (wf_listeners0 p g1 o c0 Hg1 Ho1) as (j & r0 & Hj & Ho0 & Hp0 & Hpc0).
      exists j, r0. split; [|done]. rewrite list_lookup_alter_ne; [done|].
      intros ->. rewrite Hr in Hj. injection Hj as <-. congruence. }
    destruct (decide (p = r_wg r)) as [->|Hne].
    + rewrite lookup_insert_eq in Hp. injection Hp as <-. simpl in Ho.
      destruct (decide (o = r_outCh r)) as [->|Hno].
      * by rewrite lookup_delete_eq in Ho.
      * rewrite lookup_delete_ne in Ho by done. by apply (Hold g).
    + rewrite lookup_insert_ne in Hp by done. apply (Hold g0); try done.
      intros ->.
      destruct (wf_listeners0 p g0 _ c0 Hp Ho) as (j & r0 & Hj & Ho0 & Hp0 & _).
      assert (j = i) as -> by (by eapply wf_out_inj0).
      rewrite Hr in Hj. injection Hj as <-. congruence.
Qed.

(** [Cancel]: the group of the name is closed and dropped from
    [p.watching]. *)
Lemma wf_at_cancel wt gs cs rs n name p g :
  wt !! name = Some p -> gs !! p = Some g ->
  wf_at wt gs cs rs n ->
  wf_at (delete name wt) (<[p := closed_group g]> gs) cs rs n.
Proof.
  intros Hname Hg Hwf. pose proof Hwf as []. unfold WatchGroupPtr, Chan in *.
  constructor; try done.
  - intros k q Hk. destruct (decide (k = name)) as [->|Hne].
    { by rewrite lookup_delete_eq in Hk. }
    rewrite lookup_delete_ne in Hk by done.
    destruct (wf_watching0 k q Hk) as (g0 & Hg0 & Hc0). exists g0. split; [|done].
    rewrite lookup_insert_ne; [done|]. intros <-. apply Hne. by eapply wf_inj0.
  - intros k1 k2 q H1 H2.
    apply lookup_delete_Some in H1 as [_ H1]. apply lookup_delete_Some in H2 as [_ H2].
    by eapply wf_inj0.
  - intros q Hq. apply wf_group_ids0.
    destruct (decide (q = p)) as [->|Hne]; [by eexists|].
    by rewrite lookup_insert_ne in Hq.
  - intros i r Hr. destruct (decide (r_wg r = p)) as [->|Hne].
    + rewrite lookup_insert_eq. by eexists.
    + rewrite lookup_insert_ne by done. by eapply wf_group0.
  - intros q g0 o c Hq Ho. destruct (decide (q = p)) as [->|Hne].
    + rewrite lookup_insert_eq in Hq. injection Hq as <-. by eapply wf_listeners0.
    + rewrite lookup_insert_ne in Hq by done. by eapply wf_listeners0.
Qed.

(** Calls that leave the watch path alone. *)
Ltac watch_ok :=
  let w := fresh "w" in
  intros w; hnf; run;
  repeat (case_match; run; simplify_eq/=); repeat split; (done || lia).

Lemma same_watch_refl : Reflexive (@same_watch D).
Proof. intros w. by repeat split. Qed.

Lemma same_watch_trans : Transitive (@same_watch D).
Proof.
  intros w1 w2 w3 (? & ? & ? & ? & ?) (? & ? & ? & ? & ?).
  repeat split; try congruence. lia.
Qed.

Lemma same_watch_wf w w' : same_watch w w' -> wf w -> wf w'.
Proof.
  intros (Hwt & Hgs & Hcs & Hrs & Hn) Hwf. unfold wf in *.
  rewrite Hwt, Hgs, Hcs, Hrs. by eapply wf_at_mono.
Qed.

Lemma getLocal_watch key : keeps (D:=D) same_watch (getLocal key).
Proof.
  intros w. destruct (getLocal_run w key) as (evs & -> & _).
  hnf; simpl; repeat split; (done || lia).
Qed.

Lemma isBetter_watch key val : keeps (D:=D) same_watch (isBetter key val).
Proof.
  intros w. destruct (isBetter_run w key val) as (b & evs & -> & _).
  hnf; simpl; repeat split; (done || lia).
Qed.

Lemma handleMessage_store_watch key data :
  keeps (D:=D) same_watch (handleMessage_store key data).
Proof.
  unfold handleMessage_store.
  apply keeps_bind; [apply same_watch_trans|apply isBetter_watch|].
  intros [|]; [|watch_ok]. unfold ds_Put_local. watch_ok.
Qed.

Lemma Subscribe_watch key res : keeps (D:=D) same_watch (Subscribe key res).
Proof. unfold_store. watch_ok. Qed.

Lemma PutValue_watch key value res : keeps (D:=D) same_watch (PutValue key value res).
Proof. unfold_store. watch_ok. Qed.

Lemma GetSubscriptions_watch : keeps (D:=D) same_watch GetSubscriptions.
Proof. unfold GetSubscriptions, mx_Lock, mx_Unlock. watch_ok. Qed.

Lemma GetValue_watch key res : keeps (D:=D) same_watch (GetValue key res).
Proof.
  unfold GetValue.
  apply keeps_bind; [apply same_watch_trans|apply Subscribe_watch|].
  intros [e|]; [watch_ok|apply getLocal_watch].
Qed.

(** Of these, only [Subscribe] can crash, and only when the transport
    fails. *)
Lemma handleMessage_store_returns w key data :
  exists b w', handleMessage_store key data w = Ret b w'.
Proof.
  destruct (isBetter_run w key data) as (b & evs & Hb & _).
  unfold handleMessage_store, ds_Put_local. run. rewrite Hb.
  destruct b; run; [|by eexists _, _].
  destruct (ds_Put _ _ _).2; by eexists _, _.
Qed.

Lemma Subscribe_safe w key : crashed (Subscribe key None w) = false.
Proof.
  unfold_store. run. destruct (mx (store w)); run; [done|].
  destruct (subs (store w) !! key) as [[sub|]|] eqn:Ek; run; rewrite ?Ek; run; done.
Qed.




(** Delivery to the listeners of a group. *)
Lemma listener_channel w p g o c :
  wf w -> wgs w !! p = Some g -> listeners g !! o = Some c ->
  exists ch, chans w !! o = Some ch /\ closed ch = false
    /\ (forall i r, relays w !! i = Some r -> r_proxy r <> o).
Proof.
  intros [] Hg Ho.
  destruct (wf_listeners0 p g o c Hg Ho) as (i & r & Hr & <- & _ & Hpc).
  destruct (wf_out0 i r Hr) as (ch & Hch & Hcl). exists ch. split; [done|]. split.
  - destruct (closed ch); [|done]. destruct Hcl as [Hcl _]. specialize (Hcl eq_refl).
    congruence.
  - intros j r' Hr' Heq. exact (wf_out_proxy0 i j r r' Hr Hr' (eq_sym Heq)).
Qed.

Lemma notify_each_wf ptr data pick ls : forall w,
  wf w ->
  (forall l, l ∈ ls -> exists p g, wgs w !! p = Some g /\ listeners g !! l.1 = Some l.2) ->
  exists cs, (notify_each ptr data pick ls w = Ret tt (set_chans cs w)
              \/ notify_each ptr data pick ls w = Blocked (set_chans cs w))
    /\ wf (set_chans cs w).
Proof.
  induction ls as [|l ls IH]; intros w Hwf Hls; simpl.
  { exists (chans w). run. rewrite set_chans_id. split; [by left|done]. }
  destruct (Hls l ltac:(left)) as (p & g & Hg & Hl).
  destruct (listener_channel w p g l.1 l.2 Hwf Hg Hl) as (ch & Hch & Hop & Hnp).
  assert (Hone : exists cs1,
    (notify_one ptr data pick l w = Ret tt (set_chans cs1 w)
     \/ notify_one ptr data pick l w = Blocked (set_chans cs1 w))
    /\ wf (set_chans cs1 w)).
  { assert (Hpush : wf (set_chans (<[l.1 := pushed data ch]> (chans w)) w)).
    { unfold wf. simpl. by eapply wf_at_chan. }
    unfold notify_one. run.
    destruct (notify_ready w ptr l.1 l.2 !! _) as [[]|]; run.
    - unfold chan_send. rewrite Hch, Hop. case_bool_decide.
      + eexists. split; [by left|done].
      + exists (chans w). rewrite set_chans_id. split; [by right|done].
    - exists (chans w). rewrite set_chans_id. split; [by left|done].
    - exists (chans w). rewrite set_chans_id. split; [by left|done].
    - exists (chans w). rewrite set_chans_id. split; [by right|done]. }
  destruct Hone as (cs1 & [Hrun1|Hrun1] & Hwf1); cbv [mbind M_bind]; rewrite Hrun1.
  - destruct (IH (set_chans cs1 w) Hwf1) as (cs & Hrun & Hwf2).
    { intros l' Hin. apply Hls. by right. }
    exists cs. split; [exact Hrun|exact Hwf2].
  - exists cs1. split; [by right|done].
Qed.

Lemma rw_RLock_RUnlock l l' : rw_RLock l = Some l' -> is_Some (rw_RUnlock l').
Proof. destruct l as [| |[|n]]; intros [= <-]; simpl; by eexists. Qed.

Lemma notifyWatchers_wf w key data pick :
  wf w ->
  wf (world_of (notifyWatchers key data pick w))
  /\ crashed (notifyWatchers key data pick w) = false.
Proof.
  intros Hwf. unfold notifyWatchers, watchLk_RLock, watchLk_RUnlock. run.
  destruct (rw_RLock (watchLk (store w))) as [l1|] eqn:E1; [|done]. run.
  destruct (rw_RLock_RUnlock _ _ E1) as [l2 ->]. run.
  destruct (watching (store w) !! key) as [ptr|] eqn:Ew; run; [|done].
  destruct (wf_watching _ _ _ _ _ Hwf key ptr Ew) as (g & Hg & Hc).
  unfold wg_lk_RLock, wg_lk_RUnlock, wg_lk, wg_get, wg_put. run. rewrite Hg. run.
  destruct (rw_RLock (lk g)) as [l3|] eqn:E3; run; [|done].
  rewrite lookup_insert_eq. run.
  match goal with |- context [notify_each ptr data pick ?ls ?w0] =>
    destruct (notify_each_wf ptr data pick ls w0) as (cs & [Hr|Hr] & Hwf') end.
  - unfold wf. simpl. by eapply wf_at_group.
  - intros [o c] Hin%elem_of_map_to_list. exists ptr, (set_lk l3 g). simpl.
    by rewrite lookup_insert_eq.
  - rewrite Hr. run. rewrite lookup_insert_eq. run.
    destruct (rw_RLock_RUnlock _ _ E3) as [l4 ->]. run. split; [|done].
    unfold wf in *. simpl in *.
    eapply (wf_at_group _ _ _ _ _ ptr (set_lk l3 g)); [|done|done|exact Hwf'].
    by rewrite lookup_insert_eq.
  - rewrite Hr. by run.
Qed.

Lemma handleMessage_wf w key data pick :
  wf w ->
  wf (world_of (handleMessage key data pick w))
  /\ crashed (handleMessage key data pick w) = false.
Proof.
  intros Hwf. destruct (handleMessage_store_returns w key data) as (b & w1 & Hrun).
  pose proof (handleMessage_store_watch key data w) as Hsame. rewrite Hrun in Hsame.
  unfold handleMessage. run. rewrite Hrun.
  destruct b; [|by split; [eapply same_watch_wf|]].
  by apply notifyWatchers_wf, (same_watch_wf w).
Qed.

Lemma Cancel_wf w name :
  wf w ->
  wf (world_of (Cancel name w))
  /\ (subs (store w) !! name <> Some None -> crashed (Cancel name w) = false).
Proof.
  intros Hwf. unfold_store. unfold wg_close_closing, wg_get, wg_put. run.
  destruct (mx (store w)); run; [done|].
  assert (Hclose :
    forall ptr g, watching (store w) !! name = Some ptr -> wgs w !! ptr = Some g ->
    wf_at (delete name (watching (store w)))
          (<[ptr := {| lk := lk g; closing := true; listeners := listeners g |}]> (wgs w))
          (chans w) (relays w) (next w)).
  { intros ptr g Hp Hg. by apply (wf_at_cancel _ _ _ _ _ name ptr g). }
  destruct (subs (store w) !! name) as [[sub|]|] eqn:Es; run; [|done|];
    (destruct (watchLk (store w)); run; [|done..]);
    (destruct (watching (store w) !! name) as [ptr|] eqn:Ew; run;
     [destruct (wf_watching _ _ _ _ _ Hwf name ptr Ew) as (g & Hg & Hc);
      rewrite Hg; run; rewrite Hc; run;
      split; [by apply (Hclose ptr g)|done]
     |split; [exact Hwf|done]]).
Qed.

Lemma relay_start_wf w i :
  wf w -> wf (world_of (relay_start i w)) /\ crashed (relay_start i w) = false.
Proof.
  intros Hwf. unfold relay_start, context_WithCancel, wg_get, wg_put, relay_set_pc. run.
  destruct (relays w !! i) as [r|] eqn:Er; run; [|done].
  destruct (r_pc r) eqn:Epc; run; [|done..].
  destruct (wf_group _ _ _ _ _ Hwf i r Er) as [g Hg]. rewrite Hg. run.
  split; [|done]. unfold wf. simpl.
  apply (wf_at_mono _ _ _ _ (next w)); [lia|]. by apply wf_at_relay_start.
Qed.

Lemma proxy_is_empty w i r :
  wf w -> relays w !! i = Some r -> can_recv w (r_proxy r) = false.
Proof.
  intros Hwf Hr. unfold can_recv. by rewrite (wf_proxy _ _ _ _ _ Hwf i r Hr).
Qed.

Lemma relay_exit_wf w i r c :
  wf w -> relays w !! i = Some r -> r_pc r = RelayRunning c ->
  wf (world_of (relay_exit i r c w)) /\ crashed (relay_exit i r c w) = false.
Proof.
  intros Hwf Hr Hpc.
  destruct (wf_group _ _ _ _ _ Hwf i r Hr) as [g Hg].
  destruct (wf_out _ _ _ _ _ Hwf i r Hr) as (ch & Hch & Hcl).
  assert (Hop : closed ch = false).
  { destruct (closed ch); [|done]. destruct Hcl as [Hcl _]. specialize (Hcl eq_refl).
    congruence. }
  unfold relay_exit, context_cancel, wg_lk_Lock, wg_lk_Unlock, wg_lk, wg_get, wg_put,
    chan_close, relay_set_pc.
  run. rewrite Hg. run.
  destruct (lk g) eqn:Elk; run; [|done..].
  rewrite !lookup_insert_eq. run. rewrite Hch, Hop. split; [|done].
  unfold wf. simpl. rewrite !insert_insert_eq.
  by apply (wf_at_relay_exit _ _ _ _ _ i r g c ch RWFree).
Qed.

Lemma relay_loop_wf w i pick :
  wf w -> wf (world_of (relay_loop i pick w)) /\ crashed (relay_loop i pick w) = false.
Proof.
  intros Hwf. unfold relay_loop. run.
  destruct (relays w !! i) as [r|] eqn:Er; run; [|done].
  destruct (r_pc r) as [|c|] eqn:Epc; run; [done| |done].
  unfold relay_ready. rewrite (proxy_is_empty w i r Hwf Er). simpl.
  match goal with |- context [@lookup _ RelayCase _ _ ?n ?l] =>
    destruct (l !! n) as [x|] eqn:Ex end; [|done].
  destruct x; [|by apply relay_exit_wf..].
  apply list_elem_of_lookup_2 in Ex.
  apply elem_of_app in Ex as [Ex|Ex]; case_match;
    by repeat (apply elem_of_cons in Ex as [?|Ex]; [done|]);
       apply elem_of_nil in Ex.
Qed.

Lemma chan_recv_wf w c :
  wf w -> wf (world_of (chan_recv c w)) /\ crashed (chan_recv c w) = false.
Proof.
  intros Hwf. unfold chan_recv.
  destruct (chans w !! c) as [ch|] eqn:Ech; [|done].
  destruct (buf ch) as [|v rest] eqn:Eb; [by destruct (closed ch)|].
  split; [|done]. unfold wf. simpl. eapply wf_at_chan; [exact Ech|done| |done].
  intros i r Hr Heq. rewrite <- Heq, (wf_proxy _ _ _ _ _ Hwf i r Hr) in Ech.
  injection Ech as <-. done.
Qed.

(** [SearchValue], part by part. *)
Lemma SearchValue_group_wf w key :
  wf w ->
  match SearchValue_group key w with
  | Ret ptr wa =>
      wf wa /\ watchLk (store wa) = RWFree
      /\ exists g, wgs wa !! ptr = Some g /\ lk g = RWWriter
  | Blocked wb => wf wb
  | _ => False
  end.
Proof.
  intros Hwf. unfold SearchValue_group, watchLk_Lock, watchLk_Unlock,
    wg_lk_Lock, wg_lk, wg_get, wg_put. run.
  destruct (watchLk (store w)) eqn:Elk; run; [|done..].
  destruct (watching (store w) !! key) as [ptr|] eqn:Ew; run.
  - destruct (wf_watching _ _ _ _ _ Hwf key ptr Ew) as (g & Hg & Hc). rewrite Hg. run.
    destruct (lk g) eqn:Eg; run; [|done..].
    split; [|split; [done|]].
    + unfold wf. simpl. by eapply wf_at_group.
    + eexists. by rewrite lookup_insert_eq.
  - rewrite lookup_insert_eq. run. split; [|split; [done|]].
    + unfold wf. simpl.
      eapply (wf_at_group _ _ _ _ _ (next w)); [by rewrite lookup_insert_eq|done|done|].
      by apply wf_at_new_group.
    + eexists. by rewrite lookup_insert_eq.
Qed.

Lemma SearchValue_seed_wf w key :
  wf w ->
  exists wb ch, SearchValue_seed key w = Ret (next w) wb
    /\ wf wb
    /\ chans wb !! next w = Some ch /\ closed ch = false
    /\ store wb = store w /\ wgs wb = wgs w /\ relays wb = relays w.
Proof.
  intros Hwf. unfold SearchValue_seed, make_chan. run.
  match goal with |- context [getLocal key ?w0] =>
    destruct (getLocal_run w0 key) as (evs & -> & _);
    destruct (getLocal_result w0 key) as [v|e] end; run.
  - unfold chan_send. run. rewrite lookup_insert_eq. run.
    eexists _, _. split; [done|]. simpl. rewrite lookup_insert_eq.
    split; [|by repeat split]. unfold wf. simpl. rewrite insert_insert_eq.
    by apply wf_at_new_chan.
  - eexists _, _. split; [done|]. simpl. rewrite lookup_insert_eq.
    split; [|by repeat split]. unfold wf. simpl. by apply wf_at_new_chan.
Qed.

Lemma SearchValue_join_wf w ptr c out g ch :
  wf w -> watchLk (store w) = RWFree ->
  wgs w !! ptr = Some g -> lk g = RWWriter ->
  chans w !! out = Some ch -> closed ch = false ->
  (forall i r, relays w !! i = Some r -> r_outCh r <> out /\ r_proxy r <> out) ->
  exists wc, SearchValue_join ptr c out w = Ret tt wc /\ wf wc.
Proof.
  intros Hwf Hlk Hg Hw Hch Hop Hnew. unfold SearchValue_join, watchGroup_add, make_chan,
    watchLk_Lock, watchLk_Unlock, wg_lk_Unlock, wg_lk, wg_get, wg_put.
  run. rewrite Hlk. run. rewrite Hg. run. rewrite Hw. run.
  eexists. split; [done|]. unfold wf. simpl.
  eapply (wf_at_group _ _ _ _ _ ptr g); [done|done|done|].
  eapply wf_at_add_relay; try done; by eexists.
Qed.

Lemma SearchValue_wf w c key res :
  wf w ->
  wf (world_of (SearchValue c key res w))
  /\ (res = None -> crashed (SearchValue c key res w) = false).
Proof.
  intros Hwf. unfold SearchValue. run.
  pose proof (same_watch_wf _ _ (Subscribe_watch key res w) Hwf) as Hwf1.
  assert (Hsafe : res = None -> crashed (Subscribe key res w) = false)
    by (intros ->; apply Subscribe_safe).
  destruct (Subscribe key res w) as [[e|] w1| | |]; simpl in *; try done.
  pose proof (SearchValue_group_wf w1 key Hwf1) as Hgrp.
  destruct (SearchValue_group key w1) as [ptr wa| | |]; simpl in *; try done.
  destruct Hgrp as (Hwfa & Hlka & g & Hg & Hlk).
  destruct (SearchValue_seed_wf wa key Hwfa) as (wb & ch & -> & Hwfb & Hch & Hop & Hsb
    & Hgb & Hrb).
  simpl. destruct (SearchValue_join_wf wb ptr c (next wa) g ch) as (wc & -> & Hwfc);
    try done.
  - by rewrite Hsb.
  - by rewrite Hgb.
  - intros i r Hr. rewrite Hrb in Hr. pose proof Hwfa as [].
    destruct (wf_out0 i r Hr) as (ch0 & Hch0 & _).
    pose proof (wf_chan_ids0 (r_outCh r) ltac:(by eexists)).
    pose proof (wf_chan_ids0 (r_proxy r) (mk_is_Some _ _ (wf_proxy0 i r Hr))).
    lia.
Qed.

Lemma context_cancel_watch c : keeps (D:=D) same_watch (context_cancel c).
Proof. unfold context_cancel. watch_ok. Qed.

(** Every step keeps the watch path together. *)
Lemma store_step_wf w w' : store_step w w' -> wf w -> wf w'.
Proof.
  intros [] Hwf.
  - by eapply same_watch_wf; [apply PutValue_watch|].
  - by eapply same_watch_wf; [apply Subscribe_watch|].
  - by eapply same_watch_wf; [apply GetValue_watch|].
  - by apply SearchValue_wf.
  - by eapply same_watch_wf; [apply GetSubscriptions_watch|].
  - by apply Cancel_wf.
  - by apply handleMessage_wf.
  - by apply relay_start_wf.
  - by apply relay_loop_wf.
  - by apply chan_recv_wf.
  - by eapply same_watch_wf; [apply context_cancel_watch|].
Qed.

Lemma reachable_wf w w' : rtc store_step w w' -> wf w -> wf w'.
Proof. induction 1; [done|]. intros Hwf. by eapply IHrtc, store_step_wf. Qed.

Lemma wf_new_world (p : PubsubValueStore D) : watching p = ∅ -> wf (new_world p).
Proof.
  intros Hw. unfold wf. simpl. rewrite Hw. constructor; try done.
  - intros p0 [g Hg]. by rewrite lookup_empty in Hg.
  - intros c0 [ch Hch]. by rewrite lookup_empty in Hch.
Qed.

(** A turn of a relay goroutine waits, or runs the deferred function:
    the proxy channel has nothing to forward. *)
Lemma relay_loop_cases w i r pick :
  wf w -> relays w !! i = Some r ->
  relay_loop i pick w = Blocked w
  \/ exists c, r_pc r = RelayRunning c /\ relay_loop i pick w = relay_exit i r c w.
Proof.
  intros Hwf Hr. unfold relay_loop. run. rewrite Hr.
  destruct (r_pc r) as [|c|] eqn:Epc; run; [by left| |by left].
  unfold relay_ready. rewrite (proxy_is_empty w i r Hwf Hr). simpl.
  match goal with |- context [@lookup _ RelayCase _ _ ?n ?l] =>
    destruct (l !! n) as [x|] eqn:Ex end; [|by left].
  destruct x; [|right; by exists c..].
  apply list_elem_of_lookup_2 in Ex.
  apply elem_of_app in Ex as [Ex|Ex]; case_match;
    by repeat (apply elem_of_cons in Ex as [?|Ex]; [done|]);
       apply elem_of_nil in Ex.
Qed.

(** ** Calls that return leave no lock behind *)

Lemma quiet_step_store_step w w' : quiet_step w w' -> store_step w w'.
Proof. intros []; constructor. Qed.

Lemma same_locks_unlocked w w' : same_locks w w' -> unlocked w -> unlocked w'.
Proof. intros (Hmx & Hlk & Hgs) (? & ? & ?). unfold unlocked. by rewrite Hmx, Hlk, Hgs. Qed.

Lemma handleMessage_store_locks key data :
  keeps (D:=D) same_locks (handleMessage_store key data).
Proof.
  intros w. destruct (isBetter_run w key data) as (b & evs & Hb & _).
  unfold handleMessage_store, ds_Put_local. run. rewrite Hb.
  destruct b; run; [|done]. by destruct (ds_Put _ _ _).2.
Qed.

Lemma PutValue_unlocked w key value res :
  unlocked w ->
  returned (PutValue key value res w) = true
  /\ unlocked (world_of (PutValue key value res w)).
Proof.
  intros (Hmx & Hlk & Hgs). unfold unlocked. unfold_store. run. rewrite Hmx. run.
  destruct (subs (store w) !! key) as [e|]; run; by repeat split.
Qed.

Lemma Subscribe_unlocked w key res :
  unlocked w ->
  (res = None -> returned (Subscribe key res w) = true)
  /\ (returned (Subscribe key res w) = true ->
      unlocked (world_of (Subscribe key res w))).
Proof.
  intros (Hmx & Hlk & Hgs). unfold unlocked. unfold_store. run. rewrite Hmx. run.
  destruct (subs (store w) !! key) as [[sub|]|] eqn:Ek; destruct res; run;
    rewrite ?Ek; run; by repeat split.
Qed.

Lemma GetValue_unlocked w key res :
  unlocked w ->
  (res = None -> returned (GetValue key res w) = true)
  /\ (returned (GetValue key res w) = true ->
      unlocked (world_of (GetValue key res w))).
Proof.
  intros Hu. destruct (Subscribe_unlocked w key res Hu) as [Hret Hkeep].
  unfold GetValue. run.
  destruct (Subscribe key res w) as [[e|] w1| | |]; simpl in *;
    [by split; [|intros _; apply Hkeep]| |by split; [intros ->; apply Hret|]..].
  destruct (getLocal_run w1 key) as (evs & -> & _). simpl. split; [done|].
  intros _. by apply Hkeep.
Qed.

Lemma GetSubscriptions_unlocked w :
  unlocked w ->
  returned (GetSubscriptions w) = true /\ unlocked (world_of (GetSubscriptions w)).
Proof.
  intros (Hmx & Hlk & Hgs). unfold unlocked, GetSubscriptions, mx_Lock, mx_Unlock.
  run. rewrite Hmx. run. by repeat split.
Qed.

Lemma groups_free_alter (gs : gmap WatchGroupPtr watchGroup) f p :
  (forall g, lk (f g) = lk g) ->
  map_Forall (fun _ g => lk g = RWFree) gs ->
  map_Forall (fun _ g => lk g = RWFree) (alter f p gs).
Proof.
  intros Hf Hgs q g Hq. destruct (decide (q = p)) as [->|Hne].
  - rewrite lookup_alter_eq in Hq. destruct (gs !! p) as [g0|] eqn:E; [|done].
    injection Hq as <-. rewrite Hf. by apply (Hgs p).
  - rewrite lookup_alter_ne in Hq by done. by apply (Hgs q).
Qed.

Lemma Cancel_unlocked w name :
  wf w -> unlocked w ->
  (subs (store w) !! name <> Some None -> returned (Cancel name w) = true)
  /\ (returned (Cancel name w) = true -> unlocked (world_of (Cancel name w))).
Proof.
  intros Hwf (Hmx & Hlk & Hgs).
  destruct (decide (subs (store w) !! name = Some None)) as [Hnil|Hs].
  { split; [done|]. unfold_store. run. rewrite Hmx. run. by rewrite Hnil. }
  destruct (Cancel_run w name Hmx Hlk Hs) as (w' & Hrun & _ & _ & Hmx' & Hlk' & _
    & Hgs' & _).
  { intros ptr Hptr. apply (wf_watching _ _ _ _ _ Hwf name ptr Hptr). }
  rewrite Hrun. simpl. split; [done|]. intros _.
  split; [done|]. split; [done|]. rewrite Hgs'.
  destruct (watching (store w) !! name); [|done]. by apply groups_free_alter.
Qed.

Lemma SearchValue_unlocked w c key res :
  wf w -> unlocked w ->
  (res = None -> returned (SearchValue c key res w) = true)
  /\ (returned (SearchValue c key res w) = true ->
      unlocked (world_of (SearchValue c key res w))).
Proof.
  intros Hwf Hu. destruct (Subscribe_unlocked w key res Hu) as [Hret Hkeep].
  pose proof (same_watch_wf _ _ (Subscribe_watch key res w) Hwf) as Hwf1.
  unfold SearchValue. run.
  destruct (Subscribe key res w) as [[e|] w1| | |]; simpl in *;
    [by split; [|intros _; apply Hkeep]| |by split; [intros ->; apply Hret|]..].
  destruct (Hkeep eq_refl) as (Hmx1 & Hlk1 & Hgs1).
  destruct (SearchValue_group_run w1 key Hlk1) as
    (ptr & wa & g & -> & Hwa & Hsame & Hga & Hwr & Hls & Hlka & Hmxa & _ & Hna & Hca
       & Hra & Hgsa).
  { intros ptr Hptr. destruct (wf_watching _ _ _ _ _ Hwf1 key ptr Hptr) as (g & Hg & _).
    exists g. split; [done|]. by apply (Hgs1 ptr). }
  destruct (SearchValue_seed_run wa key) as (wb & -> & Hch & Hsb & Hgb & Hnb & Hrb).
  destruct (SearchValue_join_run wb ptr c (next wa) g) as (wc & Hjoin & _ & Hsc & Hgc & _).
  { by rewrite Hsb. } { by rewrite Hgb. } { done. } { lia. }
  simpl. rewrite Hjoin. simpl. split; [done|]. intros _.
  split; [by rewrite Hsc, Hsb, Hmxa|]. split; [by rewrite Hsc, Hsb|].
  rewrite Hgc, Hgb, Hgsa, insert_insert_eq. by apply map_Forall_insert_2.
Qed.

Lemma notifyWatchers_unlocked w key data pick :
  wf w -> unlocked w ->
  returned (notifyWatchers key data pick w) = true ->
  unlocked (world_of (notifyWatchers key data pick w)).
Proof.
  intros Hwf (Hmx & Hlk & Hgs).
  unfold notifyWatchers, watchLk_RLock, watchLk_RUnlock. run. rewrite Hlk. run.
  destruct (watching (store w) !! key) as [ptr|] eqn:Ew; run; [|by intros _].
  destruct (wf_watching _ _ _ _ _ Hwf key ptr Ew) as (g & Hg & Hc).
  unfold wg_lk_RLock, wg_lk_RUnlock, wg_lk, wg_get, wg_put. run. rewrite Hg. run.
  rewrite (Hgs ptr g Hg). run. rewrite lookup_insert_eq. run.
  match goal with |- context [notify_each ptr data pick ?ls ?w0] =>
    destruct (notify_each_wf ptr data pick ls w0) as (cs & [Hr|Hr] & _) end.
  - unfold wf. simpl. by eapply wf_at_group.
  - intros [o c] Hin%elem_of_map_to_list. exists ptr, (set_lk (RWReaders 1) g). simpl.
    by rewrite lookup_insert_eq.
  - rewrite Hr. run. rewrite lookup_insert_eq. run. intros _.
    split; [done|]. split; [done|]. simpl. rewrite insert_insert_eq.
    by apply map_Forall_insert_2.
  - rewrite Hr. by run.
Qed.

Lemma handleMessage_unlocked w key data pick :
  wf w -> unlocked w ->
  returned (handleMessage key data pick w) = true ->
  unlocked (world_of (handleMessage key data pick w)).
Proof.
  intros Hwf Hu. destruct (handleMessage_store_returns w key data) as (b & w1 & Hrun).
  pose proof (handleMessage_store_watch key data w) as Hsame. rewrite Hrun in Hsame.
  assert (Hu1 : unlocked w1).
  { pose proof (handleMessage_store_locks key data w) as Hl. rewrite Hrun in Hl.
    by apply (same_locks_unlocked w). }
  unfold handleMessage. run. rewrite Hrun. destruct b; [|by intros _].
  apply notifyWatchers_unlocked; [|done]. by apply (same_watch_wf w).
Qed.

Lemma relay_start_unlocked w i :
  wf w -> unlocked w ->
  returned (relay_start i w) = true -> unlocked (world_of (relay_start i w)).
Proof.
  intros Hwf (Hmx & Hlk & Hgs).
  unfold relay_start, context_WithCancel, wg_get, wg_put, relay_set_pc. run.
  destruct (relays w !! i) as [r|] eqn:Er; run; [|done].
  destruct (r_pc r) eqn:Epc; run; [|done..].
  destruct (wf_group _ _ _ _ _ Hwf i r Er) as [g Hg]. rewrite Hg. run. intros _.
  split; [done|]. split; [done|]. simpl. apply map_Forall_insert_2; [|done].
  simpl. by apply (Hgs (r_wg r)).
Qed.

Lemma relay_loop_unlocked w i pick :
  wf w -> unlocked w ->
  returned (relay_loop i pick w) = true -> unlocked (world_of (relay_loop i pick w)).
Proof.
  intros Hwf (Hmx & Hlk & Hgs).
  destruct (relays w !! i) as [r|] eqn:Er.
  2: { unfold relay_loop. run. by rewrite Er. }
  destruct (relay_loop_cases w i r pick Hwf Er) as [->|(c & Hpc & ->)]; [done|].
  destruct (wf_group _ _ _ _ _ Hwf i r Er) as [g Hg].
  destruct (wf_out _ _ _ _ _ Hwf i r Er) as (ch & Hch & Hcl).
  destruct (relay_exit_run w i r c g ch) as (w' & -> & _ & Hgs' & _ & _ & Hst);
    try done.
  { by apply (Hgs (r_wg r)). }
  { destruct (closed ch); [|done]. destruct Hcl as [Hcl _]. specialize (Hcl eq_refl).
    congruence. }
  intros _. simpl. split; [by rewrite Hst|]. split; [by rewrite Hst|].
  rewrite Hgs'. apply map_Forall_insert_2; [|done]. simpl. by apply (Hgs (r_wg r)).
Qed.

Lemma chan_recv_locks c : keeps (D:=D) same_locks (chan_recv c).
Proof. unfold chan_recv. chans_ok. Qed.

Lemma context_cancel_locks c : keeps (D:=D) same_locks (context_cancel c).
Proof. unfold context_cancel. chans_ok. Qed.

Lemma quiet_step_unlocked w w' : quiet_step w w' -> wf w -> unlocked w -> unlocked w'.
Proof.
  intros [] Hwf Hu.
  - by apply PutValue_unlocked.
  - by apply Subscribe_unlocked.
  - by apply GetValue_unlocked.
  - by apply SearchValue_unlocked.
  - by apply GetSubscriptions_unlocked.
  - by apply Cancel_unlocked.
  - by apply handleMessage_unlocked.
  - by apply relay_start_unlocked.
  - by apply relay_loop_unlocked.
  - by eapply same_locks_unlocked; [apply chan_recv_locks|].
  - by eapply same_locks_unlocked; [apply context_cancel_locks|].
Qed.

Lemma quiet_reachable w w' :
  rtc quiet_step w w' -> wf w -> unlocked w -> wf w' /\ unlocked w'.
Proof.
  induction 1 as [|w1 w2 w3 Hstep _ IH]; [done|]. intros Hwf Hu. apply IH.
  - by eapply store_step_wf; [apply quiet_step_store_step|].
  - by eapply quiet_step_unlocked.
Qed.

(** ** A listener from joining to its first record *)

Lemma Subscribe_ctx_done w key res : ctx_done (world_of (Subscribe key res w)) = ctx_done w.
Proof.
  unfold_store. run. destruct (mx (store w)); run; [done|].
  destruct (subs (store w) !! key) as [[sub|]|] eqn:Ek; destruct res; run;
    rewrite ?Ek; run; done.
Qed.

(** Delivery to the only listener of a group, whose channel is empty
    and whose context is live. *)
Lemma notifyWatchers_one_listener w key data pick (ptr : WatchGroupPtr) (out : Chan)
    (cx : Context) :
  watchLk (store w) = RWFree ->
  watching (store w) !! key = Some ptr ->
  wgs w !! ptr
  = Some {| lk := RWFree; closing := false; listeners := {[out := cx]} |} ->
  chans w !! out = Some empty_proxy ->
  ctx_done w = ∅ ->
  exists w', notifyWatchers key data pick w = Ret tt w'
    /\ chans w' !! out = Some (pushed data empty_proxy).
Proof.
  intros Hl0 Hw0 Hg0 Hc0 Hd0.
  unfold notifyWatchers, watchLk_RLock, watchLk_RUnlock, wg_lk_RLock,
    wg_lk_RUnlock, wg_lk, wg_get, wg_put.
  run. rewrite Hl0. run. rewrite Hw0. run. rewrite Hg0. run.
  rewrite lookup_insert_eq. run. rewrite map_to_list_singleton. simpl.
  unfold notify_one. run.
  match goal with |- context [notify_ready ?w0 ptr out cx] =>
    assert (notify_ready w0 ptr out cx = [CaseSend]) as -> end.
  { unfold notify_ready, can_send, ctx_Done. simpl.
    rewrite Hc0, Hd0, lookup_insert_eq. simpl.
    rewrite bool_decide_eq_false_2 by set_solver.
    destruct (ctx_parent w !! cx); [|done].
    by rewrite bool_decide_eq_false_2 by set_solver. }
  change (length [CaseSend]) with 1. rewrite Nat.mod_1_r. simpl.
  unfold chan_send. simpl. rewrite Hc0. simpl. rewrite lookup_insert_eq. run.
  eexists. split; [done|]. simpl. by rewrite lookup_insert_eq.
Qed.

(** The listener joins: [SearchValue] on a key that has no group and
    no valid cached record, after its [Subscribe]. *)
Lemma SearchValue_joins_empty w w1 c key e :
  Subscribe key None w = Ret None w1 ->
  watchLk (store w1) = RWFree ->
  watching (store w1) !! key = None ->
  getLocal_result w1 key = inr e ->
  exists wj,
    SearchValue c key None w = Ret (inl (S (next w1))) wj
    /\ chans wj !! S (next w1) = Some empty_proxy
    /\ relays wj = relays w1 ++ [{| r_wg := next w1; r_ctx := c; r_outCh := S (next w1);
                                    r_proxy := S (S (next w1)); r_pc := RelayNew |}]
    /\ wgs wj !! next w1 = Some {| lk := RWFree; closing := false; listeners := ∅ |}
    /\ watching (store wj) !! key = Some (next w1)
    /\ watchLk (store wj) = RWFree
    /\ ctx_done wj = ctx_done w1
    /\ next wj = S (S (S (next w1)))
    /\ same_cache w1 wj.
Proof.
  intros Hsub Hlk1 Hw Hcache1.
  destruct (SearchValue_group_new w1 key Hlk1 Hw)
    as (wa & Hgrp & Hga & Hwa & Hlka & Hna & Hca & Hra & Hda & Hdsa & HVa).
  destruct (SearchValue_seed_run wa key) as (wb & Hseed & Hch & Hsb & Hgb & Hnb & Hrb & Hdb).
  assert (Hres : getLocal_result wa key = inr e).
  { unfold getLocal_result in *. by rewrite Hdsa, HVa. }
  rewrite Hres, Hna in Hch. rewrite Hna in Hseed.
  destruct (SearchValue_join_run wb (next w1) c (S (next w1))
              {| lk := RWWriter; closing := false; listeners := ∅ |})
    as (wc & Hjoin & Hcc & Hsc & Hgc & Hrc & Hdc & Hnc).
  { by rewrite Hsb. }
  { by rewrite Hgb, Hga, lookup_insert_eq. }
  { done. }
  { lia. }
  exists wc. split.
  { unfold SearchValue. run. rewrite Hsub. run. rewrite Hgrp. run. rewrite Hseed. run.
    by rewrite Hjoin. }
  split; [etrans; [exact Hcc|exact Hch]|].
  split; [by rewrite Hrc, Hrb, Hra, Hnb, Hna|].
  split; [by rewrite Hgc, lookup_insert_eq|].
  split; [by rewrite Hsc, Hsb, Hwa, lookup_insert_eq|].
  split; [by rewrite Hsc, Hsb|].
  split; [by rewrite Hdc, Hdb|].
  split; [by rewrite Hnc, Hnb, Hna|].
  split.
  - by rewrite Hsc, Hsb.
  - by rewrite Hsc, Hsb.
Qed.

(** The first statements of its goroutine. *)
Lemma relay_start_joins w i r :
  relays w !! i = Some r -> r_pc r = RelayNew ->
  wgs w !! r_wg r = Some {| lk := RWFree; closing := false; listeners := ∅ |} ->
  exists w2,
    relay_start i w = Ret tt w2
    /\ chans w2 = chans w
    /\ wgs w2 !! r_wg r
       = Some {| lk := RWFree; closing := false;
                 listeners := {[r_outCh r := ctx_derived (next w)]} |}
    /\ watching (store w2) = watching (store w)
    /\ watchLk (store w2) = watchLk (store w)
    /\ ctx_done w2 = ctx_done w
    /\ same_cache w w2.
Proof.
  intros Hr Hpc Hg.
  unfold relay_start, context_WithCancel, wg_get, wg_put, relay_set_pc. run.
  rewrite Hr, Hpc. run. rewrite Hg. run.
  eexists. split; [reflexivity|]. simpl. rewrite lookup_insert_eq.
  by repeat split.
Qed.

(** A valid record on a cache without a valid record is accepted. *)
Lemma handleMessage_store_accepts w key data e :
  getLocal_result w key = inr e ->
  Validate (Validator (store w)) key data = None ->
  exists w', handleMessage_store key data w = Ret true w' /\ ctx_done w' = ctx_done w.
Proof.
  intros Hcache Hval.
  unfold handleMessage_store, isBetter, call_Validate, ds_Put_local.
  run. rewrite Hval. run.
  match goal with |- context [getLocal key ?w0] =>
    destruct (getLocal_run w0 key) as (evs & -> & _);
    replace (getLocal_result w0 key) with (getLocal_result w key) by done end.
  rewrite Hcache. run.
  destruct (ds_Put _ _ _).2; run; by eexists.
Qed.

(** X20. From joining to the first record.  On a key that has no
    watch group and no valid cached record, with no context cancelled:
    [SearchValue] returns an empty channel; once the goroutine of
    [watchGroup.add] has run its first statements, the next record that
    the message loop accepts is delivered, and the listener reads it
    from the channel. *)
Theorem X20_listener_gets_next_record w c key data pick e :
  mx (store w) = false ->
  watchLk (store w) = RWFree ->
  watching (store w) !! key = None ->
  ctx_done w = ∅ ->
  getLocal_result w key = inr e ->
  Validate (Validator (store w)) key data = None ->
  exists out w1 w2 w3 w4,
    SearchValue c key None w = Ret (inl out) w1
    /\ chans w1 !! out = Some empty_proxy
    /\ relay_start (length (relays w)) w1 = Ret tt w2
    /\ handleMessage key data pick w2 = Ret tt w3
    /\ chan_recv out w3 = Ret (Some data) w4.
Proof.
  intros Hmx Hlk Hw Hdone Hcache Hval.
  destruct (Subscribe_frame w key Hmx)
    as (w1 & Hsub & Hmx1 & Hlk1 & Hw1 & Hg1 & Hc1 & Hd1 & HV1).
  pose proof (Subscribe_relays w key None) as Hr1.
  pose proof (Subscribe_ctx_done w key None) as Hdone1.
  rewrite Hsub in Hr1, Hdone1. simpl in Hr1, Hdone1.
  destruct (SearchValue_joins_empty w w1 c key e Hsub)
    as (wj & Hsv & Hcj & Hrj & Hgj & Hwj & Hlj & Hdj & Hnj & Hdsj & HVj).
  { by rewrite Hlk1. }
  { by rewrite Hw1. }
  { unfold getLocal_result in *. by rewrite Hd1, HV1. }
  destruct (relay_start_joins wj (length (relays w)) _
              ltac:(rewrite Hrj, <- Hr1; by apply list_lookup_middle) eq_refl Hgj)
    as (w2 & Hst & Hc2 & Hg2 & Hw2 & Hl2 & Hd2 & Hds2 & HV2).
  simpl in Hg2.
  destruct (handleMessage_store_accepts w2 key data e) as (ws & Hrun & Hdss).
  { unfold getLocal_result in *. by rewrite Hds2, Hdsj, Hd1, HV2, HVj, HV1. }
  { by rewrite HV2, HVj, HV1. }
  pose proof (handleMessage_store_watch key data w2) as (Hws & Hgs & Hcs & _).
  pose proof (handleMessage_store_locks key data w2) as (_ & Hls & _).
  rewrite Hrun in Hws, Hgs, Hcs, Hls. simpl in Hws, Hgs, Hcs, Hls.
  destruct (notifyWatchers_one_listener ws key data pick (next w1) (S (next w1))
              (ctx_derived (next wj))) as (w3 & Hm & Hc3).
  { by rewrite Hls, Hl2. }
  { by rewrite Hws, Hw2. }
  { by rewrite Hgs. }
  { by rewrite Hcs, Hc2. }
  { by rewrite Hdss, Hd2, Hdj, Hdone1. }
  eexists (S (next w1)), wj, w2, w3, _. split; [done|]. split; [done|].
  split; [done|]. split.
  { unfold handleMessage. run. by rewrite Hrun. }
  unfold chan_recv. rewrite Hc3. reflexivity.
Qed.

End Facts.

(** On a new store whose transport refuses the subscription. *)
Lemma C3_Subscribe_error_is_fatal_witness :
  exists w', Subscribe "k" (Some (errors_New "subscribe failed")) fresh_world
             = Fatal "sync: unlock of unlocked mutex" w'
    /\ subs (store w') = subs (store fresh_world).
Proof. apply C3_Subscribe_error_is_fatal; reflexivity. Defined.

(** On a new store after one [PutValue] on the key. *)
Lemma C4_Cancel_bootstrapping_panics_witness :
  let w := world_of (PutValue "k" [] None fresh_world) in
  (exists w', Cancel "k" w
              = Panic "invalid memory address or nil pointer dereference" w'
     /\ subs (store w') !! "k" = Some None)
  /\ (forall nil_ok b w', Cancel_with nil_ok "k" w = Ret b w' -> b = true).
Proof. apply C4_Cancel_bootstrapping_panics; reflexivity. Defined.

(** ** NotFound for a key that is stored *)

(** Against C7 as the spec words it: the key ["k"] is stored, the
    backend finds it, and [getLocal] and [GetValue] return
    [routing.ErrNotFound], which is here the validator's error. *)
Lemma C7_NotFound_for_stored_key :
  ds_Get (ds (store rejected_as_NotFound_world)) (NewKeyFromBinary "k") = inl v1
  /\ value_of (getLocal "k" rejected_as_NotFound_world) = Some (inr routing_ErrNotFound)
  /\ value_of (GetValue "k" None rejected_as_NotFound_world)
     = Some (inr routing_ErrNotFound).
Proof.
  split; [vm_compute; reflexivity|]. split; vm_compute; reflexivity.
Qed.

(** ** A new store *)

(** C10. The store that [NewPubsubValueStore] builds has an empty map
    datastore as its cache, whatever the arguments.  On it [GetValue],
    with its [Subscribe] succeeding, returns [routing.ErrNotFound] for
    every key; and so it does in any world in which the cache is still
    that empty datastore. *)
Theorem C10_new_store_GetValue_NotFound (c : Context) (h : Host) (r : ContentRouting)
    (p : PubSub) (V : record_Validator) (key : string) :
  let w0 := new_world (NewPubsubValueStore c h r p V) in
  ds (store w0) = NewMapDatastore
  /\ (exists w', GetValue key None w0 = Ret (inr routing_ErrNotFound) w')
  /\ (forall (w : World MapDatastore) res w1,
        ds (store w) = NewMapDatastore ->
        Subscribe key res w = Ret None w1 ->
        exists w', GetValue key res w = Ret (inr routing_ErrNotFound) w').
Proof.
  intros w0.
  assert (Hgen : forall (w : World MapDatastore) res w1,
    ds (store w) = NewMapDatastore -> Subscribe key res w = Ret None w1 ->
    exists w', GetValue key res w = Ret (inr routing_ErrNotFound) w').
  { intros w res w1 Hds Hsub.
    pose proof (Subscribe_cache w key res) as [Hc _]. rewrite Hsub in Hc. simpl in Hc.
    destruct (getLocal_run w1 key) as (evs & Hrun & _).
    unfold GetValue. run. rewrite Hsub, Hrun. eexists. f_equal.
    unfold getLocal_result. rewrite Hc, Hds. simpl.
    unfold NewMapDatastore. by rewrite lookup_empty. }
  split; [done|]. split; [|exact Hgen].
  assert (exists w1, Subscribe key None w0 = Ret None w1) as [w1 Hsub].
  { unfold_store. run. rewrite lookup_empty. run. rewrite lookup_empty. run. eauto. }
  by apply (Hgen w0 None w1).
Qed.

(** On a new store, for put, subscribe, put, subscribe on one key. *)
Lemma C6_bootstrap_at_most_once_witness :
  let ops := [OpPutValue "k" [] None; OpSubscribe "k" None;
              OpPutValue "k" [] None; OpSubscribe "k" None] in
  let w' := world_of (run_ops ops fresh_world) in
  (bootstraps "k" (log w')
     = bootstraps "k" (log fresh_world)
       + (if touched "k" w' && negb (touched "k" fresh_world) then 1 else 0))
  /\ bootstraps "k" (log w') <= S (bootstraps "k" (log fresh_world))
  /\ (touched "k" fresh_world = true ->
      bootstraps "k" (log w') = bootstraps "k" (log fresh_world))
  /\ (forall op x w1,
        op_key op = "k" -> touched "k" fresh_world = false ->
        run_op op fresh_world = Ret x w1 ->
        touched "k" w1 = true
        /\ bootstraps "k" (log w1) = S (bootstraps "k" (log fresh_world)))
  /\ (forall value res,
        touched "k" fresh_world = false ->
        exists w1, PutValue "k" value res fresh_world = Ret res w1
          /\ touched "k" w1 = true
          /\ bootstraps "k" (log w1) = S (bootstraps "k" (log fresh_world)))
  /\ (touched "k" fresh_world = false ->
      exists w1, Subscribe "k" None fresh_world = Ret None w1
        /\ touched "k" w1 = true
        /\ bootstraps "k" (log w1) = S (bootstraps "k" (log fresh_world)))
  /\ ((forall key err, OpSubscribe key (Some err) ∉ ops) ->
      exists wr, run_ops ops fresh_world = Ret tt wr
        /\ ("k" ∈ map op_key ops ->
            touched "k" wr = true
            /\ bootstraps "k" (log wr)
               = if touched "k" fresh_world then bootstraps "k" (log fresh_world)
                 else S (bootstraps "k" (log fresh_world)))).
Proof. apply C6_bootstrap_at_most_once. reflexivity. Defined.

(** Put, subscribe, put and subscribe again on a new store:
    [bootstrapPubsub] runs once. *)
Example bootstrap_once_put_subscribe :
  bootstraps "k" (log (world_of (run_ops
    [OpPutValue "k" [] None; OpSubscribe "k" None;
     OpPutValue "k" [] None; OpSubscribe "k" None] fresh_world))) = 1.
Proof. vm_compute. reflexivity. Qed.

(** ** Redelivery of the cached value *)

(** C9. When the cache holds [v] for the key and [v] passes validation,
    [isBetter] accepts [v] again: it returns true after two calls of
    [Validate], both on [v] and both without error, and no call of
    [Select].  The message loop then writes [v] over itself, so after
    the message is handled the cache is what it was. *)
Theorem C9_redelivery_is_idempotent (w : World MapDatastore) (key : string)
    (v : bytes) (pick : Chan -> nat) :
  ds (store w) !! NewKeyFromBinary key = Some v ->
  Validate (Validator (store w)) key v = None ->
  (exists w1, isBetter key v w = Ret true w1
     /\ log w1 = EvValidate key v :: EvValidate key v :: log w
     /\ store w1 = store w)
  /\ (exists w2, handleMessage_store key v w = Ret true w2
        /\ ds (store w2) = ds (store w))
  /\ ds (store (world_of (handleMessage key v pick w))) = ds (store w).
Proof.
  intros Hc Hv.
  assert (Hb : isBetter key v w
               = Ret true (set_log (EvValidate key v :: EvValidate key v :: log w) w)).
  { unfold isBetter, getLocal, call_Validate. run. rewrite Hv. run.
    rewrite Hc. run. rewrite Hv. run. by rewrite bytes_Equal_refl. }
  assert (Hs : exists w2, handleMessage_store key v w = Ret true w2
                 /\ ds (store w2) = ds (store w)).
  { unfold handleMessage_store, ds_Put_local. run. rewrite Hb. run.
    eexists. split; [done|]. simpl. by apply insert_id. }
  split; [|split; [exact Hs|]].
  - eexists. split; [exact Hb|]. split; [done|by destruct w].
  - destruct Hs as (w2 & Hs & Hd). unfold handleMessage. run. rewrite Hs.
    destruct (notifyWatchers_cache key v pick w2) as [Hn _]. by rewrite Hn.
Qed.

(** On a store that has accepted the record once. *)
Lemma C9_redelivery_is_idempotent_witness :
  let w := world_of (handleMessage "k" ["x"%byte] (fun _ => 0) fresh_world) in
  (exists w1, isBetter "k" ["x"%byte] w = Ret true w1
     /\ log w1 = EvValidate "k" ["x"%byte] :: EvValidate "k" ["x"%byte] :: log w
     /\ store w1 = store w)
  /\ (exists w2, handleMessage_store "k" ["x"%byte] w = Ret true w2
        /\ ds (store w2) = ds (store w))
  /\ ds (store (world_of (handleMessage "k" ["x"%byte] (fun _ => 0) w))) = ds (store w).
Proof. apply C9_redelivery_is_idempotent; reflexivity. Defined.

(** ** A slow listener *)

(** In [slow_listener_world], for the next update [v2]. *)
Lemma C2_notify_waits_for_slow_listener_witness :
  value_of (notifyWatchers "k" v2 (fun _ => 0) slow_listener_world) = None
  /\ chans (world_of (notifyWatchers "k" v2 (fun _ => 0) slow_listener_world)) !! 3
     = Some {| buf := [v1]; cap := 1; closed := false |}.
Proof.
  eapply (C2_notify_waits_for_slow_listener slow_listener_world "k" 2 _ 3 _
            (ctx_derived 5)).
  - vm_compute. discriminate.
  - vm_compute. reflexivity.
  - vm_compute. reflexivity.
  - vm_compute. discriminate.
  - vm_compute. reflexivity.
  - unfold pending_full.
    split; [vm_compute; reflexivity|]. split; [vm_compute; reflexivity|].
    split; [reflexivity|]. split; [simpl; lia|]. vm_compute. reflexivity.
Defined.

(** With [v1] pending, the delivery of [v2] blocks the message loop. *)
Example slow_listener_blocks_producer :
  let r := run_schedule (join_then_v1 ++ [ActStore "k" v2; ActNotify "k" v2 (fun _ => 0)])
             [] fresh_world in
  is_blocked r = true /\ buf <$> chans (world_of r) !! 3 = Some [v1].
Proof. split; vm_compute; reflexivity. Qed.

(** The listener gets every value, oldest first: each delivery goes
    through only after the read of the value before it. *)
Example slow_listener_sees_all_values :
  value_of (run_schedule
    (join_then_v1 ++
     [ActRecv 3; ActStore "k" v2; ActNotify "k" v2 (fun _ => 0);
      ActRecv 3; ActStore "k" v3; ActNotify "k" v3 (fun _ => 0);
      ActRecv 3]) [] fresh_world) = Some [v1; v2; v3].
Proof. vm_compute. reflexivity. Qed.

(** The relay goroutine reads only its proxy channel, channel 4, which
    nothing writes to: with the group open and the context live it has
    no ready case. *)
Example relay_has_nothing_to_forward :
  is_blocked (relay_loop 0 0 slow_listener_world) = true.
Proof. vm_compute. reflexivity. Qed.

(** ** A race of two callers *)


(** In that race caller 1 wins with subscription 1, and caller 0
    cancels subscription 0. *)
Example race_of_two_outcome :
  callers race_of_two = [Returned None (Loser 0); Returned None (Winner 1)]
  /\ subs (store (world race_of_two)) !! "k" = Some (Some 1)
  /\ tasks "k" (log (world race_of_two)) = [1]
  /\ cancels (log (world race_of_two)) = [0]
  /\ bootstraps "k" (log (world race_of_two)) = 1.
Proof.
  split; [vm_compute; reflexivity|]. split; [vm_compute; reflexivity|].
  split; [vm_compute; reflexivity|]. split; vm_compute; reflexivity.
Qed.

(** ** A listener that joins *)

(** For a listener that joins in [cached_v1_world]. *)
Lemma seed_is_first_value_at_work :
  exists out ptr w',
    SearchValue (ctx_caller 1) "k" None cached_v1_world = Ret (inl out) w'
    /\ chans w' !! out = Some {| buf := [v1]; cap := 1; closed := false |}
    /\ watching (store w') !! "k" = Some ptr
    /\ (forall w'', rtc (delivery out) w' w'' ->
          exists w3, chan_recv out w'' = Ret (Some v1) w3)
    /\ (exists w1 wa wb,
          Subscribe "k" None cached_v1_world = Ret None w1
          /\ SearchValue_group "k" w1 = Ret ptr wa
          /\ SearchValue_seed "k" wa = Ret out wb
          /\ SearchValue_join ptr (ctx_caller 1) out wb = Ret tt w'
          /\ lk <$> wgs wa !! ptr = Some RWWriter
          /\ lk <$> wgs wb !! ptr = Some RWWriter
          /\ (forall data pick, exists wx,
                notifyWatchers "k" data pick wa = Blocked wx /\ chans wx = chans wa)
          /\ (forall data pick, exists wx,
                notifyWatchers "k" data pick wb = Blocked wx /\ chans wx = chans wb)).
Proof.
  apply seed_is_first_value.
  - reflexivity.
  - reflexivity.
  - intros ptr Hptr. vm_compute in Hptr. discriminate.
  - vm_compute. reflexivity.
Defined.

(** An update read twice: in the schedule [seed_then_notify] the cache
    of ["k"] is written twice, with [v1] and then [v2], and the listener,
    which joined after the write of [v2], reads [v2] twice: once as its
    seed and once as the update. *)
Lemma update_read_twice :
  let r := run_schedule seed_then_notify [] fresh_world in
  value_of r = Some [v2; v2]
  /\ puts "k" (log (world_of r)) = [v1; v2]
  /\ ~ no_update_twice "k" [v2; v2] (world_of r).
Proof.
  assert (Hputs : puts "k" (log (world_of (run_schedule seed_then_notify [] fresh_world)))
                  = [v1; v2]) by (vm_compute; reflexivity).
  split; [vm_compute; reflexivity|]. split; [exact Hputs|].
  unfold no_update_twice. rewrite Hputs.
  intros [Hs|(l' & Heq & _)]%sublist_cons_r; [|discriminate Heq].
  apply sublist_length in Hs. simpl in Hs. lia.
Qed.

(** In the schedule [notify_before_relay_start] the listener reads its
    seed [v1] and its channel is then empty, while the cache holds [v2]:
    the update was handled before the relay goroutine had run line 351. *)
Example update_missed_before_relay_start :
  let r := run_schedule notify_before_relay_start [] fresh_world in
  value_of r = Some [v1]
  /\ buf <$> chans (world_of r) !! 3 = Some []
  /\ ds (store (world_of r)) !! NewKeyFromBinary "k" = Some v2.
Proof.
  split; [vm_compute; reflexivity|]. split; vm_compute; reflexivity.
Qed.

(** ** The cache on other backends and validators *)

Example getLocal_missing_key :
  value_of (getLocal "k" fresh_world) = Some (inr routing_ErrNotFound).
Proof. reflexivity. Qed.

Example getLocal_backend_error :
  value_of (getLocal "k" broken_world) = Some (inr (errors_New "input/output error")).
Proof. reflexivity. Qed.

Example getLocal_validator_error :
  value_of (getLocal "k" expired_world) = Some (inr (errors_New "invalid record")).
Proof. vm_compute. reflexivity. Qed.

Example getLocal_cached_value :
  value_of (getLocal "k" cached_v1_world) = Some (inl v1).
Proof. vm_compute. reflexivity. Qed.

(** A valid candidate wins over a cached record that has become
    invalid only if it is valid itself: here nothing is. *)
Example isBetter_rejects_invalid_candidate :
  value_of (isBetter "k" v2 expired_world) = Some false.
Proof. vm_compute. reflexivity. Qed.

Example isBetter_prefers_selected_candidate :
  value_of (isBetter "k" v2 cached_v1_world) = Some true
  /\ head (log (world_of (isBetter "k" v2 cached_v1_world))) = Some (EvSelect "k" [v2; v1]).
Proof. split; vm_compute; reflexivity. Qed.

(** ** Cancel of an active subscription *)

(** With an active subscription, [Cancel] returns true and the key is
    gone from [GetSubscriptions]; the relay goroutine of a listener then
    sees the group closing, leaves and closes the listener's channel. *)
Example Cancel_closes_listener :
  value_of (Cancel "k"
    (world_of (run_schedule
       [ActSearchValue (ctx_caller 1) "k" None; ActRelayStart 0] [] fresh_world)))
    = Some true
  /\ value_of (GetSubscriptions cancelled_world) = Some []
  /\ closed <$> chans (world_of (relay_loop 0 0 cancelled_world)) !! 3 = Some true.
Proof.
  split; [vm_compute; reflexivity|]. split; vm_compute; reflexivity.
Qed.

(** ** Messages and the cache *)

Lemma handleMessage_store_run (w : World MapDatastore) (key : string) (data : bytes) :
  exists b w', handleMessage_store key data w = Ret b w'
    /\ (b = true ->
        Validate (Validator (store w)) key data = None
        /\ ds (store w') = <[NewKeyFromBinary key := data]> (ds (store w))
        /\ puts key (log w') = puts key (log w) ++ [data])
    /\ (b = false ->
        ds (store w') = ds (store w) /\ puts key (log w') = puts key (log w))
    /\ Validator (store w') = Validator (store w)
    /\ subs (store w') = subs (store w) /\ mx (store w') = mx (store w)
    /\ chans w' = chans w /\ wgs w' = wgs w.
Proof.
  destruct (isBetter_run w key data) as (b & evs & Hb & Hputs & Hval).
  unfold handleMessage_store, ds_Put_local. run. rewrite Hb.
  destruct b; run; eexists _, _; (split; [done|]); simpl.
  - split; [|by split]. intros _. split; [by apply Hval|]. split; [done|].
    by rewrite puts_cons, Hputs, decide_True.
  - split; [done|]. split; [|done]. by intros _.
Qed.

(** C8.  An update that is published after a listener has joined is
    lost to it when the message loop handles the update before the
    goroutine of [watchGroup.add] has entered the listener in the group
    (line 351).  The listener joins through [SearchValue] while the
    cache holds a valid value [v], and gets a channel that holds [v].
    The loop then handles [data]: if it accepts it, the cache holds
    [data], but the channel still holds [v] only, since
    [notifyWatchers] sends to the listeners of the group and the channel
    is not yet among them.  Once the goroutine has entered it, the
    listener reads [v], and then finds the channel empty and waits:
    [data] is not offered to it. *)
Theorem C8_update_lost_before_listener_is_entered (w : World MapDatastore)
    (c : Context) (key : string) (v : bytes) :
  mx (store w) = false ->
  watchLk (store w) = RWFree ->
  (forall ptr, watching (store w) !! key = Some ptr ->
     exists g, wgs w !! ptr = Some g /\ lk g = RWFree) ->
  listeners_allocated w ->
  getLocal_result w key = inl v ->
  exists out w1,
    SearchValue c key None w = Ret (inl out) w1
    /\ chans w1 !! out = Some {| buf := [v]; cap := 1; closed := false |}
    /\ forall data pick i,
         let w2 := world_of (handleMessage key data pick w1) in
         let w3 := world_of (relay_start i w2) in
         chans w2 !! out = Some {| buf := [v]; cap := 1; closed := false |}
         /\ (value_of (handleMessage_store key data w1) = Some true ->
             ds (store w2) !! NewKeyFromBinary key = Some data
             /\ ds (store w3) !! NewKeyFromBinary key = Some data)
         /\ exists w4, chan_recv out w3 = Ret (Some v) w4
                       /\ chan_recv out w4 = Blocked w4.
Proof.
  intros Hmx Hlk Hw Hids Hv.
  destruct (SearchValue_joins w c key Hmx Hlk Hw Hids)
    as (out & ptr & g & w1 & Hrun & Hch & Hw1 & _ & Hg1 & _ & Hl & _ & _).
  rewrite Hv in Hch. exists out, w1. split; [exact Hrun|]. split; [exact Hch|].
  intros data pick i w2 w3.
  assert (Hc2 : chans w2 !! out = Some {| buf := [v]; cap := 1; closed := false |}).
  { unfold w2. rewrite handleMessage_other; [exact Hch|].
    intros ptr' g'. rewrite Hw1. intros [= <-]. rewrite Hg1. by intros [= <-]. }
  assert (Hc3 : chans w3 !! out = Some {| buf := [v]; cap := 1; closed := false |}).
  { unfold w3. pose proof (relay_start_chans i w2) as Hc. hnf in Hc. by rewrite Hc. }
  split; [exact Hc2|]. split.
  - intros Hacc.
    destruct (handleMessage_store_run w1 key data) as (b & ws & Hs & Ht & _).
    rewrite Hs in Hacc. injection Hacc as ->.
    destruct (Ht eq_refl) as (_ & Hd & _).
    assert (Hd2 : ds (store w2) = ds (store ws)).
    { unfold w2, handleMessage. run. rewrite Hs. apply notifyWatchers_cache. }
    assert (Hd3 : ds (store w3) = ds (store w2)) by apply relay_start_cache.
    rewrite Hd3, Hd2, Hd. by rewrite lookup_insert_eq.
  - unfold chan_recv. rewrite Hc3. simpl. eexists. split; [reflexivity|].
    simpl. by rewrite lookup_insert_eq.
Qed.

(** In [cached_v1_world], for the update [v2]. *)
Lemma C8_update_lost_before_listener_is_entered_witness :
  exists out w1,
    SearchValue (ctx_caller 1) "k" None cached_v1_world = Ret (inl out) w1
    /\ chans w1 !! out = Some {| buf := [v1]; cap := 1; closed := false |}
    /\ value_of (handleMessage_store "k" v2 w1) = Some true
    /\ ds (store (world_of (relay_start 0
             (world_of (handleMessage "k" v2 (fun _ => 0) w1)))))
         !! NewKeyFromBinary "k" = Some v2
    /\ exists w4,
         chan_recv out (world_of (relay_start 0
                          (world_of (handleMessage "k" v2 (fun _ => 0) w1))))
         = Ret (Some v1) w4
         /\ chan_recv out w4 = Blocked w4.
Proof.
  destruct (C8_update_lost_before_listener_is_entered cached_v1_world (ctx_caller 1)
              "k" v1) as (out & w1 & Hrun & Hch & Hrest).
  - reflexivity.
  - reflexivity.
  - intros ptr Hptr. vm_compute in Hptr. discriminate.
  - intros ptr g o Hg. vm_compute in Hg. discriminate.
  - vm_compute. reflexivity.
  - assert (Hw1 : w1 = world_of (SearchValue (ctx_caller 1) "k" None cached_v1_world))
      by (by rewrite Hrun).
    assert (Hacc : value_of (handleMessage_store "k" v2 w1) = Some true)
      by (rewrite Hw1; vm_compute; reflexivity).
    destruct (Hrest v2 (fun _ => 0) 0) as (_ & Hds & Hread).
    exists out, w1. split; [exact Hrun|]. split; [exact Hch|]. split; [exact Hacc|].
    split; [exact (proj2 (Hds Hacc))|exact Hread].
Defined.

(** X7. A message changes the cache exactly when [isBetter] accepts it:
    the verdict of the loop on a message is the verdict of [isBetter],
    which itself changes nothing but the log.  When it accepts, the
    record, which has passed [Validate] in this call, is written under
    the key; when it does not, nothing is written.  Either way the
    cached records of other keys are untouched. *)
Theorem X7_cache_changes_iff_accepted (w : World MapDatastore) (key : string)
    (data : bytes) :
  exists b evs w',
    isBetter key data w = Ret b (set_log (evs ++ log w) w)
    /\ handleMessage_store key data w = Ret b w'
    /\ (b = true ->
        Validate (Validator (store w)) key data = None
        /\ ds (store w') = <[NewKeyFromBinary key := data]> (ds (store w))
        /\ puts key (log w') = puts key (log w) ++ [data])
    /\ (b = false ->
        ds (store w') = ds (store w) /\ puts key (log w') = puts key (log w))
    /\ (forall key', key' <> key ->
          ds (store w') !! NewKeyFromBinary key' = ds (store w) !! NewKeyFromBinary key').
Proof.
  destruct (isBetter_run w key data) as (b & evs & Hb & Hputs & Hval).
  exists b, evs.
  assert (Hrun : exists w', handleMessage_store key data w = Ret b w'
    /\ (b = true ->
        ds (store w') = <[NewKeyFromBinary key := data]> (ds (store w))
        /\ puts key (log w') = puts key (log w) ++ [data])
    /\ (b = false ->
        ds (store w') = ds (store w) /\ puts key (log w') = puts key (log w))).
  { unfold handleMessage_store, ds_Put_local. run. rewrite Hb.
    destruct b; run; (eexists; split; [done|]); simpl.
    - split; [|done]. intros _. split; [done|].
      by rewrite puts_cons, Hputs, decide_True.
    - split; [done|]. by intros _. }
  destruct Hrun as (w' & Hrun & Ht & Hf).
  exists w'. split; [exact Hb|]. split; [exact Hrun|].
  split; [intros Hbt; split; [by apply Hval|by apply Ht]|]. split; [exact Hf|].
  intros key' Hne. destruct b.
  - destruct (Ht eq_refl) as [-> _]. rewrite lookup_insert_ne; [done|].
    by intros [= ->].
  - by destruct (Hf eq_refl) as [-> _].
Qed.

(** X8. End to end on the receiving node.  Once the message loop has
    accepted a record for a key, the cache holds it, whether or not the
    delivery to the watchers has gone through.  A [GetValue] for the
    key that finds the cache as the loop left it validates the record
    again: it returns the record if the validator accepts it at the
    time of the read, and the validator's error if it does not.  The
    verdict of the loop is not carried over to the read; the validator
    of the store at the read may be any. *)
Theorem X8_accepted_record_is_returned (w : World MapDatastore) (key : string)
    (data : bytes) (pick : Chan -> nat) (res : option error)
    (w1 wr w3 : World MapDatastore) :
  handleMessage_store key data w = Ret true w1 ->
  ds (store wr) = ds (store (world_of (handleMessage key data pick w))) ->
  Subscribe key res wr = Ret None w3 ->
  ds (store wr) !! NewKeyFromBinary key = Some data
  /\ exists w4,
       GetValue key res wr
       = Ret match Validate (Validator (store wr)) key data with
             | None => inl data
             | Some err => inr err
             end w4.
Proof.
  intros Hacc Hcache Hsub.
  destruct (handleMessage_store_run w key data)
    as (b & w' & Hrun & Ht & _ & HV & _).
  rewrite Hacc in Hrun. injection Hrun as <- <-.
  destruct (Ht eq_refl) as (_ & Hd & _).
  assert (Hd2 : ds (store (world_of (handleMessage key data pick w))) = ds (store w1)).
  { unfold handleMessage. run. rewrite Hacc. apply notifyWatchers_cache. }
  assert (Hdata : ds (store wr) !! NewKeyFromBinary key = Some data)
    by (by rewrite Hcache, Hd2, Hd, lookup_insert_eq).
  split; [exact Hdata|].
  destruct (Subscribe_cache wr key res) as [Hd3 HV3]. rewrite Hsub in Hd3, HV3.
  simpl in Hd3, HV3.
  destruct (getLocal_run w3 key) as (evs & Hg & _).
  unfold GetValue. run. rewrite Hsub, Hg. eexists. f_equal.
  unfold getLocal_result. simpl. rewrite Hd3, Hdata, HV3.
  by destruct (Validate (Validator (store wr)) key data).
Qed.

(** X9. Of two valid records of which the selector prefers [a], [a] is
    the one cached once both have arrived on an empty cache, in either
    order: it replaces [b], and [b] does not replace it. *)
Theorem X9_preferred_record_wins (w : World MapDatastore) (key : string) (a b : bytes) :
  ds (store w) !! NewKeyFromBinary key = None ->
  Validate (Validator (store w)) key a = None ->
  Validate (Validator (store w)) key b = None ->
  a <> b ->
  Select (Validator (store w)) key [a; b] = (0%Z, None) ->
  Select (Validator (store w)) key [b; a] <> (0%Z, None) ->
  ds (store (world_of (run_schedule [ActStore key b; ActStore key a] [] w)))
    !! NewKeyFromBinary key = Some a
  /\ ds (store (world_of (run_schedule [ActStore key a; ActStore key b] [] w)))
       !! NewKeyFromBinary key = Some a.
Proof.
  set (V := Validator (store w)). intros Hempty Ha Hb Hne Hab Hba.
  assert (Hfirst : forall x, Validate V key x = None ->
    exists w1, handleMessage_store key x w = Ret true w1
      /\ ds (store w1) !! NewKeyFromBinary key = Some x
      /\ Validator (store w1) = V).
  { intros x Hx. unfold handleMessage_store, ds_Put_local, isBetter, getLocal,
      call_Validate. run. fold V. rewrite Hx. run. rewrite Hempty. run.
    eexists. split; [done|]. simpl. by rewrite lookup_insert_eq. }
  assert (Hsecond : forall (w1 : World MapDatastore) old x,
    ds (store w1) !! NewKeyFromBinary key = Some old -> Validator (store w1) = V ->
    Validate V key x = None -> Validate V key old = None -> old <> x ->
    exists w2, handleMessage_store key x w1
               = Ret (bool_decide ((Select V key [x; old]).2 = None)
                      && ((Select V key [x; old]).1 =? 0)%Z) w2
      /\ ds (store w2) !! NewKeyFromBinary key
         = Some (if bool_decide ((Select V key [x; old]).2 = None)
                    && ((Select V key [x; old]).1 =? 0)%Z then x else old)).
  { intros w1 old x Hold HV Hx Ho Hox.
    unfold handleMessage_store, ds_Put_local, isBetter, getLocal,
      call_Validate, call_Select. run. rewrite HV, Hx. run. rewrite Hold. run.
    rewrite ?HV, Ho. run.
    destruct (bytes_Equal old x) eqn:Eq; [by apply bytes_Equal_spec in Eq|]. run.
    rewrite ?HV.
    destruct (bool_decide _ && _); run; eexists; (split; [done|]); simpl;
      [by rewrite lookup_insert_eq|done]. }
  split.
  - destruct (Hfirst b Hb) as (w1 & Hr1 & Hd1 & HV1).
    destruct (Hsecond w1 b a Hd1 HV1 Ha Hb ltac:(congruence)) as (w2 & Hr2 & Hd2).
    simpl. run. rewrite Hr1. run. rewrite Hr2. simpl. rewrite Hd2.
    by rewrite (proj2 (Select_accepts _) Hab).
  - destruct (Hfirst a Ha) as (w1 & Hr1 & Hd1 & HV1).
    destruct (Hsecond w1 a b Hd1 HV1 Hb Ha Hne) as (w2 & Hr2 & Hd2).
    simpl. run. rewrite Hr1. run. rewrite Hr2. simpl. rewrite Hd2.
    destruct (bool_decide _ && _) eqn:E; [|done].
    by apply Select_accepts in E.
Qed.

(** ** Every state that calls can reach from a new store *)


(** X18. In every state that calls reach from a new store, the proxy
    channel of each relay goroutine is empty: nothing sends on it.  A
    turn of the goroutine therefore never forwards a value to its
    listener; it waits, or it leaves through its deferred function.
    What a listener reads has been put into its channel by
    [SearchValue] or by [notifyWatchers]. *)
Theorem X18_relay_has_nothing_to_forward (c : Context) (h : Host) (r : ContentRouting)
    (p : PubSub) (v : record_Validator) (w : World MapDatastore) (i pick : nat)
    (rl : Relay) :
  rtc store_step (new_world (NewPubsubValueStore c h r p v)) w ->
  relays w !! i = Some rl ->
  chans w !! r_proxy rl = Some empty_proxy
  /\ (relay_loop i pick w = Blocked w
      \/ exists c', r_pc rl = RelayRunning c'
                    /\ relay_loop i pick w = relay_exit i rl c' w).
Proof.
  intros Hreach Hr.
  assert (Hwf : wf w) by (eapply reachable_wf; [exact Hreach|by apply wf_new_world]).
  split; [by eapply wf_proxy|by apply relay_loop_cases].
Qed.

(** X19. As long as every call so far has returned, no lock of the
    store is held between calls, and every call of the API returns:
    [PutValue], [GetSubscriptions], [Cancel] unless the entry of the
    name is in the bootstrapping state, and [Subscribe], [GetValue] and
    [SearchValue] unless the transport refuses the subscription.
    Waiting starts only in the delivery of a message, in a turn of a
    relay goroutine or in a read by a listener. *)
Theorem X19_calls_return_while_none_waits (c : Context) (h : Host) (r : ContentRouting)
    (p : PubSub) (v : record_Validator) (w : World MapDatastore) :
  rtc quiet_step (new_world (NewPubsubValueStore c h r p v)) w ->
  unlocked w
  /\ (forall key value res, returned (PutValue key value res w) = true)
  /\ (forall key, returned (Subscribe key None w) = true)
  /\ (forall key, returned (GetValue key None w) = true)
  /\ (forall c' key, returned (SearchValue c' key None w) = true)
  /\ returned (GetSubscriptions w) = true
  /\ (forall name, subs (store w) !! name <> Some None ->
        returned (Cancel name w) = true).
Proof.
  intros Hreach.
  destruct (quiet_reachable _ _ Hreach) as [Hwf Hu].
  { by apply wf_new_world. }
  { split; [done|]. split; [done|]. apply map_Forall_empty. }
  split; [done|].
  split; [intros; by apply PutValue_unlocked|].
  split; [intros; by apply Subscribe_unlocked|].
  split; [intros; by apply GetValue_unlocked|].
  split; [intros; by apply SearchValue_unlocked|].
  split; [by apply GetSubscriptions_unlocked|].
  intros name; by apply Cancel_unlocked.
Qed.

(** ** The theorems above at work *)

(** X1 on a new store. *)
Lemma X1_PutValue_publishes_witness :
  mx (store fresh_world) = false
  /\ exists w', PutValue "k" v1 None fresh_world = Ret None w'
       /\ head (log w') = Some (EvPublish "k" v1)
       /\ subs (store w') = <["k" := None]> (subs (store fresh_world)).
Proof.
  assert (Hmx : mx (store fresh_world) = false) by reflexivity.
  split; [exact Hmx|].
  destruct (X1_PutValue_publishes fresh_world "k" v1 None Hmx)
    as (w' & Hrun & Hlog & _ & Hsubs & _).
  exists w'. split; [exact Hrun|]. split; [exact Hlog|]. exact Hsubs.
Defined.

(** X2: a second [Subscribe] returns at once, whatever the transport
    would answer. *)
Lemma X2_Subscribe_is_idempotent_witness :
  mx (store fresh_world) = false
  /\ Subscribe "k" None fresh_world
     = Ret None (world_of (Subscribe "k" None fresh_world))
  /\ Subscribe "k" (Some (errors_New "no route"))
       (world_of (Subscribe "k" None fresh_world))
     = Ret None (world_of (Subscribe "k" None fresh_world)).
Proof.
  assert (Hmx : mx (store fresh_world) = false) by reflexivity.
  assert (Hrun : Subscribe "k" None fresh_world
                 = Ret None (world_of (Subscribe "k" None fresh_world)))
    by (vm_compute; reflexivity).
  split; [exact Hmx|]. split; [exact Hrun|].
  exact (proj2 (X2_Subscribe_is_idempotent fresh_world "k" None
                  (Some (errors_New "no route")) _ Hmx Hrun)).
Defined.

(** X3 on a new store. *)
Lemma X3_Subscribe_installs_witness :
  mx (store fresh_world) = false
  /\ entry "k" fresh_world = None
  /\ exists w', Subscribe "k" None fresh_world = Ret None w'
       /\ subs (store w') = <["k" := Some (next fresh_world)]> (subs (store fresh_world)).
Proof.
  assert (Hmx : mx (store fresh_world) = false) by reflexivity.
  assert (He : entry "k" fresh_world = None) by reflexivity.
  split; [exact Hmx|]. split; [exact He|].
  destruct (X3_Subscribe_installs fresh_world "k" Hmx He) as (w' & Hrun & Hsubs & _).
  exists w'. split; [exact Hrun|exact Hsubs].
Defined.

(** X4 on a store that is subscribed to ["k"]. *)
Lemma X4_GetSubscriptions_lists_entries_witness :
  mx (store cached_v1_world) = false
  /\ exists l, GetSubscriptions cached_v1_world = Ret l cached_v1_world
       /\ ("k" ∈ l <-> is_Some (subs (store cached_v1_world) !! "k")).
Proof.
  assert (Hmx : mx (store cached_v1_world) = false) by reflexivity.
  split; [exact Hmx|].
  destruct (X4_GetSubscriptions_lists_entries cached_v1_world Hmx)
    as (l & Hrun & _ & Hl & _).
  exists l. split; [exact Hrun|apply Hl].
Defined.


(** X6: the loop of subscription 0 handles [v2] and ends on a cancelled
    context; [Subscribe] still finds subscription 0. *)
Lemma X6_ended_loop_is_not_restarted_witness :
  let msgs := map inl [v2] ++ inr context_Canceled :: [] in
  let w' := world_of (handleSubscription 0 "k" (ctx_derived 1) (fun _ => 0) msgs
                        cached_v1_world) in
  mx (store cached_v1_world) = false
  /\ subs (store cached_v1_world) !! "k" = Some (Some 0)
  /\ handleSubscription 0 "k" (ctx_derived 1) (fun _ => 0) msgs cached_v1_world
     = Ret tt w'
  /\ 0 ∈ cancels (log w')
  /\ Subscribe "k" None w' = Ret None w'.
Proof.
  intros msgs w'.
  assert (Hmx : mx (store cached_v1_world) = false) by reflexivity.
  assert (Hs : subs (store cached_v1_world) !! "k" = Some (Some 0))
    by (vm_compute; reflexivity).
  assert (Hrun : handleSubscription 0 "k" (ctx_derived 1) (fun _ => 0) msgs
                   cached_v1_world = Ret tt w') by (vm_compute; reflexivity).
  split; [exact Hmx|]. split; [exact Hs|]. split; [exact Hrun|].
  destruct (X6_ended_loop_is_not_restarted cached_v1_world 0 "k" (ctx_derived 1)
              (fun _ => 0) [v2] context_Canceled [] w' None Hmx Hs Hrun)
    as (Hc & _ & Hsub).
  split; [exact Hc|exact Hsub].
Defined.

(** X8: [v1] arrives on a new store.  [GetValue] returns it while the
    validator accepts it; in [expired_world], which has the same cache
    and a validator that rejects the record, it returns the
    validator's error. *)
Lemma X8_accepted_record_is_returned_witness :
  (exists w4,
     GetValue "k" None (world_of (handleMessage "k" v1 (fun _ => 0) fresh_world))
     = Ret (inl v1) w4)
  /\ (exists w4,
        GetValue "k" None expired_world = Ret (inr (errors_New "invalid record")) w4).
Proof.
  assert (Hacc : handleMessage_store "k" v1 fresh_world
                 = Ret true (world_of (handleMessage_store "k" v1 fresh_world)))
    by (vm_compute; reflexivity).
  split.
  - refine (proj2 (X8_accepted_record_is_returned fresh_world "k" v1 (fun _ => 0) None _
             (world_of (handleMessage "k" v1 (fun _ => 0) fresh_world))
             (world_of (Subscribe "k" None
                (world_of (handleMessage "k" v1 (fun _ => 0) fresh_world))))
             Hacc _ _)).
    + reflexivity.
    + vm_compute. reflexivity.
  - refine (proj2 (X8_accepted_record_is_returned fresh_world "k" v1 (fun _ => 0) None _
             expired_world (world_of (Subscribe "k" None expired_world)) Hacc _ _)).
    + vm_compute. reflexivity.
    + vm_compute. reflexivity.
Defined.

(** X9 with a validator that prefers the longer record. *)
Lemma X9_preferred_record_wins_witness :
  ds (store (world_of (run_schedule [ActStore "k" v1; ActStore "k" v12] [] longer_world)))
    !! NewKeyFromBinary "k" = Some v12
  /\ ds (store (world_of (run_schedule [ActStore "k" v12; ActStore "k" v1] [] longer_world)))
       !! NewKeyFromBinary "k" = Some v12.
Proof.
  apply (X9_preferred_record_wins longer_world "k" v12 v1).
  - reflexivity.
  - reflexivity.
  - reflexivity.
  - discriminate.
  - reflexivity.
  - vm_compute. discriminate.
Defined.

(** X10: the listener that has joined has room, and gets [v1]. *)
Lemma X10_notify_reaches_listeners_with_room_witness :
  exists cs,
    notifyWatchers "k" v1 (fun _ => 0) joined_world = Ret tt (set_chans cs joined_world)
    /\ cs !! 3 = Some (pushed v1 empty_proxy).
Proof.
  destruct (X10_notify_reaches_listeners_with_room joined_world "k" 2 joined_group v1
              (fun _ => 0)) as (cs & Hrun & _ & Hl).
  - reflexivity.
  - vm_compute. reflexivity.
  - vm_compute. reflexivity.
  - reflexivity.
  - intros out c Hl. simpl in Hl. apply lookup_singleton_Some in Hl as [<- _].
    exists empty_proxy. split; [vm_compute; reflexivity|].
    split; [reflexivity|simpl; lia].
  - exists cs. split; [exact Hrun|].
    apply (Hl 3 (ctx_derived 5) empty_proxy).
    + vm_compute. reflexivity.
    + vm_compute. reflexivity.
    + reflexivity.
    + vm_compute. reflexivity.
Defined.

(** X11: the listener has not read [v1] when [v2] is to be delivered. *)
Lemma X11_slow_listener_stalls_the_store_witness :
  exists wx,
    notifyWatchers "k" v2 (fun _ => 0) slow_listener_world = Blocked wx
    /\ exists wy,
         SearchValue (ctx_caller 2) "k" None wx = Blocked wy
         /\ is_blocked (notifyWatchers "other" v1 (fun _ => 0) wy) = true
         /\ exists wz,
              Cancel "other" wy = Blocked wz
              /\ is_blocked (PutValue "other" v1 None wz) = true.
Proof.
  destruct (X11_slow_listener_stalls_the_store slow_listener_world "k" 0 2 joined_group
              3 {| buf := [v1]; cap := 1; closed := false |} (ctx_derived 5) v2
              (fun _ => 0)) as (wx & Hrun & _ & Hrest).
  - reflexivity.
  - reflexivity.
  - vm_compute. reflexivity.
  - vm_compute. reflexivity.
  - vm_compute. reflexivity.
  - reflexivity.
  - intros o c' Hl. simpl in Hl. apply lookup_singleton_Some in Hl as [<- _].
    eexists. split; [vm_compute; reflexivity|reflexivity].
  - vm_compute. reflexivity.
  - unfold pending_full.
    split; [vm_compute; reflexivity|]. split; [vm_compute; reflexivity|].
    split; [reflexivity|]. split; [simpl; lia|]. vm_compute. reflexivity.
  - exists wx. split; [exact Hrun|].
    destruct (Hrest (ctx_caller 2) None) as (wy & Hsv & _ & Hn & Hc & _).
    exists wy. split; [exact Hsv|]. split; [apply Hn|].
    destruct (Hc "other") as (wz & Hcz & _ & Hput & _).
    + vm_compute. discriminate.
    + exists wz. split; [exact Hcz|apply Hput].
Defined.

(** X12 on a new store. *)
Lemma X12_new_listener_is_not_registered_witness :
  exists out w',
    SearchValue (ctx_caller 1) "k" None fresh_world = Ret (inl out) w'
    /\ chans w' !! out = Some {| buf := []; cap := 1; closed := false |}
    /\ forall data pick,
         chans (world_of (notifyWatchers "k" data pick w')) !! out = chans w' !! out.
Proof.
  destruct (X12_new_listener_is_not_registered fresh_world (ctx_caller 1) "k")
    as (out & ptr & g & w' & Hrun & Hch & _ & _ & _ & _ & _ & _ & Hmiss).
  - reflexivity.
  - reflexivity.
  - intros ptr Hptr. vm_compute in Hptr. discriminate.
  - intros ptr g o Hg. vm_compute in Hg. discriminate.
  - exists out, w'. split; [exact Hrun|]. split; [exact Hch|exact Hmiss].
Defined.


(** X14 on a store that is subscribed to ["k"]. *)
Lemma X14_Cancel_twice_witness :
  exists b w',
    Cancel "k" cached_v1_world = Ret b w'
    /\ getLocal_result w' "k" = getLocal_result cached_v1_world "k"
    /\ Cancel "k" w' = Ret false w'.
Proof.
  destruct (X14_Cancel_twice cached_v1_world "k")
    as (w' & Hrun & _ & _ & _ & Hcache & Htwice).
  - reflexivity.
  - reflexivity.
  - vm_compute. discriminate.
  - intros ptr Hptr. vm_compute in Hptr. discriminate.
  - eexists _, w'. split; [exact Hrun|]. split; [exact Hcache|exact Htwice].
Defined.

(** X15: [Cancel "k"] with a listener that has joined. *)
Lemma X15_Cancel_ends_listeners_witness :
  exists b w1 w2,
    Cancel "k" joined_world = Ret b w1
    /\ relay_loop 0 0 w1 = Ret tt w2
    /\ chans w2 !! 3 = Some (closed_off empty_proxy).
Proof.
  destruct (X15_Cancel_ends_listeners joined_world "k" 2 joined_group 0 joined_relay
              (ctx_derived 5) empty_proxy 0)
    as (b & w1 & w2 & Hrun & _ & Hloop & Hch & _).
  - reflexivity.
  - reflexivity.
  - vm_compute. discriminate.
  - vm_compute. reflexivity.
  - vm_compute. reflexivity.
  - reflexivity.
  - reflexivity.
  - vm_compute. reflexivity.
  - reflexivity.
  - reflexivity.
  - vm_compute. reflexivity.
  - vm_compute. reflexivity.
  - reflexivity.
  - exists b, w1, w2. split; [exact Hrun|]. split; [exact Hloop|exact Hch].
Defined.

(** X16 on a store that is subscribed to ["k"]. *)
Lemma X16_resubscribe_bootstraps_again_witness :
  exists w1 w2,
    Cancel "k" cached_v1_world = Ret true w1
    /\ Subscribe "k" None w1 = Ret None w2
    /\ bootstraps "k" (log w2) = S (bootstraps "k" (log cached_v1_world)).
Proof.
  destruct (X16_resubscribe_bootstraps_again cached_v1_world "k" 0)
    as (w1 & w2 & Hrun & Hsub & _ & Hboot & _).
  - reflexivity.
  - reflexivity.
  - vm_compute. reflexivity.
  - intros ptr Hptr. vm_compute in Hptr. discriminate.
  - exists w1, w2. split; [exact Hrun|]. split; [exact Hsub|exact Hboot].
Defined.


(** X18 after a listener has joined on a new store. *)
Lemma X18_relay_has_nothing_to_forward_witness :
  chans (world_of (SearchValue (ctx_caller 1) "k" None fresh_world)) !! 4
  = Some empty_proxy.
Proof.
  apply (X18_relay_has_nothing_to_forward (ctx_caller 0) 0 0 0 newest_wins
           (world_of (SearchValue (ctx_caller 1) "k" None fresh_world)) 0 0
           (set_pc RelayNew joined_relay)).
  - apply rtc_once. apply (step_SearchValue (ctx_caller 1) "k" None fresh_world).
  - vm_compute. reflexivity.
Defined.

(** X19 after a listener has joined on a new store. *)
Lemma X19_calls_return_while_none_waits_witness :
  returned (SearchValue (ctx_caller 2) "k" None
              (world_of (SearchValue (ctx_caller 1) "k" None fresh_world))) = true
  /\ returned (Cancel "k"
                 (world_of (SearchValue (ctx_caller 1) "k" None fresh_world))) = true.
Proof.
  destruct (X19_calls_return_while_none_waits (ctx_caller 0) 0 0 0 newest_wins
              (world_of (SearchValue (ctx_caller 1) "k" None fresh_world)))
    as (_ & _ & _ & _ & Hsv & _ & Hcancel).
  - apply rtc_once. apply (quiet_SearchValue (ctx_caller 1) "k" None fresh_world).
    vm_compute. reflexivity.
  - split; [apply Hsv|]. apply Hcancel. vm_compute. discriminate.
Defined.

(** X20 on a new store. *)
Lemma X20_listener_gets_next_record_witness :
  exists out w1 w2 w3 w4,
    SearchValue (ctx_caller 1) "k" None fresh_world = Ret (inl out) w1
    /\ chans w1 !! out = Some empty_proxy
    /\ relay_start (length (relays fresh_world)) w1 = Ret tt w2
    /\ handleMessage "k" v1 (fun _ => 0) w2 = Ret tt w3
    /\ chan_recv out w3 = Ret (Some v1) w4.
Proof.
  apply (X20_listener_gets_next_record fresh_world (ctx_caller 1) "k" v1 (fun _ => 0)
           routing_ErrNotFound).
  - reflexivity.
  - reflexivity.
  - reflexivity.
  - reflexivity.
  - vm_compute. reflexivity.
  - reflexivity.
Defined.
